(** * The policy persistence layer of [app.py]

    A shallow embedding of the database functions of [app.py]
    ([create_policy], [update_policy_status], [save_policy_content],
    [save_generated_media], [get_policy], [get_all_policies],
    [get_policy_contents], [get_generated_media], [get_policies_by_date],
    [get_policies_by_date_range]) together with the parts of SQLite and of
    Python's [json] module they rely on, of [parse_json_response], and of
    the two places that reset the session state ([init_session_state] and
    the handler of the button that starts a new policy).

    Conventions.
    - Text is a [string]: the UTF-8 bytes SQLite stores for a TEXT value.
      SQLite compares TEXT bytewise (BINARY collation), which is
      [String.compare].
    - The database is passed explicitly; every function that writes takes the
      reading of [datetime.now().isoformat()] as its argument [now].
    - A function that can raise returns a [result].
    - Python values are the type [pyval].  A float is an IEEE 754 binary64
      number, [float(text)] rounds to the nearest float and [repr] writes the
      shortest decimal that reads back.
    - Row identifiers are [Z]; the ceiling of SQLite's 64-bit rowid is not
      described. *)

From Stdlib Require Import ZArith NArith List Bool Ascii String Lia.
From Stdlib Require Import Sorting.Sorted Sorting.Permutation Structures.OrdersEx.
From Stdlib Require Import DecimalPos DecimalN DecimalZ.
Import ListNotations.

#[local] Set Warnings "-register-all".

Local Open Scope string_scope.
Local Open Scope list_scope.
Local Open Scope Z_scope.

(** ** Exceptions and results *)

Inductive exn : Type :=
| TypeError          (* json.dumps: a dict key that is not str/int/float/bool/None *)
| JSONDecodeError    (* json.loads: the text is not JSON *)
| Fuel.              (* the decoder's recursion budget ran out: never the
                        answer of [json_loads] *)

Inductive result (A : Type) : Type :=
| Ok (a : A)
| Raise (e : exn).

Arguments Ok {A} a.
Arguments Raise {A} e.

Definition bind {A B : Type} (m : result A) (k : A -> result B) : result B :=
  match m with
  | Ok a => k a
  | Raise e => Raise e
  end.

Notation "x <- m ;; k" := (bind m (fun x => k))
  (at level 61, m at next level, right associativity).
Notation "' p <- m ;; k" := (bind m (fun x => let p := x in k))
  (at level 61, p pattern, m at next level, right associativity).

Definition mapM {A B : Type} (f : A -> result B) : list A -> result (list B) :=
  fix go (l : list A) : result (list B) :=
    match l with
    | [] => Ok []
    | x :: r => y <- f x ;; ys <- go r ;; Ok (y :: ys)
    end.

(** ** Floats

    A Python [float] is an IEEE 754 binary64 number: not-a-number, an
    infinity, or [(-1)^neg * m * 2^e] in canonical form ([float_ok]): a zero
    or a subnormal number has [e = -1074] and [m < 2^52], a normal number
    has [2^52 <= m < 2^53] and [-1074 <= e <= 971]. *)

Inductive pyfloat : Type :=
| FNaN
| FInf (neg : bool)
| FFinite (neg : bool) (m e : Z).

Definition float_ok (f : pyfloat) : bool :=
  match f with
  | FNaN => true
  | FInf _ => true
  | FFinite _ m e =>
      ((0 <=? m) && (m <? 2 ^ 52) && (e =? -1074))
      || ((2 ^ 52 <=? m) && (m <? 2 ^ 53) && (-1074 <=? e) && (e <=? 971))
  end.

Definition is_nan (f : pyfloat) : bool :=
  match f with
  | FNaN => true
  | _ => false
  end.

(** The same float, bit for bit: the sign of a zero counts. *)
Definition pyfloat_eqb (a b : pyfloat) : bool :=
  match a, b with
  | FNaN, FNaN => true
  | FInf s, FInf t => Bool.eqb s t
  | FFinite s m e, FFinite t m' e' => Bool.eqb s t && (m =? m') && (e =? e')
  | _, _ => false
  end.

Definition signed (neg : bool) (m : Z) : Z := if neg then - m else m.

(** [a == b] on floats: [nan] equals nothing, the two zeros are equal. *)
Definition float_eq (a b : pyfloat) : bool :=
  match a, b with
  | FInf s, FInf t => Bool.eqb s t
  | FFinite s m e, FFinite t m' e' =>
      let k := Z.min e e' in
      signed s m * 2 ^ (e - k) =? signed t m' * 2 ^ (e' - k)
  | _, _ => false
  end.

(** [n == f] for an [int] and a [float]: the two are compared exactly. *)
Definition int_float_eq (n : Z) (f : pyfloat) : bool :=
  match f with
  | FFinite s m e =>
      if 0 <=? e then n =? signed s m * 2 ^ e else n * 2 ^ (- e) =? signed s m
  | _ => false
  end.

(** ** Python values

    The values the functions are handed and hand back: [None], [bool],
    [int], [float], [str], [list], [tuple] and [dict].  The objects
    [json.dumps] has no encoding for (bytes, sets, instances of other
    classes) are not represented. *)

Inductive pyval : Type :=
| PNone
| PBool (b : bool)
| PInt (n : Z)
| PFloat (f : pyfloat)
| PStr (s : string)
| PList (items : list pyval)
| PTuple (items : list pyval)
| PDict (items : list (pyval * pyval)).   (* in insertion order *)

(** [bool(v)], as used by [metadata or {}]. *)
Definition truthy (v : pyval) : bool :=
  match v with
  | PNone => false
  | PBool b => b
  | PInt n => negb (n =? 0)
  | PFloat f => match f with FFinite _ m _ => negb (m =? 0) | _ => true end
  | PStr s => negb (s =? "")%string
  | PList l => negb (Nat.eqb (List.length l) 0)
  | PTuple l => negb (Nat.eqb (List.length l) 0)
  | PDict d => negb (Nat.eqb (List.length d) 0)
  end.

(** [a or b]. *)
Definition py_or (a b : pyval) : pyval := if truthy a then a else b.

(** [truthy] of a nullable TEXT column read back from SQLite: [None] and the
    empty string are false. *)
Definition truthy_text (t : option string) : bool :=
  match t with
  | None => false
  | Some s => negb (s =? "")%string
  end.

(** Python's [==] on these values: [True == 1 == 1.0], a list never equals
    a tuple, dicts compare as maps (order does not matter). *)
Definition int_of_bool (b : bool) : Z := if b then 1 else 0.

Fixpoint py_eq (a b : pyval) {struct a} : bool :=
  let fix all2 (x y : list pyval) {struct x} : bool :=
    match x, y with
    | [], [] => true
    | u :: x', v :: y' => py_eq u v && all2 x' y'
    | _, _ => false
    end in
  match a, b with
  | PNone, PNone => true
  | PBool x, PBool y => Bool.eqb x y
  | PBool x, PInt y => int_of_bool x =? y
  | PInt x, PBool y => x =? int_of_bool y
  | PInt x, PInt y => x =? y
  | PFloat x, PFloat y => float_eq x y
  | PBool x, PFloat y => int_float_eq (int_of_bool x) y
  | PFloat x, PBool y => int_float_eq (int_of_bool y) x
  | PInt x, PFloat y => int_float_eq x y
  | PFloat x, PInt y => int_float_eq y x
  | PStr x, PStr y => (x =? y)%string
  | PList x, PList y => all2 x y
  | PTuple x, PTuple y => all2 x y
  | PDict x, PDict y =>
      Nat.eqb (List.length x) (List.length y) &&
      (fix each (x : list (pyval * pyval)) : bool :=
         match x with
         | [] => true
         | (k, v) :: x' =>
             existsb (fun kv => py_eq k (fst kv) && py_eq v (snd kv)) y && each x'
         end) x
  | _, _ => false
  end.

(** ** [json.dumps(v, ensure_ascii=False)]

    The text is built as a list of characters.  With [ensure_ascii=False]
    only the double quote, the backslash and the control characters below
    U+0020 are escaped, so every byte of a multi-byte UTF-8 sequence passes
    through unchanged. *)

Abbreviation DQUOTE := ("034"%char).
Abbreviation BACKSLASH := ("092"%char).

Definition chars (s : string) : list ascii := list_ascii_of_string s.

Definition hex_digit (n : N) : ascii :=
  if (n <? 10)%N then ascii_of_N (48 + n) else ascii_of_N (87 + n).

(** [ESCAPE_DCT] of [json.encoder]. *)
Definition escape_char (c : ascii) : list ascii :=
  if (c =? DQUOTE)%char then [BACKSLASH; DQUOTE]
  else if (c =? BACKSLASH)%char then [BACKSLASH; BACKSLASH]
  else if (c =? "010")%char then [BACKSLASH; "n"%char]
  else if (c =? "013")%char then [BACKSLASH; "r"%char]
  else if (c =? "009")%char then [BACKSLASH; "t"%char]
  else if (c =? "008")%char then [BACKSLASH; "b"%char]
  else if (c =? "012")%char then [BACKSLASH; "f"%char]
  else if (N_of_ascii c <? 32)%N then
    [BACKSLASH; "u"%char; "0"%char; "0"%char;
     hex_digit (N_of_ascii c / 16); hex_digit (N_of_ascii c mod 16)]
  else [c].

Fixpoint escape (s : list ascii) : list ascii :=
  match s with
  | [] => []
  | c :: r => escape_char c ++ escape r
  end.

(** [encode_basestring]. *)
Definition quote (s : list ascii) : list ascii := DQUOTE :: escape s ++ [DQUOTE].

Fixpoint chars_of_uint (u : Decimal.uint) : list ascii :=
  match u with
  | Decimal.Nil => []
  | Decimal.D0 u => "0"%char :: chars_of_uint u
  | Decimal.D1 u => "1"%char :: chars_of_uint u
  | Decimal.D2 u => "2"%char :: chars_of_uint u
  | Decimal.D3 u => "3"%char :: chars_of_uint u
  | Decimal.D4 u => "4"%char :: chars_of_uint u
  | Decimal.D5 u => "5"%char :: chars_of_uint u
  | Decimal.D6 u => "6"%char :: chars_of_uint u
  | Decimal.D7 u => "7"%char :: chars_of_uint u
  | Decimal.D8 u => "8"%char :: chars_of_uint u
  | Decimal.D9 u => "9"%char :: chars_of_uint u
  end.

(** [int.__repr__]: decimal, a minus sign for negatives, no leading zero. *)
Definition chars_of_int (z : Z) : list ascii :=
  match Z.to_int z with
  | Decimal.Pos u => chars_of_uint u
  | Decimal.Neg u => "-"%char :: chars_of_uint u
  end.

(** ** [float(text)] and [float.__repr__]

    [float] rounds the decimal it reads to the nearest float, to the one
    with an even mantissa when two are equally near; what is too large
    becomes an infinity.  The decimal is handed over as a fraction
    [N / D]. *)

(** [2^k <= N / D]. *)
Definition ge_pow2 (N D k : Z) : bool :=
  if 0 <=? k then D * 2 ^ k <=? N else D <=? N * 2 ^ (- k).

(** The [l] with [2^l <= N / D < 2^(l+1)]. *)
Definition ilog2 (N D : Z) : Z :=
  let l := Z.log2 N - Z.log2 D in
  if ge_pow2 N D l then l else l - 1.

(** [num / den] rounded to the nearest integer, to the even one on a tie. *)
Definition round_div (num den : Z) : Z :=
  let q := num / den in
  let r := num mod den in
  if (den <? 2 * r) || ((2 * r =? den) && Z.odd q) then q + 1 else q.

Definition round_ratio (neg : bool) (N D : Z) : pyfloat :=
  if N <=? 0 then FFinite neg 0 (-1074)
  else
    let e := Z.max (ilog2 N D - 52) (-1074) in
    let q := if 0 <=? e then round_div N (D * 2 ^ e) else round_div (N * 2 ^ (- e)) D in
    let e' := if q =? 2 ^ 53 then e + 1 else e in
    let m := if q =? 2 ^ 53 then 2 ^ 52 else q in
    if 971 <? e' then FInf neg else FFinite neg m e'.

(** The float nearest to [d * 10^k]. *)
Definition float_of_decimal (neg : bool) (d k : Z) : pyfloat :=
  if 0 <=? k then round_ratio neg (d * 10 ^ k) 1 else round_ratio neg d (10 ^ (- k)).

(** [float.__repr__] writes the shortest decimal that [float] reads back as
    the same float, and of the decimals of that length the one nearest to
    it (the one with an even last digit on a tie).

    [m * 2^e] written out in full is [X * 10^kx]. *)
Definition exact_decimal (m e : Z) : Z * Z :=
  if 0 <=? e then (m * 2 ^ e, 0) else (m * 5 ^ (- e), e).

(** The decimal of [n] digits for the float [m * 2^e], whose full decimal
    [X] has [L] digits, if one of the two that enclose it reads back. *)
Definition candidate (neg : bool) (m e X kx L n : Z) : option (Z * Z) :=
  let j := Z.max (L - n) 0 in
  let s := 10 ^ j in
  let lo := X / s in
  let r := X mod s in
  let k := kx + j in
  let same d := pyfloat_eqb (float_of_decimal neg d k) (FFinite neg m e) in
  let ok_lo := same lo in
  let ok_hi := negb (r =? 0) && same (lo + 1) in
  if ok_lo && ok_hi
  then Some (if (2 * r <? s) || ((2 * r =? s) && Z.even lo) then lo else lo + 1, k)
  else if ok_lo then Some (lo, k)
  else if ok_hi then Some (lo + 1, k)
  else None.

Fixpoint first_some {A B : Type} (f : A -> option B) (l : list A) : option B :=
  match l with
  | [] => None
  | x :: r =>
      match f x with
      | Some y => Some y
      | None => first_some f r
      end
  end.

(** Seventeen digits tell every float from its neighbours, so the search
    ends there for a float in canonical form; for a triple that is not in
    canonical form (which no decimal reads back as) the full decimal is
    taken. *)
Definition shortest (neg : bool) (m e : Z) : Z * Z :=
  let (X, kx) := exact_decimal m e in
  let L := Z.of_nat (List.length (chars_of_int X)) in
  match first_some (candidate neg m e X kx L) (map Z.of_nat (seq 1 17)) with
  | Some c => c
  | None => (X, kx)
  end.

Fixpoint drop_zeros (l : list ascii) : list ascii :=
  match l with
  | c :: r => if (c =? "0")%char then drop_zeros r else l
  | [] => []
  end.

(** The digits of [d * 10^k] without trailing zeros, and the position of
    the decimal point counted from the first digit. *)
Definition float_digits (d k : Z) : list ascii * Z :=
  let ds := chars_of_int d in
  (rev (drop_zeros (rev ds)), Z.of_nat (List.length ds) + k).

(** The exponent: a sign and at least two digits. *)
Definition exponent_text (x : Z) : list ascii :=
  let t := chars_of_int (Z.abs x) in
  (if x <? 0 then "-"%char else "+"%char)
  :: (if (List.length t <? 2)%nat then "0"%char :: t else t).

(** Format code [r]: exponent notation when the decimal point is more than
    16 places after the first digit or more than 4 places before it; a
    float without fraction is given the fraction [.0]. *)
Definition format_repr (ds : list ascii) (decpt : Z) : list ascii :=
  let nd := Z.of_nat (List.length ds) in
  if (decpt <=? -4) || (16 <? decpt) then
    match ds with
    | d0 :: rest =>
        d0 :: match rest with [] => [] | _ :: _ => "."%char :: rest end
           ++ "e"%char :: exponent_text (decpt - 1)
    | [] => []
    end
  else if decpt <=? 0 then
    "0"%char :: "."%char :: repeat "0"%char (Z.to_nat (- decpt)) ++ ds
  else if nd <=? decpt then
    ds ++ repeat "0"%char (Z.to_nat (decpt - nd)) ++ chars ".0"
  else firstn (Z.to_nat decpt) ds ++ "."%char :: skipn (Z.to_nat decpt) ds.

Definition float_repr (f : pyfloat) : list ascii :=
  match f with
  | FNaN => chars "nan"
  | FInf neg => if neg then chars "-inf" else chars "inf"
  | FFinite neg m e =>
      (if neg then ["-"%char] else []) ++
      if m <=? 0 then chars "0.0"
      else let (d, k) := shortest neg m e in
           let (ds, decpt) := float_digits d k in
           format_repr ds decpt
  end.

(** [floatstr] of [json.encoder], with [allow_nan=True]. *)
Definition floatstr (f : pyfloat) : list ascii :=
  match f with
  | FNaN => chars "NaN"
  | FInf neg => if neg then chars "-Infinity" else chars "Infinity"
  | FFinite _ _ _ => float_repr f
  end.

(** The text of a dict key: [str] as it is, [float], [int], [bool] and
    [None] through their JSON spelling; anything else is a [TypeError]. *)
Definition key_text (k : pyval) : result (list ascii) :=
  match k with
  | PStr s => Ok (chars s)
  | PBool true => Ok (chars "true")
  | PBool false => Ok (chars "false")
  | PNone => Ok (chars "null")
  | PInt n => Ok (chars_of_int n)
  | PFloat f => Ok (floatstr f)
  | _ => Raise TypeError
  end.

(** [', '.join]. *)
Fixpoint join (ts : list (list ascii)) : list ascii :=
  match ts with
  | [] => []
  | [t] => t
  | t :: r => t ++ ","%char :: " "%char :: join r
  end.

Fixpoint dumps (v : pyval) : result (list ascii) :=
  match v with
  | PNone => Ok (chars "null")
  | PBool true => Ok (chars "true")
  | PBool false => Ok (chars "false")
  | PInt n => Ok (chars_of_int n)
  | PFloat f => Ok (floatstr f)
  | PStr s => Ok (quote (chars s))
  | PList l => ts <- mapM dumps l ;; Ok ("["%char :: join ts ++ ["]"%char])
  | PTuple l => ts <- mapM dumps l ;; Ok ("["%char :: join ts ++ ["]"%char])
  | PDict d =>
      ts <- mapM (fun kv =>
                    k <- key_text (fst kv) ;;
                    t <- dumps (snd kv) ;;
                    Ok (quote k ++ ":"%char :: " "%char :: t)) d ;;
      Ok ("{"%char :: join ts ++ ["}"%char])
  end.

Definition json_dumps (v : pyval) : result string :=
  t <- dumps v ;; Ok (string_of_list_ascii t).

(** ** [json.loads]

    The decoder follows [json.decoder] and [json.scanner]: [scanstring] for
    string bodies, [NUMBER_RE] for numbers, [JSONArray] and [JSONObject] for
    containers, whitespace skipped where the library skips it.  Every
    failure of the library is a [JSONDecodeError]. *)

Definition is_ws (c : ascii) : bool :=
  ((c =? " ") || (c =? "009") || (c =? "010") || (c =? "013"))%char.

Fixpoint skip_ws (s : list ascii) : list ascii :=
  match s with
  | c :: r => if is_ws c then skip_ws r else s
  | [] => []
  end.

Definition is_digit (c : ascii) : bool :=
  ((48 <=? N_of_ascii c) && (N_of_ascii c <=? 57))%N.

Definition hex_val (c : ascii) : option N :=
  let n := N_of_ascii c in
  if ((48 <=? n) && (n <=? 57))%N then Some (n - 48)%N
  else if ((97 <=? n) && (n <=? 102))%N then Some (n - 87)%N
  else if ((65 <=? n) && (n <=? 70))%N then Some (n - 55)%N
  else None.

Definition hex4 (a b c d : ascii) : option N :=
  match hex_val a, hex_val b, hex_val c, hex_val d with
  | Some x, Some y, Some z, Some w => Some (((x * 16 + y) * 16 + z) * 16 + w)%N
  | _, _, _, _ => None
  end.

(** The UTF-8 bytes of a code point ([chr(uni)] as SQLite would store it). *)
Definition utf8_encode (cp : N) : list ascii :=
  (if cp <? 128 then [ascii_of_N cp]
   else if cp <? 2048 then
     [ascii_of_N (192 + cp / 64); ascii_of_N (128 + cp mod 64)]
   else if cp <? 65536 then
     [ascii_of_N (224 + cp / 4096); ascii_of_N (128 + (cp / 64) mod 64);
      ascii_of_N (128 + cp mod 64)]
   else
     [ascii_of_N (240 + cp / 262144); ascii_of_N (128 + (cp / 4096) mod 64);
      ascii_of_N (128 + (cp / 64) mod 64); ascii_of_N (128 + cp mod 64)])%N.

(** [BACKSLASH] of [json.decoder]: the one-letter escapes. *)
Definition unescape (e : ascii) : option ascii :=
  (if e =? DQUOTE then Some DQUOTE
   else if e =? BACKSLASH then Some BACKSLASH
   else if e =? "/" then Some "/"
   else if e =? "b" then Some "008"
   else if e =? "f" then Some "012"
   else if e =? "n" then Some "010"
   else if e =? "r" then Some "013"
   else if e =? "t" then Some "009"
   else None)%char.

Definition is_high_surrogate (u : N) : bool := ((55296 <=? u) && (u <=? 56319))%N.
Definition is_low_surrogate (u : N) : bool := ((56320 <=? u) && (u <=? 57343))%N.

(** The characters decoded so far, put in front of what the rest of the
    string body decodes to. *)
Definition continue_with (prefix : list ascii) (r : option (list ascii * list ascii))
  : option (list ascii * list ascii) :=
  match r with
  | Some (body, rest) => Some (prefix ++ body, rest)
  | None => None
  end.

(** [scanstring(s, end, strict=True)], entered after the opening quote:
    the decoded body and the text after the closing quote. *)
Fixpoint scanstring (s : list ascii) : option (list ascii * list ascii) :=
  match s with
  | [] => None
  | c :: r =>
      if (c =? DQUOTE)%char then Some ([], r)
      else if (c =? BACKSLASH)%char then
        match r with
        | [] => None
        | e :: r1 =>
            if (e =? "u")%char then
              match r1 with
              | h1 :: h2 :: h3 :: h4 :: r2 =>
                  match hex4 h1 h2 h3 h4 with
                  | None => None
                  | Some u =>
                      let single := continue_with (utf8_encode u) (scanstring r2) in
                      if is_high_surrogate u then
                        match r2 with
                        | b :: e2 :: r3 =>
                            if (b =? BACKSLASH)%char && (e2 =? "u")%char then
                              match r3 with
                              | g1 :: g2 :: g3 :: g4 :: r4 =>
                                  match hex4 g1 g2 g3 g4 with
                                  | None => None
                                  | Some u2 =>
                                      if is_low_surrogate u2
                                      then continue_with
                                             (utf8_encode
                                                (65536 + (u - 55296) * 1024 + (u2 - 56320))%N)
                                             (scanstring r4)
                                      else single
                                  end
                              | _ => None
                              end
                            else single
                        | _ => single
                        end
                      else single
                  end
              | _ => None
              end
            else
              match unescape e with
              | Some c' => continue_with [c'] (scanstring r1)
              | None => None
              end
        end
      else if (N_of_ascii c <? 32)%N then None
      else continue_with [c] (scanstring r)
  end.

Fixpoint span_digits (s : list ascii) : list ascii * list ascii :=
  match s with
  | c :: r =>
      if is_digit c then let (ds, rest) := span_digits r in (c :: ds, rest)
      else ([], s)
  | [] => ([], [])
  end.

Definition digit_of_char (c : ascii) (u : Decimal.uint) : Decimal.uint :=
  (if c =? "0" then Decimal.D0 u
   else if c =? "1" then Decimal.D1 u
   else if c =? "2" then Decimal.D2 u
   else if c =? "3" then Decimal.D3 u
   else if c =? "4" then Decimal.D4 u
   else if c =? "5" then Decimal.D5 u
   else if c =? "6" then Decimal.D6 u
   else if c =? "7" then Decimal.D7 u
   else if c =? "8" then Decimal.D8 u
   else Decimal.D9 u)%char.

Fixpoint uint_of_chars (ds : list ascii) : Decimal.uint :=
  match ds with
  | [] => Decimal.Nil
  | c :: r => digit_of_char c (uint_of_chars r)
  end.

(** The optional groups of [NUMBER_RE]: a fraction [\.[0-9]+] and an
    exponent [[eE][-+]?[0-9]+]. *)
Definition has_frac (s : list ascii) : bool :=
  match s with
  | c :: d :: _ => (c =? ".")%char && is_digit d
  | _ => false
  end.

Definition has_exp (s : list ascii) : bool :=
  match s with
  | e :: r =>
      ((e =? "e") || (e =? "E"))%char &&
      match r with
      | d :: r' =>
          is_digit d ||
          (((d =? "+") || (d =? "-"))%char &&
           match r' with
           | d' :: _ => is_digit d'
           | [] => false
           end)
      | [] => false
      end
  | [] => false
  end.

(** The integer part of [NUMBER_RE]: an optional minus sign, then either a
    single zero or a non-zero digit followed by any digits.  Returns the
    sign, the digits and the text after them. *)
Definition match_integer (s : list ascii) : option (bool * list ascii * list ascii) :=
  let neg := match s with c :: _ => (c =? "-")%char | [] => false end in
  let s1 := if neg then tl s else s in
  match s1 with
  | c :: r =>
      if (c =? "0")%char then Some (neg, [c], r)
      else if is_digit c then let (ds, rest) := span_digits r in Some (neg, c :: ds, rest)
      else None
  | [] => None
  end.

Fixpoint starts_with (p s : list ascii) : bool :=
  match p, s with
  | [], _ => true
  | a :: p', b :: s' => (a =? b)%char && starts_with p' s'
  | _ :: _, [] => false
  end.

(** The fraction [\.[0-9]+] and the exponent [[eE][-+]?[0-9]+] of
    [NUMBER_RE], when they are there: the digits of the fraction, the
    exponent, and the text after them. *)
Definition scan_frac (s : list ascii) : list ascii * list ascii :=
  if has_frac s then span_digits (tl s) else ([], s).

Definition digit_value (c : ascii) : Z := Z.of_N (N_of_ascii c) - 48.

Definition decimal_value (ds : list ascii) : Z :=
  fold_left (fun acc c => 10 * acc + digit_value c) ds 0.

Definition scan_exp (s : list ascii) : Z * list ascii :=
  if has_exp s then
    match tl s with
    | c :: r =>
        if is_digit c then
          let (ds, rest) := span_digits (c :: r) in (decimal_value ds, rest)
        else
          let (ds, rest) := span_digits r in
          ((if (c =? "-")%char then - decimal_value ds else decimal_value ds), rest)
    | [] => (0, s)
    end
  else (0, s).

(** [float(integer + frac + exp)]. *)
Definition float_of_literal (neg : bool) (ds fs : list ascii) (x : Z) : pyfloat :=
  float_of_decimal neg (decimal_value (ds ++ fs)) (x - Z.of_nat (List.length fs)).

(** A number at the head of [s]: a [float] when it has a fraction or an
    exponent, an [int] otherwise.  Python's [int] has no upper bound; the
    interpreter's optional limit on the length of decimal conversions is
    not described. *)
Definition scan_number (s : list ascii) : result (pyval * list ascii) :=
  match match_integer s with
  | Some (neg, ds, rest) =>
      if has_frac rest || has_exp rest then
        let (fs, rest1) := scan_frac rest in
        let (x, rest2) := scan_exp rest1 in
        Ok (PFloat (float_of_literal neg ds fs x), rest2)
      else
        let n := Z.of_uint (uint_of_chars ds) in
        Ok (PInt (if neg then - n else n), rest)
  | None =>
      if starts_with (chars "NaN") s then Ok (PFloat FNaN, skipn 3 s)
      else if starts_with (chars "Infinity") s then Ok (PFloat (FInf false), skipn 8 s)
      else if starts_with (chars "-Infinity") s then Ok (PFloat (FInf true), skipn 9 s)
      else Raise JSONDecodeError
  end.

(** [dict(pairs)]: a later pair with a key already present replaces the
    value and keeps the key's position. *)
Fixpoint dict_set (d : list (string * pyval)) (k : string) (v : pyval)
  : list (string * pyval) :=
  match d with
  | [] => [(k, v)]
  | (k', v') :: d' =>
      if (k' =? k)%string then (k', v) :: d' else (k', v') :: dict_set d' k v
  end.

Definition dict_of_pairs (pairs : list (string * pyval)) : pyval :=
  PDict (map (fun kv => (PStr (fst kv), snd kv))
             (fold_left (fun d kv => dict_set d (fst kv) (snd kv)) pairs [])).

(** [scan_once], [JSONArray] and [JSONObject].  [parse_value] is entered at
    the first character of a value; [parse_elements] at the first element of
    a non-empty array; [parse_members] after the opening quote of a key. *)
Fixpoint parse_value (fuel : nat) (s : list ascii) {struct fuel}
  : result (pyval * list ascii) :=
  match fuel with
  | O => Raise Fuel
  | S fuel =>
      match s with
      | [] => Raise JSONDecodeError
      | c :: r =>
          if (c =? DQUOTE)%char then
            match scanstring r with
            | Some (body, rest) => Ok (PStr (string_of_list_ascii body), rest)
            | None => Raise JSONDecodeError
            end
          else if (c =? "{")%char then
            match skip_ws r with
            | c1 :: r1 =>
                if (c1 =? "}")%char then Ok (PDict [], r1)
                else if (c1 =? DQUOTE)%char then
                  ' (pairs, rest) <- parse_members fuel r1 ;;
                  Ok (dict_of_pairs pairs, rest)
                else Raise JSONDecodeError
            | [] => Raise JSONDecodeError
            end
          else if (c =? "[")%char then
            match skip_ws r with
            | c1 :: r1 =>
                if (c1 =? "]")%char then Ok (PList [], r1)
                else
                  ' (items, rest) <- parse_elements fuel (c1 :: r1) ;;
                  Ok (PList items, rest)
            | [] => Raise JSONDecodeError
            end
          else if starts_with (chars "null") s then Ok (PNone, skipn 4 s)
          else if starts_with (chars "true") s then Ok (PBool true, skipn 4 s)
          else if starts_with (chars "false") s then Ok (PBool false, skipn 5 s)
          else scan_number s
      end
  end

with parse_elements (fuel : nat) (s : list ascii) {struct fuel}
  : result (list pyval * list ascii) :=
  match fuel with
  | O => Raise Fuel
  | S fuel =>
      ' (v, rest) <- parse_value fuel s ;;
      match skip_ws rest with
      | c :: r =>
          if (c =? "]")%char then Ok ([v], r)
          else if (c =? ",")%char then
            ' (vs, rest') <- parse_elements fuel (skip_ws r) ;;
            Ok (v :: vs, rest')
          else Raise JSONDecodeError
      | [] => Raise JSONDecodeError
      end
  end

with parse_members (fuel : nat) (s : list ascii) {struct fuel}
  : result (list (string * pyval) * list ascii) :=
  match fuel with
  | O => Raise Fuel
  | S fuel =>
      match scanstring s with
      | None => Raise JSONDecodeError
      | Some (key, rest) =>
          match skip_ws rest with
          | c :: r =>
              if (c =? ":")%char then
                ' (v, rest1) <- parse_value fuel (skip_ws r) ;;
                let kv := (string_of_list_ascii key, v) in
                match skip_ws rest1 with
                | c1 :: r1 =>
                    if (c1 =? "}")%char then Ok ([kv], r1)
                    else if (c1 =? ",")%char then
                      match skip_ws r1 with
                      | c2 :: r2 =>
                          if (c2 =? DQUOTE)%char then
                            ' (kvs, rest2) <- parse_members fuel r2 ;;
                            Ok (kv :: kvs, rest2)
                          else Raise JSONDecodeError
                      | [] => Raise JSONDecodeError
                      end
                    else Raise JSONDecodeError
                | [] => Raise JSONDecodeError
                end
              else Raise JSONDecodeError
          | [] => Raise JSONDecodeError
          end
      end
  end.

(** [json.loads(s)]: leading whitespace, one value, trailing whitespace and
    nothing else. The budget covers two steps for each character of the
    text, which is what a text of nested brackets asks for. *)
Definition json_loads (s : string) : result pyval :=
  let cs := chars s in
  ' (v, rest) <- parse_value (2 * List.length cs + 2) (skip_ws cs) ;;
  match skip_ws rest with
  | [] => Ok v
  | _ :: _ => Raise JSONDecodeError
  end.

(** ** The schema: the three tables [init_database] creates and the
    functions use.  A column declared [NOT NULL] is a [string], a nullable
    one an [option string]. *)

Module Policy.
Record row : Type := {
  id : Z;
  title : string;
  category : string;
  target_audience : string;
  description : option string;
  status : option string;
  created_at : string;
  updated_at : string
}.
End Policy.

Module Content.
Record row : Type := {
  id : Z;
  policy_id : Z;
  content_type : string;
  content_data : string;        (* JSON text *)
  metadata : option string;     (* JSON text *)
  created_at : string
}.

(** What [get_policy_contents] hands back: the row with both JSON columns
    decoded. *)
Record decoded : Type := {
  raw : row;
  data : pyval;
  meta : pyval
}.
End Content.

Module Media.
Record row : Type := {
  id : Z;
  policy_id : Z;
  media_type : string;
  media_url : option string;
  media_data : option (list Byte.byte);
  prompt : option string;
  generation_params : option string;   (* JSON text *)
  created_at : string
}.

Record decoded : Type := {
  raw : row;
  params : pyval
}.
End Media.

(** A table is the list of its rows in rowid order, which is the order a
    scan visits them in; its [AUTOINCREMENT] counter is the entry SQLite
    keeps for it in [sqlite_sequence]. *)
Record database : Type := {
  policies : list Policy.row;
  policies_seq : Z;
  policy_contents : list Content.row;
  policy_contents_seq : Z;
  generated_media : list Media.row;
  generated_media_seq : Z
}.

(** The database right after [init_database] on a fresh file. *)
Definition init_database : database :=
  {| policies := []; policies_seq := 0;
     policy_contents := []; policy_contents_seq := 0;
     generated_media := []; generated_media_seq := 0 |}.

(** ** The SQL the functions use *)

Definition max_rowid (ids : list Z) : Z := fold_right Z.max 0 ids.

(** [INTEGER PRIMARY KEY AUTOINCREMENT]: one more than the largest rowid the
    table has ever held. *)
Definition next_rowid (seq : Z) (ids : list Z) : Z := Z.max seq (max_rowid ids) + 1.

(** [ORDER BY key DESC] over TEXT keys.  Rows with equal keys stay in scan
    order. *)
Section OrderBy.
Context {A : Type} (key : A -> string).

Fixpoint insert_desc (x : A) (l : list A) : list A :=
  match l with
  | [] => [x]
  | y :: l' =>
      if String.ltb (key x) (key y) then y :: insert_desc x l' else x :: l
  end.

Definition order_by_desc (l : list A) : list A := fold_right insert_desc [] l.
End OrderBy.

(** [LIMIT n]: a negative [n] means no limit. *)
Definition sql_limit {A : Type} (n : Z) (l : list A) : list A :=
  if n <? 0 then l else firstn (Z.to_nat n) l.

(** [x = y] and [x BETWEEN lo AND hi] in a [WHERE] clause: a NULL operand
    makes the test fail. *)
Definition sql_eq (x y : option string) : bool :=
  match x, y with
  | Some a, Some b => (a =? b)%string
  | _, _ => false
  end.

Definition sql_between (x lo hi : option string) : bool :=
  match x, lo, hi with
  | Some a, Some l, Some h => String.leb l a && String.leb a h
  | _, _, _ => false
  end.

(** ** SQLite's [date()] on ISO-8601 text

    [date(x)] is described for the texts this program hands to it: a
    calendar date [YYYY-MM-DD], alone (what [strftime("%Y-%m-%d")] gives) or
    followed by [T] or blanks and a time [HH:MM], [HH:MM:SS] or
    [HH:MM:SS.f...] (what [datetime.isoformat()] gives).  The answer is the
    date part.  The other forms SQLite accepts (a time alone, [now], a
    julian day number, a time zone suffix, a negative year, a day the month
    does not have) are not described: [sqlite_date] is [None] there, as it is
    on text SQLite rejects. *)

Definition two_digits (a b : ascii) : option Z :=
  if is_digit a && is_digit b
  then Some (10 * (Z.of_N (N_of_ascii a) - 48) + (Z.of_N (N_of_ascii b) - 48))
  else None.

Definition leap_year (y : Z) : bool :=
  ((y mod 4 =? 0) && negb (y mod 100 =? 0)) || (y mod 400 =? 0).

Definition days_in_month (y m : Z) : Z :=
  if m =? 2 then (if leap_year y then 29 else 28)
  else if (m =? 4) || (m =? 6) || (m =? 9) || (m =? 11) then 30
  else 31.

(** Year, month and day of a text that starts with a calendar date, and the
    text after the date. *)
Definition parse_ymd (s : list ascii) : option (Z * Z * Z * list ascii) :=
  match s with
  | y1 :: y2 :: y3 :: y4 :: c1 :: m1 :: m2 :: c2 :: d1 :: d2 :: rest =>
      match two_digits y1 y2, two_digits y3 y4, two_digits m1 m2, two_digits d1 d2 with
      | Some yh, Some yl, Some m, Some d =>
          let y := 100 * yh + yl in
          if (c1 =? "-")%char && (c2 =? "-")%char
             && (1 <=? m) && (m <=? 12) && (1 <=? d) && (d <=? days_in_month y m)
          then Some (y, m, d, rest)
          else None
      | _, _, _, _ => None
      end
  | _ => None
  end.

Definition is_space (c : ascii) : bool :=
  let n := N_of_ascii c in ((n =? 32) || ((9 <=? n) && (n <=? 13)))%N.

Fixpoint skip_date_sep (s : list ascii) : list ascii :=
  match s with
  | c :: r => if is_space c || (c =? "T")%char then skip_date_sep r else s
  | [] => []
  end.

Definition in_range (x : option Z) (hi : Z) : bool :=
  match x with
  | Some v => v <=? hi
  | None => false
  end.

(** [HH:MM[:SS[.f...]]] followed by blanks only. *)
Definition time_ok (s : list ascii) : bool :=
  match s with
  | h1 :: h2 :: c :: m1 :: m2 :: r =>
      in_range (two_digits h1 h2) 24 && (c =? ":")%char && in_range (two_digits m1 m2) 59 &&
      match r with
      | c2 :: s1 :: s2 :: r' =>
          if (c2 =? ":")%char then
            in_range (two_digits s1 s2) 59 &&
            match r' with
            | dot :: d :: r'' =>
                if (dot =? ".")%char && is_digit d
                then forallb is_space (snd (span_digits r''))
                else forallb is_space r'
            | _ => forallb is_space r'
            end
          else forallb is_space r
      | _ => forallb is_space r
      end
  | _ => false
  end.

Definition sqlite_date (x : string) : option string :=
  match parse_ymd (chars x) with
  | Some (_, _, _, rest) =>
      let rest := skip_date_sep rest in
      if match rest with [] => true | _ :: _ => time_ok rest end
      then Some (string_of_list_ascii (firstn 10 (chars x)))
      else None
  | None => None
  end.

(** A text that is exactly one calendar date [YYYY-MM-DD], and the date it
    names. *)
Definition iso_date (x : string) : option (Z * Z * Z) :=
  match parse_ymd (chars x) with
  | Some (y, m, d, []) => Some (y, m, d)
  | _ => None
  end.

(** [a < b] on dates, as [datetime.date] compares them. *)
Definition date_ltb (a b : Z * Z * Z) : bool :=
  let '(y1, m1, d1) := a in
  let '(y2, m2, d2) := b in
  (y1 <? y2) || ((y1 =? y2) && ((m1 <? m2) || ((m1 =? m2) && (d1 <? d2)))).

(** ** The functions of [app.py]

    [db] is the database the call finds, [now] the reading of
    [datetime.now().isoformat()] the call takes. *)

Definition create_policy (db : database) (now : string)
    (title category target_audience description : string) : database * Z :=
  let rowid := next_rowid (policies_seq db) (map Policy.id (policies db)) in
  let row := {| Policy.id := rowid;
                Policy.title := title;
                Policy.category := category;
                Policy.target_audience := target_audience;
                Policy.description := Some description;
                Policy.status := Some "draft";
                Policy.created_at := now;
                Policy.updated_at := now |} in
  ({| policies := policies db ++ [row];
      policies_seq := rowid;
      policy_contents := policy_contents db;
      policy_contents_seq := policy_contents_seq db;
      generated_media := generated_media db;
      generated_media_seq := generated_media_seq db |},
   rowid).

(** [UPDATE policies SET status = ?, updated_at = ? WHERE id = ?] on one
    row. *)
Definition set_status (policy_id : Z) (status now : string) (r : Policy.row)
  : Policy.row :=
  if Policy.id r =? policy_id then
    {| Policy.id := Policy.id r;
       Policy.title := Policy.title r;
       Policy.category := Policy.category r;
       Policy.target_audience := Policy.target_audience r;
       Policy.description := Policy.description r;
       Policy.status := Some status;
       Policy.created_at := Policy.created_at r;
       Policy.updated_at := now |}
  else r.

Definition update_policy_status (db : database) (now : string)
    (policy_id : Z) (status : string) : database :=
  {| policies := map (set_status policy_id status now) (policies db);
     policies_seq := policies_seq db;
     policy_contents := policy_contents db;
     policy_contents_seq := policy_contents_seq db;
     generated_media := generated_media db;
     generated_media_seq := generated_media_seq db |}.

(** [metadata] is the Python value passed, [PNone] when it is omitted. *)
Definition save_policy_content (db : database) (now : string)
    (policy_id : Z) (content_type : string) (content_data metadata : pyval)
  : result database :=
  data_text <- json_dumps content_data ;;
  meta_text <- json_dumps (py_or metadata (PDict [])) ;;
  let rowid := next_rowid (policy_contents_seq db) (map Content.id (policy_contents db)) in
  let row := {| Content.id := rowid;
                Content.policy_id := policy_id;
                Content.content_type := content_type;
                Content.content_data := data_text;
                Content.metadata := Some meta_text;
                Content.created_at := now |} in
  Ok {| policies := policies db;
        policies_seq := policies_seq db;
        policy_contents := policy_contents db ++ [row];
        policy_contents_seq := rowid;
        generated_media := generated_media db;
        generated_media_seq := generated_media_seq db |}.

Definition save_generated_media (db : database) (now : string)
    (policy_id : Z) (media_type : string) (media_data : list Byte.byte)
    (prompt : string) (params : pyval) : result database :=
  params_text <- json_dumps params ;;
  let rowid := next_rowid (generated_media_seq db) (map Media.id (generated_media db)) in
  let row := {| Media.id := rowid;
                Media.policy_id := policy_id;
                Media.media_type := media_type;
                Media.media_url := None;
                Media.media_data := Some media_data;
                Media.prompt := Some prompt;
                Media.generation_params := Some params_text;
                Media.created_at := now |} in
  Ok {| policies := policies db;
        policies_seq := policies_seq db;
        policy_contents := policy_contents db;
        policy_contents_seq := policy_contents_seq db;
        generated_media := generated_media db ++ [row];
        generated_media_seq := rowid |}.

Definition get_policy (db : database) (policy_id : Z) : option Policy.row :=
  find (fun r => Policy.id r =? policy_id) (policies db).

Definition get_all_policies (db : database) (limit : Z) : list Policy.row :=
  sql_limit limit (order_by_desc Policy.created_at (policies db)).

(** The body of the loop of [get_policy_contents]. *)
Definition decode_content (row : Content.row) : result Content.decoded :=
  data <- json_loads (Content.content_data row) ;;
  meta <- (if truthy_text (Content.metadata row)
           then json_loads (match Content.metadata row with Some t => t | None => "" end)
           else Ok (PDict [])) ;;
  Ok {| Content.raw := row; Content.data := data; Content.meta := meta |}.

Definition get_policy_contents (db : database) (policy_id : Z)
  : result (list Content.decoded) :=
  let rows := order_by_desc Content.created_at
                (filter (fun r => Content.policy_id r =? policy_id) (policy_contents db)) in
  mapM decode_content rows.

Definition decode_media (row : Media.row) : result Media.decoded :=
  params <- (if truthy_text (Media.generation_params row)
             then json_loads (match Media.generation_params row with
                              | Some t => t
                              | None => ""
                              end)
             else Ok (PDict [])) ;;
  Ok {| Media.raw := row; Media.params := params |}.

(** [media_type] is [None] when the argument is omitted or [None]. *)
Definition get_generated_media (db : database) (policy_id : Z)
    (media_type : option string) : result (list Media.decoded) :=
  let rows :=
    if truthy_text media_type then
      order_by_desc Media.created_at
        (filter (fun r => (Media.policy_id r =? policy_id)
                          && sql_eq (Some (Media.media_type r)) media_type)
                (generated_media db))
    else
      order_by_desc Media.created_at
        (filter (fun r => Media.policy_id r =? policy_id) (generated_media db)) in
  mapM decode_media rows.

Definition get_policies_by_date (db : database) (date_str : string)
  : list Policy.row :=
  order_by_desc Policy.created_at
    (filter (fun r => sql_eq (sqlite_date (Policy.created_at r)) (sqlite_date date_str))
            (policies db)).

Definition get_policies_by_date_range (db : database) (start_date end_date : string)
  : list Policy.row :=
  order_by_desc Policy.created_at
    (filter (fun r => sql_between (sqlite_date (Policy.created_at r))
                                  (sqlite_date start_date) (sqlite_date end_date))
            (policies db)).

(** ** [parse_json_response]

    A text is held as its UTF-8 bytes, so a code point [str.isspace]
    accepts is one, two or three bytes long. *)

Definition space1 (a : ascii) : bool :=
  let n := N_of_ascii a in
  (((9 <=? n) && (n <=? 13)) || ((28 <=? n) && (n <=? 32)))%N.

Definition space2 (a b : ascii) : bool :=
  ((N_of_ascii a =? 194) && ((N_of_ascii b =? 133) || (N_of_ascii b =? 160)))%N.

Definition space3 (a b c : ascii) : bool :=
  let x := N_of_ascii a in
  let y := N_of_ascii b in
  let z := N_of_ascii c in
  (((x =? 225) && (y =? 154) && (z =? 128))
   || ((x =? 226) && (y =? 128)
       && (((128 <=? z) && (z <=? 138)) || (z =? 168) || (z =? 169) || (z =? 175)))
   || ((x =? 226) && (y =? 129) && (z =? 159))
   || ((x =? 227) && (y =? 128) && (z =? 128)))%N.

(** The number of bytes of the whitespace code point [s] starts with, 0
    when it starts with none. *)
Definition space_width (s : list ascii) : nat :=
  match s with
  | a :: r =>
      if space1 a then 1
      else match r with
           | b :: r' =>
               if space2 a b then 2
               else match r' with
                    | c :: _ => if space3 a b c then 3 else 0
                    | [] => 0
                    end
           | [] => 0
           end
  | [] => 0
  end%nat.

(** The same for the code point a text ends with, the text given last byte
    first. *)
Definition space_width_back (s : list ascii) : nat :=
  match s with
  | c :: r =>
      if space1 c then 1
      else match r with
           | b :: r' =>
               if space2 b c then 2
               else match r' with
                    | a :: _ => if space3 a b c then 3 else 0
                    | [] => 0
                    end
           | [] => 0
           end
  | [] => 0
  end%nat.

(** Drops whitespace code points from the head of [s]; [skip] counts the
    bytes of the current code point that are still to be dropped. *)
Fixpoint drop_spaces (width : list ascii -> nat) (skip : nat) (s : list ascii)
  : list ascii :=
  match s with
  | [] => []
  | _ :: r =>
      match skip with
      | S k => drop_spaces width k r
      | O =>
          match width s with
          | O => s
          | S k => drop_spaces width k r
          end
      end
  end.

(** [s.strip()]. *)
Definition strip (s : list ascii) : list ascii :=
  rev (drop_spaces space_width_back 0 (rev (drop_spaces space_width 0 s))).

(** [s.replace(old, new)] for a non-empty [old]: the occurrences of [old]
    are found from the left and do not overlap; [skip] counts the
    characters of the current occurrence that are still to be passed. *)
Fixpoint replace_from (old new : list ascii) (skip : nat) (s : list ascii)
  : list ascii :=
  match s with
  | [] => []
  | c :: r =>
      match skip with
      | S k => replace_from old new k r
      | O =>
          if starts_with old s
          then new ++ replace_from old new (List.length old - 1) r
          else c :: replace_from old new 0 r
      end
  end.

Definition str_replace (old new s : list ascii) : list ascii :=
  replace_from old new 0 s.

(** The text [parse_json_response] hands to [json.loads]. *)
Definition unfence (text : list ascii) : list ascii :=
  let t := strip text in
  if starts_with (chars "```") t
  then strip (str_replace (chars "```") [] (str_replace (chars "```json") [] t))
  else t.

(** The bare [except] turns every exception of [json.loads] into
    [None]. *)
Definition parse_json_response (text : string) : result pyval :=
  match json_loads (string_of_list_ascii (unfence (chars text))) with
  | Ok v => Ok v
  | Raise Fuel => Raise Fuel
  | Raise _ => Ok PNone
  end.

(** ** The session state

    [st.session_state] is a dict from names to Python objects; the
    functions below store objects and never look into them, so the objects
    are any type [V], with [py] placing the values written in the source
    into it. *)

Definition session (V : Type) : Type := list (string * V).

(** [key in st.session_state] and [st.session_state.get(key)]. *)
Definition session_has {V : Type} (st : session V) (key : string) : bool :=
  existsb (fun kv => (fst kv =? key)%string) st.

Definition session_get {V : Type} (st : session V) (key : string) : option V :=
  option_map snd (find (fun kv => (fst kv =? key)%string) st).

(** [st.session_state[key] = v]. *)
Fixpoint session_set {V : Type} (st : session V) (key : string) (v : V) : session V :=
  match st with
  | [] => [(key, v)]
  | (k, x) :: st' =>
      if (k =? key)%string then (k, v) :: st' else (k, x) :: session_set st' key v
  end.

(** [old in s] for two texts. *)
Fixpoint contains (old s : list ascii) : bool :=
  starts_with old s ||
  match s with
  | [] => false
  | _ :: r => contains old r
  end.

(** The dict [defaults] of [init_session_state]. *)
Definition defaults : list (string * pyval) :=
  [("current_policy_id", PNone);
   ("current_analysis", PNone);
   ("generated_images", PList []);
   ("video_prompts_3styles", PList []);
   ("workflow_step", PStr "기획");
   ("show_results", PBool false);
   ("selected_category", PStr "");
   ("temp_selection", PStr "")].

Section SessionState.
Context {V : Type} (py : pyval -> V).

Definition set_default (st : session V) (kv : string * pyval) : session V :=
  if session_has st (fst kv) then st else session_set st (fst kv) (py (snd kv)).

Definition init_session_state (st : session V) : session V :=
  fold_left set_default defaults st.

(** The value the handler of the button that starts a new policy stores
    under [key]. *)
Definition cleared (key : string) : pyval :=
  let k := chars key in
  if contains (chars "images") k || contains (chars "prompts") k then PList []
  else if contains (chars "category") k || contains (chars "selection") k then PStr ""
  else PNone.

(** The handler of the button that starts a new policy. *)
Definition start_new_policy (st : session V) : session V :=
  let st := fold_left (fun st key => session_set st key (py (cleared key)))
              ["current_policy_id"; "current_analysis"; "generated_images";
               "video_prompts_3styles"; "selected_category"; "temp_selection"]%string st in
  let st := session_set st "workflow_step" (py (PStr "기획")) in
  session_set st "show_results" (py (PBool false)).
End SessionState.

(** ** Histories of writes

    The calls that change the database, and a run of them from a given
    database.  A call that raises commits nothing. *)

Inductive call : Type :=
| CreatePolicy (now title category target_audience description : string)
| UpdatePolicyStatus (now : string) (policy_id : Z) (status : string)
| SavePolicyContent (now : string) (policy_id : Z) (content_type : string)
    (content_data metadata : pyval)
| SaveGeneratedMedia (now : string) (policy_id : Z) (media_type : string)
    (media_data : list Byte.byte) (prompt : string) (params : pyval).

(** The database after the call and the identifier it returned, if it is a
    [create_policy]. *)
Definition step (db : database) (c : call) : database * option Z :=
  match c with
  | CreatePolicy now title category target_audience description =>
      let (db', rowid) := create_policy db now title category target_audience description in
      (db', Some rowid)
  | UpdatePolicyStatus now policy_id status =>
      (update_policy_status db now policy_id status, None)
  | SavePolicyContent now policy_id content_type content_data metadata =>
      match save_policy_content db now policy_id content_type content_data metadata with
      | Ok db' => (db', None)
      | Raise _ => (db, None)
      end
  | SaveGeneratedMedia now policy_id media_type media_data prompt params =>
      match save_generated_media db now policy_id media_type media_data prompt params with
      | Ok db' => (db', None)
      | Raise _ => (db, None)
      end
  end.

(** The database after the calls, and the identifiers [create_policy]
    returned along the way. *)
Fixpoint run (db : database) (cs : list call) : database * list Z :=
  match cs with
  | [] => (db, [])
  | c :: cs' =>
      let (db1, r) := step db c in
      let (db2, ids) := run db1 cs' in
      (db2, match r with Some i => i :: ids | None => ids end)
  end.

(** ** The values JSON holds natively

    [None], booleans, integers, floats, strings, lists, and dicts whose keys
    are pairwise distinct strings.  Every float Python has is in canonical
    form ([float_ok]); a triple that is not stands for no float. *)

Definition key_string (k : pyval) : option string :=
  match k with
  | PStr s => Some s
  | _ => None
  end.

Fixpoint distinct (l : list string) : bool :=
  match l with
  | [] => true
  | x :: r => negb (existsb (String.eqb x) r) && distinct r
  end.

Definition string_keys (d : list (pyval * pyval)) : option (list string) :=
  fold_right (fun kv acc =>
                match key_string (fst kv), acc with
                | Some s, Some l => Some (s :: l)
                | _, _ => None
                end) (Some []) d.

Fixpoint json_native (v : pyval) : bool :=
  match v with
  | PNone => true
  | PBool _ => true
  | PInt _ => true
  | PFloat f => float_ok f
  | PStr _ => true
  | PList l => forallb json_native l
  | PTuple _ => false
  | PDict d =>
      forallb (fun kv => json_native (snd kv)) d &&
      match string_keys d with
      | Some ks => distinct ks
      | None => false
      end
  end.

(** No float in [v] is [nan]. *)
Fixpoint nan_free (v : pyval) : bool :=
  match v with
  | PFloat f => negb (is_nan f)
  | PList l => forallb nan_free l
  | PTuple l => forallb nan_free l
  | PDict d => forallb (fun kv => nan_free (fst kv) && nan_free (snd kv)) d
  | _ => true
  end.

(** ** The texts SQLite is handed

    A [str] is bound to a statement as its UTF-8 encoding, which exists
    when the [str] holds no surrogate code point: the byte strings that
    stand for such a [str] are the well-formed UTF-8 sequences. *)

Definition in_bytes (lo hi : N) (c : ascii) : bool :=
  ((lo <=? N_of_ascii c) && (N_of_ascii c <=? hi))%N.

Fixpoint utf8_valid (s : list ascii) : bool :=
  match s with
  | [] => true
  | a :: r =>
      if in_bytes 0 127 a then utf8_valid r
      else
        match r with
        | [] => false
        | b :: r2 =>
            if in_bytes 194 223 a then in_bytes 128 191 b && utf8_valid r2
            else
              match r2 with
              | [] => false
              | c :: r3 =>
                  if in_bytes 224 239 a then
                    (if in_bytes 224 224 a then in_bytes 160 191 b
                     else if in_bytes 237 237 a then in_bytes 128 159 b
                     else in_bytes 128 191 b)
                    && in_bytes 128 191 c && utf8_valid r3
                  else
                    match r3 with
                    | [] => false
                    | d :: r4 =>
                        in_bytes 240 244 a
                        && (if in_bytes 240 240 a then in_bytes 144 191 b
                            else if in_bytes 244 244 a then in_bytes 128 143 b
                            else in_bytes 128 191 b)
                        && in_bytes 128 191 c && in_bytes 128 191 d && utf8_valid r4
                    end
              end
        end
  end.

(** Every [str] in [v], the keys of dicts included, can be encoded. *)
Fixpoint text_ok (v : pyval) : bool :=
  match v with
  | PStr s => utf8_valid (chars s)
  | PList l => forallb text_ok l
  | PTuple l => forallb text_ok l
  | PDict d => forallb (fun kv => text_ok (fst kv) && text_ok (snd kv)) d
  | _ => true
  end.

(** The values a round trip through a JSON column keeps: native, without
    [nan] (which equals nothing, itself included), every [str] encodable. *)
Definition storable (v : pyval) : bool := json_native v && nan_free v && text_ok v.

(** ** Notions the statements use *)

(** [l] is in descending order of [key]: no row is followed by one with a
    greater key. *)
Definition sorted_desc {A : Type} (key : A -> string) (l : list A) : Prop :=
  Sorted (fun a b => String.leb (key b) (key a) = true) l.

(** Text order, as SQLite and Python compare timestamps. *)
Definition text_le (a b : string) : Prop := String.leb a b = true.

(** The rows a media listing is asked for. *)
Definition media_of (policy_id : Z) (r : Media.row) : bool :=
  Media.policy_id r =? policy_id.

Definition media_of_type (policy_id : Z) (media_type : string) (r : Media.row) : bool :=
  (Media.policy_id r =? policy_id) && (Media.media_type r =? media_type)%string.

(** Every stored JSON column decodes, and no stored metadata decodes to
    [None]. *)
Definition rows_decode (db : database) : Prop :=
  Forall (fun r => exists d, decode_content r = Ok d /\ Content.meta d <> PNone)
         (policy_contents db) /\
  Forall (fun r => exists d, decode_media r = Ok d) (generated_media db).

(** ** Notions the round trip of [dumps] and [parse_value] uses *)

(** A bound on the recursion budget [parse_value] needs for the text of
    [v]. *)
Fixpoint size (v : pyval) : nat :=
  match v with
  | PList l => S (fold_right (fun x n => S (size x + n)) O l)
  | PTuple l => S (fold_right (fun x n => S (size x + n)) O l)
  | PDict d => S (fold_right (fun kv n => S (size (snd kv) + n)) O d)
  | _ => 1%nat
  end.

Definition elements_size (l : list pyval) : nat :=
  fold_right (fun x n => S (size x + n)) O l.

Definition members_size (d : list (pyval * pyval)) : nat :=
  fold_right (fun kv n => S (size (snd kv) + n)) O d.

(** What may follow the text of a number without being read as part of it:
    the end of the text, or a character that is neither a digit, nor a
    point, nor an exponent mark. *)
Definition number_stop (rest : list ascii) : bool :=
  match rest with
  | [] => true
  | c :: _ => negb (is_digit c || (c =? ".") || (c =? "e") || (c =? "E"))%char
  end.

(** What follows cannot extend a run of digits. *)
Definition digit_stop (rest : list ascii) : bool :=
  match rest with
  | [] => true
  | c :: _ => negb (is_digit c)
  end.

(** The sign [float.__repr__] and [int.__repr__] write. *)
Definition sign_text (neg : bool) : list ascii := if neg then ["-"%char] else [].

(** The characters a JSON value written by [dumps] can start with. *)
Definition value_head (c : ascii) : bool :=
  (is_digit c || (c =? "-") || (c =? DQUOTE) || (c =? "[") || (c =? "{")
   || (c =? "n") || (c =? "t") || (c =? "f") || (c =? "N") || (c =? "I"))%char.

(** The round trip of one value: the decoder, started on the text of [v]
    followed by anything that cannot extend a number, reads a value and
    leaves what followed; the value read is [v] itself when [v] is native,
    and is [None] only when [v] is. *)
Definition decodes_back (v : pyval) : Prop :=
  forall t, dumps v = Ok t ->
  forall fuel rest, (size v <= fuel)%nat -> number_stop rest = true ->
  exists v', parse_value fuel (t ++ rest) = Ok (v', rest) /\
             (json_native v = true -> v' = v) /\
             (v' = PNone -> v = PNone).

(** The text [dumps] writes for one member of a dict. *)
Definition member_text (kv : pyval * pyval) : result (list ascii) :=
  k <- key_text (fst kv) ;;
  t <- dumps (snd kv) ;;
  Ok (quote k ++ ":"%char :: " "%char :: t).

(** A dict as the pairs [JSONObject] collects for it. *)
Definition as_pairs (pairs : list (string * pyval)) : list (pyval * pyval) :=
  map (fun kv => (PStr (fst kv), snd kv)) pairs.

(** ** Sample data *)

(** The scenario of the specification: one policy, created on a fresh
    database. *)
Definition sample_db : database :=
  fst (create_policy init_database "2024-03-01T09:00:00.000000"
         "대기질 개선" "환경" "시민" "미세먼지 저감 대책").

(** Two content rows of policy 1, one whose [content_data] is JSON and one
    whose [content_data] is not, in a database that holds both. *)
Definition good_row : Content.row :=
  {| Content.id := 1; Content.policy_id := 1; Content.content_type := "analysis";
     Content.content_data := "[1, 2, 3]"; Content.metadata := Some "{}";
     Content.created_at := "2024-03-01T09:05:00.000000" |}.

Definition corrupt_row : Content.row :=
  {| Content.id := 2; Content.policy_id := 1; Content.content_type := "analysis";
     Content.content_data := "{oops"; Content.metadata := Some "{}";
     Content.created_at := "2024-03-01T09:06:00.000000" |}.

Definition corrupt_db : database :=
  {| policies := policies sample_db; policies_seq := 1;
     policy_contents := [good_row; corrupt_row]; policy_contents_seq := 2;
     generated_media := []; generated_media_seq := 0 |}.

(** A payload holding a tuple and a metadata dict keyed by an integer: both
    are values [save_policy_content] accepts. *)
Definition tuple_payload : pyval :=
  PDict [(PStr "steps", PTuple [PInt 1; PInt 2])].

Definition int_key_metadata : pyval :=
  PDict [(PInt 1, PStr "v1")].

(** A payload [json.dumps] rejects: a dict keyed by a tuple. *)
Definition tuple_key_payload : pyval :=
  PDict [(PTuple [PInt 1; PInt 2], PStr "v")].

(** A payload and a metadata dict JSON holds natively. *)
Definition native_payload : pyval :=
  PDict [(PStr "summary", PStr "대기질 개선 계획");
         (PStr "steps", PList [PInt 1; PInt 2; PNone; PBool true]);
         (PStr "nested", PDict [(PStr "k", PList [])])].

Definition native_metadata : list (pyval * pyval) :=
  [(PStr "model", PStr "gpt-4o"); (PStr "version", PInt 2)].

(** A payload with floats: 0.1, 0.0, 1e22, 2.5 and minus infinity. *)
Definition float_payload : pyval :=
  PDict [(PStr "summary", PStr "대기질 개선 계획");
         (PStr "score", PFloat (FFinite false 7205759403792794 (-56)));
         (PStr "limits", PList [PFloat (FFinite false 0 (-1074));
                                PFloat (FFinite false 4768371582031250 21);
                                PFloat (FFinite false 5629499534213120 (-51));
                                PFloat (FInf true); PInt 3; PNone])].

(** A payload with a [nan]. *)
Definition nan_payload : pyval := PDict [(PStr "score", PFloat FNaN)].

(** A database with one policy and one content row. *)
Definition content_db : database :=
  fst (run init_database
         [CreatePolicy "2024-03-01T09:00:00.000000"
            "대기질 개선" "환경" "시민" "미세먼지 저감 대책";
          SavePolicyContent "2024-03-01T09:05:00.000000" 1 "analysis"
            native_payload (PDict native_metadata)]).

(** A content row of policy 1 whose [content_data] holds a float, in a
    database that holds it. *)
Definition score_row : Content.row :=
  {| Content.id := 1; Content.policy_id := 1; Content.content_type := "analysis";
     Content.content_data :=
       string_of_list_ascii
         ("{"%char :: DQUOTE :: chars "score" ++ DQUOTE :: chars ": 0.1}");
     Content.metadata := Some "{}";
     Content.created_at := "2024-03-01T09:05:00.000000" |}.

Definition score_db : database :=
  {| policies := policies sample_db; policies_seq := 1;
     policy_contents := [score_row]; policy_contents_seq := 1;
     generated_media := []; generated_media_seq := 0 |}.

(** A database with one policy and one generated image. *)
Definition media_db : database :=
  fst (run init_database
         [CreatePolicy "2024-03-01T09:00:00.000000"
            "대기질 개선" "환경" "시민" "미세먼지 저감 대책";
          SaveGeneratedMedia "2024-03-01T09:20:00.000000" 1 "image"
            [Byte.x89; Byte.x50; Byte.x4e; Byte.x47] "clean air over Seoul"
            (PDict [(PStr "size", PStr "1024x1024"); (PStr "quality", PStr "standard")])]).

(** A text given by its UTF-8 bytes. *)
Definition text_of_bytes (l : list N) : list ascii := map ascii_of_N l.

(** A reply that holds a JSON text between Markdown fences, and the lines
    between the fences. *)
Definition fenced_body : list ascii :=
  "010"%char :: chars "[1, [2, null], {}]" ++ ["010"%char].

Definition fenced_reply : string :=
  string_of_list_ascii
    (chars "  ```json" ++ fenced_body ++ chars "```" ++ ["010"%char]).

(** ** Notions the further statements use *)

(** Strict text order. *)
Definition text_lt (a b : string) : Prop := String.ltb a b = true.

(** The identifiers 1, 2, ..., n. *)
Definition count_up (n : nat) : list Z := map Z.of_nat (seq 1 n).

(** The three [AUTOINCREMENT] tables hold the identifiers 1, 2, ... in row
    order, and each counter is the number of rows of its table. *)
Definition ids_consecutive (db : database) : Prop :=
  map Policy.id (policies db) = count_up (List.length (policies db)) /\
  policies_seq db = Z.of_nat (List.length (policies db)) /\
  map Content.id (policy_contents db) = count_up (List.length (policy_contents db)) /\
  policy_contents_seq db = Z.of_nat (List.length (policy_contents db)) /\
  map Media.id (generated_media db) = count_up (List.length (generated_media db)) /\
  generated_media_seq db = Z.of_nat (List.length (generated_media db)).

(** The low half of a surrogate pair written as a second [\uXXXX] escape at
    the head of [s], and the text after it. *)
Definition low_pair (s : list ascii) : option (N * list ascii) :=
  match s with
  | b :: e2 :: g1 :: g2 :: g3 :: g4 :: r4 =>
      if (b =? BACKSLASH)%char && (e2 =? "u")%char then
        match hex4 g1 g2 g3 g4 with
        | Some u2 => if is_low_surrogate u2 then Some (u2, r4) else None
        | None => None
        end
      else None
  | _ => None
  end.

(** A character a JSON value can end with. *)
Definition token_end (c : ascii) : bool :=
  (is_digit c || (c =? DQUOTE) || (c =? "]") || (c =? "}") || (c =? "l") || (c =? "e")
   || (c =? "N") || (c =? "y"))%char.

(** The last character of [pre] is one a JSON value can end with. *)
Definition ends_token (pre : list ascii) : bool :=
  match rev pre with
  | c :: _ => token_end c
  | [] => false
  end.

(** No character of [s] is a backtick. *)
Definition no_backtick (s : list ascii) : bool :=
  forallb (fun c => negb (c =? "`")%char) s.

(** * Properties *)

(** ** The embedding at work *)

Example dumps_list :
  json_dumps (PList [PInt 1; PInt (-20); PNone; PBool true; PTuple []])
  = Ok "[1, -20, null, true, []]".
Proof. reflexivity. Qed.

Example dumps_string_escapes :
  json_dumps (PStr (string_of_list_ascii ["a"; "010"; "001"; BACKSLASH; "z"]%char))
  = Ok (string_of_list_ascii (DQUOTE :: chars "a\n\u0001\\z" ++ [DQUOTE])).
Proof. reflexivity. Qed.

Example dumps_tuple_key : json_dumps (PDict [(PTuple [PInt 1], PNone)]) = Raise TypeError.
Proof. reflexivity. Qed.

Example loads_whitespace :
  json_loads " [1 , [2],{ } ,true ] " = Ok (PList [PInt 1; PList [PInt 2]; PDict []; PBool true]).
Proof. reflexivity. Qed.

Example loads_surrogate_pair :
  json_loads (string_of_list_ascii (DQUOTE :: chars "\ud83d\ude00 \u00e9" ++ [DQUOTE]))
  = Ok (PStr "😀 é").
Proof. reflexivity. Qed.

Example loads_leading_zero : json_loads "01" = Raise JSONDecodeError.
Proof. reflexivity. Qed.

Example loads_trailing_comma : json_loads "[1,]" = Raise JSONDecodeError.
Proof. reflexivity. Qed.

Example loads_float :
  json_loads "[1.5, -0.0, 1e400]"
  = Ok (PList [PFloat (FFinite false 6755399441055744 (-52));
               PFloat (FFinite true 0 (-1074)); PFloat (FInf false)]).
Proof. reflexivity. Qed.

(** 0.30000000000000004, -0.0015, 100.0, the decimals next to half of the
    smallest float, and the decimals next to the largest float. *)
Example loads_float_rounding :
  json_loads
    "[0.30000000000000004, -1.5e-3, 1E2, 2.4703282292062328e-324, 2.4703282292062327e-324, 1.7976931348623158e308, 1.7976931348623159e308, NaN, -Infinity]"
  = Ok (PList [PFloat (FFinite false 5404319552844596 (-54));
               PFloat (FFinite true 6917529027641082 (-62));
               PFloat (FFinite false 7036874417766400 (-46));
               PFloat (FFinite false 1 (-1074));
               PFloat (FFinite false 0 (-1074));
               PFloat (FFinite false 9007199254740991 971);
               PFloat (FInf false);
               PFloat FNaN;
               PFloat (FInf true)]).
Proof. vm_compute. reflexivity. Qed.

Example loads_not_numbers :
  map json_loads ["1."; ".5"; "1e+"; "1.5e"; "- 1"; "+1"; "nan"; "Inf"; "0x10"]
  = repeat (Raise JSONDecodeError) 9.
Proof. reflexivity. Qed.

(** [repr] of 0.1, 1e22, 1e16, 2^53, the smallest float, the largest float,
    0.0001, 0.00001, 1/3, -2.5, 100.0, -0.0, 123456789.125 and the smallest
    normal float. *)
Example float_repr_samples :
  map float_repr
    [FFinite false 7205759403792794 (-56); FFinite false 4768371582031250 21;
     FFinite false 5000000000000000 1; FFinite false 4503599627370496 1;
     FFinite false 1 (-1074); FFinite false 9007199254740991 971;
     FFinite false 7378697629483821 (-66); FFinite false 5902958103587057 (-69);
     FFinite false 6004799503160661 (-54); FFinite true 5629499534213120 (-51);
     FFinite false 7036874417766400 (-46); FFinite true 0 (-1074);
     FFinite false 8285044871266304 (-26); FFinite false 4503599627370496 (-1074)]
  = map chars
      ["0.1"; "1e+22"; "1e+16"; "9007199254740992.0"; "5e-324";
       "1.7976931348623157e+308"; "0.0001"; "1e-05"; "0.3333333333333333"; "-2.5";
       "100.0"; "-0.0"; "123456789.125"; "2.2250738585072014e-308"].
Proof. vm_compute. reflexivity. Qed.

Example dumps_floats :
  json_dumps (PList [PFloat (FFinite false 7205759403792794 (-56));
                     PFloat (FFinite false 4768371582031250 21);
                     PFloat FNaN; PFloat (FInf true); PInt 3])
  = Ok "[0.1, 1e+22, NaN, -Infinity, 3]".
Proof. vm_compute. reflexivity. Qed.

(** Python compares an [int] and a [float] exactly: [2**53 + 1] is not the
    float [2.0**53], [1 == 1.0], [True == 1.0], [0.0 == -0.0]. *)
Example py_eq_numbers :
  py_eq (PInt 9007199254740993) (PFloat (FFinite false 4503599627370496 1)) = false /\
  py_eq (PInt 1) (PFloat (FFinite false 4503599627370496 (-52))) = true /\
  py_eq (PBool true) (PFloat (FFinite false 4503599627370496 (-52))) = true /\
  py_eq (PFloat (FFinite false 0 (-1074))) (PFloat (FFinite true 0 (-1074))) = true /\
  py_eq (PFloat FNaN) (PFloat FNaN) = false.
Proof. repeat split. Qed.

Example loads_dumps_coerces :
  (t <- json_dumps (PDict [(PInt 1, PTuple [PInt 2]); (PStr "1", PBool false)]) ;;
   json_loads t)
  = Ok (PDict [(PStr "1", PBool false)]).
Proof. reflexivity. Qed.

Example date_of_timestamp : sqlite_date "2024-03-01T09:00:00.000000" = Some "2024-03-01".
Proof. reflexivity. Qed.

Example date_of_whole_second : sqlite_date "2024-02-29T23:59:59" = Some "2024-02-29".
Proof. reflexivity. Qed.

Example date_of_garbage : sqlite_date "yesterday" = None.
Proof. reflexivity. Qed.

Example first_identifier :
  snd (create_policy init_database "2024-03-01T09:00:00.000000"
         "대기질 개선" "환경" "시민" "미세먼지 저감 대책") = 1.
Proof. reflexivity. Qed.

Example latest_content_first :
  match run init_database
          [CreatePolicy "2024-03-01T09:00:00" "t" "c" "a" "d";
           SavePolicyContent "2024-03-01T09:01:00" 1 "analysis" (PDict [(PStr "v", PInt 1)]) PNone;
           SavePolicyContent "2024-03-01T09:02:00" 1 "analysis" (PDict [(PStr "v", PInt 2)]) PNone]
  with
  | (db, _) =>
      rows <- get_policy_contents db 1 ;; Ok (map Content.data rows)
  end
  = Ok [PDict [(PStr "v", PInt 2)]; PDict [(PStr "v", PInt 1)]].
Proof. reflexivity. Qed.

(** ** Text order *)

Lemma ltb_false_leb (a b : string) : String.ltb a b = false -> String.leb b a = true.
Proof.
  unfold String.ltb, String.leb. rewrite (String.compare_antisym b a).
  destruct (String.compare a b); simpl; congruence.
Qed.

Lemma ltb_true_leb (a b : string) : String.ltb a b = true -> String.leb a b = true.
Proof.
  unfold String.ltb, String.leb. destruct (String.compare a b); congruence.
Qed.

Lemma ltb_true_not_leb (a b : string) : String.ltb a b = true -> String.leb b a = false.
Proof.
  unfold String.ltb, String.leb. rewrite (String.compare_antisym b a).
  destruct (String.compare a b); simpl; congruence.
Qed.

Lemma leb_refl (a : string) : String.leb a a = true.
Proof. destruct (String.leb_total a a); assumption. Qed.

(** ** [ORDER BY ... DESC] and [LIMIT] *)

Section OrderByFacts.
Context {A : Type} (key : A -> string).

Lemma insert_desc_perm (x : A) (l : list A) :
  Permutation (insert_desc key x l) (x :: l).
Proof.
  induction l as [|y l IH]; simpl.
  - apply Permutation_refl.
  - destruct (String.ltb (key x) (key y)).
    + apply perm_trans with (y :: x :: l).
      * apply perm_skip, IH.
      * apply perm_swap.
    + apply Permutation_refl.
Qed.

Lemma order_by_desc_perm (l : list A) : Permutation (order_by_desc key l) l.
Proof.
  induction l as [|x l IH]; simpl.
  - apply perm_nil.
  - apply perm_trans with (x :: order_by_desc key l).
    + apply insert_desc_perm.
    + apply perm_skip, IH.
Qed.

Lemma insert_desc_sorted (x : A) (l : list A) :
  sorted_desc key l -> sorted_desc key (insert_desc key x l).
Proof.
  unfold sorted_desc. induction l as [|y l IH]; intros Hs; simpl.
  - repeat constructor.
  - destruct (String.ltb (key x) (key y)) eqn:E.
    + inversion Hs as [|? ? Hl Hhd]; subst.
      constructor; [apply IH, Hl|].
      destruct l as [|z l]; simpl.
      * constructor. apply ltb_true_leb, E.
      * destruct (String.ltb (key x) (key z)).
        -- inversion Hhd; subst. constructor. assumption.
        -- constructor. apply ltb_true_leb, E.
    + constructor; [assumption|]. constructor. apply ltb_false_leb, E.
Qed.

Lemma order_by_desc_sorted (l : list A) : sorted_desc key (order_by_desc key l).
Proof.
  induction l as [|x l IH]; simpl.
  - constructor.
  - apply insert_desc_sorted, IH.
Qed.

Lemma order_by_desc_length (l : list A) :
  List.length (order_by_desc key l) = List.length l.
Proof. apply Permutation_length, order_by_desc_perm. Qed.

Lemma order_by_desc_In (x : A) (l : list A) : In x (order_by_desc key l) <-> In x l.
Proof.
  split; apply Permutation_in; [|apply Permutation_sym]; apply order_by_desc_perm.
Qed.

Lemma sorted_desc_firstn (n : nat) (l : list A) :
  sorted_desc key l -> sorted_desc key (firstn n l).
Proof.
  unfold sorted_desc. revert l. induction n as [|n IH]; intros l Hs; simpl.
  - constructor.
  - destruct l as [|x l]; [constructor|].
    inversion Hs as [|? ? Hl Hhd]; subst.
    constructor; [apply IH, Hl|].
    destruct l as [|y l]; destruct n; simpl; constructor.
    inversion Hhd; assumption.
Qed.
End OrderByFacts.

Lemma ltb_trans (a b c : string) :
  String.ltb a b = true -> String.ltb b c = true -> String.ltb a c = true.
Proof.
  unfold String.ltb.
  destruct (String.compare a b) eqn:Hab; simpl; try discriminate. intros _.
  destruct (String.compare b c) eqn:Hbc; simpl; try discriminate. intros _.
  assert (H : String_as_OT.lt a c)
    by exact (@RelationClasses.StrictOrder_Transitive _ _ String_as_OT.lt_strorder
                a b c Hab Hbc).
  unfold String_as_OT.lt in H. change (String.compare a c = Lt) in H.
  rewrite H. reflexivity.
Qed.

Lemma leb_trans (a b c : string) :
  String.leb a b = true -> String.leb b c = true -> String.leb a c = true.
Proof.
  intros Hab Hbc.
  destruct (String.ltb c a) eqn:Hca; [|apply ltb_false_leb, Hca].
  exfalso.
  destruct (String.ltb a b) eqn:Hlt.
  - pose proof (ltb_trans _ _ _ Hca Hlt) as Hcb.
    apply ltb_true_not_leb in Hcb. congruence.
  - apply ltb_false_leb in Hlt.
    pose proof (String.leb_antisym _ _ Hab Hlt) as ->.
    apply ltb_true_not_leb in Hca. congruence.
Qed.

(** ** [WHERE] clauses on dates *)

Lemma sql_between_same (x d : option string) : sql_between x d d = sql_eq x d.
Proof.
  destruct x as [a|], d as [b|]; simpl; try reflexivity.
  destruct (String.eqb_spec a b) as [->|Hne].
  - rewrite leb_refl. reflexivity.
  - destruct (String.leb b a) eqn:H1, (String.leb a b) eqn:H2; try reflexivity.
    exfalso. apply Hne. apply String.leb_antisym; assumption.
Qed.

Lemma sql_between_reversed (x : option string) (lo hi : string) :
  String.ltb hi lo = true -> sql_between x (Some lo) (Some hi) = false.
Proof.
  intros Hlt. destruct x as [a|]; simpl; [|reflexivity].
  destruct (String.leb lo a) eqn:H1, (String.leb a hi) eqn:H2; try reflexivity.
  pose proof (leb_trans _ _ _ H1 H2) as H.
  apply ltb_true_not_leb in Hlt. congruence.
Qed.

Lemma filter_nothing {A : Type} (f : A -> bool) (l : list A) :
  (forall x, f x = false) -> filter f l = [].
Proof.
  intros H. induction l as [|x l IH]; simpl; [reflexivity|]. rewrite H. exact IH.
Qed.

(** ** Identifiers *)

Lemma max_rowid_ge (ids : list Z) (i : Z) : In i ids -> i <= max_rowid ids.
Proof.
  induction ids as [|j ids IH]; simpl; [contradiction|].
  intros [->|Hin]; [lia|]. specialize (IH Hin). lia.
Qed.

Lemma next_rowid_fresh (seq : Z) (ids : list Z) (i : Z) :
  In i ids -> i < next_rowid seq ids.
Proof. intros H. apply max_rowid_ge in H. unfold next_rowid. lia. Qed.

Lemma next_rowid_above_seq (seq : Z) (ids : list Z) : seq < next_rowid seq ids.
Proof. unfold next_rowid. lia. Qed.

Lemma find_app_last {A : Type} (f : A -> bool) (l : list A) (x : A) :
  (forall y, In y l -> f y = false) -> f x = true -> find f (l ++ [x]) = Some x.
Proof.
  intros Hl Hx. induction l as [|y l IH]; simpl.
  - rewrite Hx. reflexivity.
  - rewrite (Hl y (or_introl eq_refl)). apply IH. intros z Hz. apply Hl. right. exact Hz.
Qed.

Lemma step_seq_mono (db : database) (c : call) :
  policies_seq db <= policies_seq (fst (step db c)) /\
  (forall i, snd (step db c) = Some i -> i = policies_seq (fst (step db c))).
Proof.
  destruct c; simpl.
  - split; [pose proof (next_rowid_above_seq (policies_seq db) (map Policy.id (policies db))); lia|].
    intros i [= <-]. reflexivity.
  - split; [lia|discriminate].
  - destruct (save_policy_content _ _ _ _ _ _) as [db'|e] eqn:E; simpl; [|split; [lia|discriminate]].
    unfold save_policy_content, bind in E.
    destruct (json_dumps content_data); [|discriminate].
    destruct (json_dumps _); [|discriminate].
    injection E as <-. simpl. split; [lia|discriminate].
  - destruct (save_generated_media _ _ _ _ _ _ _) as [db'|e] eqn:E; simpl; [|split; [lia|discriminate]].
    unfold save_generated_media, bind in E.
    destruct (json_dumps params); [|discriminate].
    injection E as <-. simpl. split; [lia|discriminate].
Qed.

Lemma run_ids_bounded (cs : list call) (db : database) :
  policies_seq db <= policies_seq (fst (run db cs)) /\
  Forall (fun i => i <= policies_seq (fst (run db cs))) (snd (run db cs)).
Proof.
  revert db. induction cs as [|c cs IH]; intros db; simpl.
  - split; [lia|constructor].
  - pose proof (step_seq_mono db c) as [Hmono Hid].
    destruct (step db c) as [db1 r]. simpl in *.
    specialize (IH db1). destruct (run db1 cs) as [db2 ids]. simpl in *.
    destruct IH as [IH1 IH2]. split; [lia|].
    destruct r as [i|]; [|exact IH2].
    constructor; [|exact IH2]. rewrite (Hid i eq_refl). exact IH1.
Qed.

(** C1. After any history of calls on a fresh database, [create_policy]
    returns an identifier strictly greater than every identifier an earlier
    [create_policy] returned, and [get_policy] on it at once returns the row
    just written: the four inputs, status "draft", and the same timestamp in
    [created_at] and [updated_at]. *)
Theorem create_policy_then_get (history : list call)
    (now title category target_audience description : string) :
  let db := fst (run init_database history) in
  let earlier := snd (run init_database history) in
  let db' := fst (create_policy db now title category target_audience description) in
  let rowid := snd (create_policy db now title category target_audience description) in
  Forall (fun i => i < rowid) earlier /\
  exists p,
    get_policy db' rowid = Some p /\
    Policy.id p = rowid /\
    Policy.status p = Some "draft" /\
    Policy.created_at p = Policy.updated_at p /\
    Policy.created_at p = now /\
    Policy.title p = title /\
    Policy.category p = category /\
    Policy.target_audience p = target_audience /\
    Policy.description p = Some description.
Proof.
  intros db earlier db' rowid.
  pose proof (run_ids_bounded history init_database) as [_ Hb].
  fold db earlier in Hb.
  split.
  - eapply Forall_impl; [|exact Hb]. simpl. intros i Hi.
    pose proof (next_rowid_above_seq (policies_seq db) (map Policy.id (policies db))).
    subst rowid. simpl. lia.
  - eexists. split.
    + subst db' rowid. unfold get_policy. simpl. apply find_app_last.
      * intros y Hy. apply Z.eqb_neq.
        pose proof (next_rowid_fresh (policies_seq db) (map Policy.id (policies db))
                      (Policy.id y) (in_map _ _ _ Hy)). lia.
      * simpl. apply Z.eqb_refl.
    + simpl. repeat split; reflexivity.
Qed.

(** ** [update_policy_status] *)

Lemma set_status_id (policy_id : Z) (status now : string) (r : Policy.row) :
  Policy.id (set_status policy_id status now r) = Policy.id r.
Proof. unfold set_status. destruct (Policy.id r =? policy_id); reflexivity. Qed.

Lemma find_set_status (policy_id : Z) (status now : string) (i : Z) (l : list Policy.row) :
  find (fun r => Policy.id r =? i) (map (set_status policy_id status now) l)
  = option_map (set_status policy_id status now) (find (fun r => Policy.id r =? i) l).
Proof.
  induction l as [|r l IH]; simpl; [reflexivity|].
  rewrite set_status_id. destruct (Policy.id r =? i); [reflexivity|exact IH].
Qed.




(** C6. [update_policy_status] leaves the identifier, title, category,
    target audience, description and creation time of every row as they
    were, leaves every row with another identifier and both other tables
    untouched, and changes nothing at all when no row has the identifier. *)
Theorem update_status_frame (db : database) (now : string) (policy_id : Z) (s : string) :
  let db' := update_policy_status db now policy_id s in
  Forall2 (fun r r' =>
             Policy.id r' = Policy.id r /\
             Policy.title r' = Policy.title r /\
             Policy.category r' = Policy.category r /\
             Policy.target_audience r' = Policy.target_audience r /\
             Policy.description r' = Policy.description r /\
             Policy.created_at r' = Policy.created_at r /\
             (Policy.id r <> policy_id -> r' = r))
          (policies db) (policies db') /\
  (forall i, i <> policy_id -> get_policy db' i = get_policy db i) /\
  policies_seq db' = policies_seq db /\
  policy_contents db' = policy_contents db /\
  policy_contents_seq db' = policy_contents_seq db /\
  generated_media db' = generated_media db /\
  generated_media_seq db' = generated_media_seq db /\
  (get_policy db policy_id = None -> db' = db).
Proof.
  intros db'. subst db'. unfold update_policy_status. simpl.
  assert (Hother : forall r, Policy.id r <> policy_id -> set_status policy_id s now r = r).
  { intros r Hne. unfold set_status. apply Z.eqb_neq in Hne. rewrite Hne. reflexivity. }
  repeat split; try reflexivity.
  - induction (policies db) as [|r l IH]; simpl; constructor; [|exact IH].
    unfold set_status.
    destruct (Policy.id r =? policy_id) eqn:E; simpl; repeat split; try reflexivity.
    intros Hne. apply Z.eqb_neq in Hne. congruence.
  - intros i Hne. unfold get_policy. simpl. rewrite find_set_status.
    destruct (find _ (policies db)) as [p|] eqn:E; simpl; [|reflexivity].
    f_equal. apply Hother. apply find_some in E. destruct E as [_ E].
    apply Z.eqb_eq in E. congruence.
  - intros Hnone. unfold get_policy in Hnone.
    assert (Hmap : map (set_status policy_id s now) (policies db) = policies db).
    { rewrite <- (map_id (policies db)) at 2. apply map_ext_in.
      intros r Hr. apply Hother. intros Heq.
      pose proof (find_none _ _ Hnone r Hr) as Hf. simpl in Hf.
      apply Z.eqb_neq in Hf. contradiction. }
    rewrite Hmap. destruct db; reflexivity.
Qed.

(** ** Listings of policies *)

(** C7. A range query whose two bounds are the same date returns the same
    list as the query for that single date. *)
Theorem single_day_range_is_date (db : database) (d : string) :
  get_policies_by_date_range db d d = get_policies_by_date db d.
Proof.
  unfold get_policies_by_date_range, get_policies_by_date. f_equal.
  apply filter_ext. intros r. apply sql_between_same.
Qed.

(** C8. For a non-negative limit [n], [get_all_policies] returns at most
    [n] rows, each a stored policy, in descending order of [created_at]. *)
Theorem get_all_policies_limit_sorted (db : database) (n : Z) :
  0 <= n ->
  Z.of_nat (List.length (get_all_policies db n)) <= n /\
  sorted_desc Policy.created_at (get_all_policies db n) /\
  (forall p, In p (get_all_policies db n) -> In p (policies db)).
Proof.
  intros Hn. unfold get_all_policies, sql_limit.
  destruct (n <? 0) eqn:E; [apply Z.ltb_lt in E; lia|].
  split; [|split].
  - pose proof (firstn_le_length (Z.to_nat n)
                  (order_by_desc Policy.created_at (policies db))). lia.
  - apply sorted_desc_firstn, order_by_desc_sorted.
  - intros p Hp. apply (order_by_desc_In Policy.created_at).
    rewrite <- (firstn_skipn (Z.to_nat n) (order_by_desc Policy.created_at (policies db))).
    apply in_or_app. left. exact Hp.
Qed.

(** ** Calendar dates as text *)

Lemma two_digits_spec (a b : ascii) (v : Z) :
  two_digits a b = Some v ->
  (48 <= N_of_ascii a <= 57)%N /\ (48 <= N_of_ascii b <= 57)%N /\
  v = 10 * (Z.of_N (N_of_ascii a) - 48) + (Z.of_N (N_of_ascii b) - 48).
Proof.
  unfold two_digits, is_digit. intros H.
  destruct ((48 <=? N_of_ascii a)%N) eqn:E1, ((N_of_ascii a <=? 57)%N) eqn:E2,
           ((48 <=? N_of_ascii b)%N) eqn:E3, ((N_of_ascii b <=? 57)%N) eqn:E4;
    cbn [andb] in H; try discriminate.
  apply N.leb_le in E1, E2, E3, E4. injection H as <-. repeat split; try lia.
Qed.

Lemma parse_ymd_shape (s : list ascii) (y m d : Z) (rest : list ascii) :
  parse_ymd s = Some (y, m, d, rest) ->
  exists y1 y2 y3 y4 m1 m2 e1 e2 yh yl,
    s = [y1; y2; y3; y4; "-"%char; m1; m2; "-"%char; e1; e2] ++ rest /\
    two_digits y1 y2 = Some yh /\ two_digits y3 y4 = Some yl /\
    two_digits m1 m2 = Some m /\ two_digits e1 e2 = Some d /\
    y = 100 * yh + yl.
Proof.
  unfold parse_ymd. intros H.
  do 10 (destruct s as [|? s]; [discriminate|]).
  destruct (two_digits a a0) as [yh|] eqn:E1; [|discriminate].
  destruct (two_digits a1 a2) as [yl|] eqn:E2; [|discriminate].
  destruct (two_digits a4 a5) as [m'|] eqn:E3; [|discriminate].
  destruct (two_digits a7 a8) as [d'|] eqn:E4; [|discriminate].
  destruct (Ascii.eqb_spec a3 "-"); [|discriminate].
  destruct (Ascii.eqb_spec a6 "-"); [|discriminate].
  simpl in H.
  destruct (_ && _); [|discriminate].
  injection H as <- <- <- <-. subst.
  exists a, a0, a1, a2, a4, a5, a7, a8, yh, yl. repeat split; assumption.
Qed.

Lemma iso_date_shape (x : string) (t : Z * Z * Z) :
  iso_date x = Some t ->
  exists y m d, t = (y, m, d) /\ parse_ymd (chars x) = Some (y, m, d, []).
Proof.
  unfold iso_date. intros H.
  destruct (parse_ymd (chars x)) as [[[[y m] d] rest]|]; [|discriminate].
  destruct rest; [|discriminate]. injection H as <-.
  exists y, m, d. split; reflexivity.
Qed.

Lemma sqlite_date_iso (x : string) (t : Z * Z * Z) :
  iso_date x = Some t -> sqlite_date x = Some x.
Proof.
  intros H. apply iso_date_shape in H. destruct H as (y & m & d & _ & Hp).
  unfold sqlite_date. rewrite Hp.
  change (Some (string_of_list_ascii (firstn 10 (chars x))) = Some x).
  apply parse_ymd_shape in Hp. destruct Hp as (? & ? & ? & ? & ? & ? & ? & ? & ? & ? & Hs & _).
  assert (Hfirst : firstn 10 (chars x) = chars x) by (rewrite Hs; reflexivity).
  rewrite Hfirst. unfold chars. rewrite string_of_list_ascii_of_string. reflexivity.
Qed.

Lemma ascii_compare_N (a b : ascii) :
  Ascii.compare a b = N.compare (N_of_ascii a) (N_of_ascii b).
Proof. reflexivity. Qed.

(** On calendar dates written [YYYY-MM-DD], text order is date order. *)
Lemma iso_date_order (x1 x2 : string) (t1 t2 : Z * Z * Z) :
  iso_date x1 = Some t1 -> iso_date x2 = Some t2 ->
  date_ltb t1 t2 = true -> String.ltb x1 x2 = true.
Proof.
  intros H1 H2 Hlt.
  apply iso_date_shape in H1, H2.
  destruct H1 as (y & m & d & -> & Hp1), H2 as (y' & m' & d' & -> & Hp2).
  apply parse_ymd_shape in Hp1, Hp2.
  destruct Hp1 as (a1 & a2 & a3 & a4 & a5 & a6 & a7 & a8 & yh & yl & Hs1 & D1 & D2 & D3 & D4 & ->).
  destruct Hp2 as (b1 & b2 & b3 & b4 & b5 & b6 & b7 & b8 & yh' & yl' & Hs2 & E1 & E2 & E3 & E4 & ->).
  apply two_digits_spec in D1, D2, D3, D4, E1, E2, E3, E4.
  rewrite <- (string_of_list_ascii_of_string x1), <- (string_of_list_ascii_of_string x2).
  unfold chars in Hs1, Hs2. rewrite Hs1, Hs2.
  unfold String.ltb. simpl. rewrite !ascii_compare_N.
  unfold date_ltb in Hlt.
  rewrite !Bool.orb_true_iff, !Bool.andb_true_iff, !Z.ltb_lt, !Z.eqb_eq in Hlt.
  repeat match goal with
         | |- context [N.compare ?u ?v] =>
             destruct (N.compare_spec u v); try reflexivity; try lia
         end.
Qed.

(** C3. When both bounds are calendar dates and the start date is after the
    end date, the range query returns no row, whatever is stored. *)
Theorem reversed_range_is_empty (db : database) (start_date end_date : string)
    (s e : Z * Z * Z) :
  iso_date start_date = Some s ->
  iso_date end_date = Some e ->
  date_ltb e s = true ->
  get_policies_by_date_range db start_date end_date = [].
Proof.
  intros Hs He Hlt. unfold get_policies_by_date_range.
  rewrite (sqlite_date_iso _ _ Hs), (sqlite_date_iso _ _ He).
  rewrite filter_nothing; [reflexivity|].
  intros r. apply sql_between_reversed. exact (iso_date_order _ _ _ _ He Hs Hlt).
Qed.

Lemma reversed_range_is_empty_witness :
  iso_date "2024-03-02" = Some (2024, 3, 2) /\
  iso_date "2024-03-01" = Some (2024, 3, 1) /\
  date_ltb (2024, 3, 1) (2024, 3, 2) = true /\
  get_policies_by_date_range sample_db "2024-03-02" "2024-03-01" = [].
Proof.
  split; [reflexivity|]. split; [reflexivity|]. split; [reflexivity|].
  apply (reversed_range_is_empty sample_db "2024-03-02" "2024-03-01" (2024, 3, 2) (2024, 3, 1));
    reflexivity.
Defined.


Lemma get_all_policies_limit_sorted_witness :
  Z.of_nat (List.length (get_all_policies sample_db 20)) <= 20 /\
  sorted_desc Policy.created_at (get_all_policies sample_db 20) /\
  (forall p, In p (get_all_policies sample_db 20) -> In p (policies sample_db)).
Proof.
  apply (get_all_policies_limit_sorted sample_db 20). lia.
Defined.

(** ** Strings: [scanstring] undoes [escape] *)

Ltac each_char c := destruct c as [[] [] [] [] [] [] [] []].

Lemma scanstring_escape_char (c : ascii) (tail : list ascii) :
  scanstring (escape_char c ++ tail)
  = match scanstring tail with
    | Some (body, rest) => Some (c :: body, rest)
    | None => None
    end.
Proof. each_char c; reflexivity. Qed.

Lemma scanstring_escape (body rest : list ascii) :
  scanstring (escape body ++ DQUOTE :: rest) = Some (body, rest).
Proof.
  induction body as [|c body IH]; simpl.
  - reflexivity.
  - rewrite <- app_assoc, scanstring_escape_char, IH. reflexivity.
Qed.

Lemma quote_app (s rest : list ascii) :
  quote s ++ rest = DQUOTE :: escape s ++ DQUOTE :: rest.
Proof. unfold quote. simpl. rewrite <- app_assoc. reflexivity. Qed.

(** ** Integers: [scan_number] undoes [chars_of_int] *)

Lemma chars_of_uint_digits (u : Decimal.uint) :
  Forall (fun c => is_digit c = true) (chars_of_uint u).
Proof. induction u; simpl; constructor; (reflexivity || assumption). Qed.

Lemma uint_of_chars_of_uint (u : Decimal.uint) : uint_of_chars (chars_of_uint u) = u.
Proof. induction u; simpl; [reflexivity|..]; rewrite IHu; reflexivity. Qed.

Lemma number_stop_not_digit (rest : list ascii) :
  number_stop rest = true ->
  match rest with [] => True | c :: _ => is_digit c = false end.
Proof.
  destruct rest as [|c r]; simpl; [trivial|].
  destruct (is_digit c); simpl; [discriminate|reflexivity].
Qed.

Lemma number_stop_no_float (rest : list ascii) :
  number_stop rest = true -> has_frac rest || has_exp rest = false.
Proof.
  destruct rest as [|c r]; simpl; [reflexivity|].
  destruct (is_digit c); simpl; [discriminate|].
  destruct (c =? ".")%char eqn:E1; simpl; [discriminate|].
  destruct (c =? "e")%char eqn:E2; simpl; [discriminate|].
  destruct (c =? "E")%char eqn:E3; simpl; [discriminate|].
  intros _. destruct r; reflexivity.
Qed.

Lemma span_digits_app (ds rest : list ascii) :
  Forall (fun c => is_digit c = true) ds ->
  number_stop rest = true ->
  span_digits (ds ++ rest) = (ds, rest).
Proof.
  intros Hds Hrest. induction Hds as [|c ds Hc _ IH]; simpl.
  - apply number_stop_not_digit in Hrest. destruct rest as [|c r]; [reflexivity|].
    simpl. rewrite Hrest. reflexivity.
  - rewrite Hc, IH. reflexivity.
Qed.

Lemma nzhead_head (d : Decimal.uint) :
  match Decimal.nzhead d with Decimal.D0 _ => False | _ => True end.
Proof. induction d; simpl; trivial. Qed.

Lemma to_uint_normal (p : positive) :
  Pos.to_uint p = Decimal.nzhead (Pos.to_uint p) /\ Pos.to_uint p <> Decimal.Nil.
Proof.
  split; [|apply DecimalPos.Unsigned.to_uint_nonnil].
  pose proof (DecimalPos.Unsigned.to_of (Pos.to_uint p)) as H.
  rewrite DecimalPos.Unsigned.of_to in H. simpl in H.
  unfold Decimal.unorm in H.
  destruct (Decimal.nzhead (Pos.to_uint p)) eqn:E; try exact H.
  exfalso. exact (DecimalPos.Unsigned.to_uint_nonzero p H).
Qed.

(** The digits of a positive number start with a digit that is not zero. *)
Lemma chars_of_positive (p : positive) :
  exists c ds,
    chars_of_uint (Pos.to_uint p) = c :: ds /\
    is_digit c = true /\ (c =? "0")%char = false /\ (c =? "-")%char = false /\
    Forall (fun c => is_digit c = true) ds.
Proof.
  pose proof (to_uint_normal p) as [Hn Hnil].
  pose proof (nzhead_head (Pos.to_uint p)) as Hh. rewrite <- Hn in Hh.
  pose proof (chars_of_uint_digits (Pos.to_uint p)) as Hd.
  destruct (Pos.to_uint p) eqn:E; try contradiction; simpl in *;
    inversion Hd; subst; eexists _, _; repeat split; assumption.
Qed.

Lemma of_uint_to_uint (p : positive) : Z.of_uint (Pos.to_uint p) = Z.pos p.
Proof.
  unfold Z.of_uint. rewrite DecimalPos.Unsigned.of_to. reflexivity.
Qed.

Lemma match_integer_positive (p : positive) (rest : list ascii) :
  number_stop rest = true ->
  match_integer (chars_of_uint (Pos.to_uint p) ++ rest)
  = Some (false, chars_of_uint (Pos.to_uint p), rest).
Proof.
  intros Hrest.
  destruct (chars_of_positive p) as (c & ds & E & Hc & H0 & Hm & Hds).
  rewrite E. unfold match_integer. simpl. rewrite Hm, H0, Hc.
  rewrite (span_digits_app ds rest Hds Hrest). reflexivity.
Qed.

Lemma match_integer_negative (p : positive) (rest : list ascii) :
  number_stop rest = true ->
  match_integer ("-"%char :: chars_of_uint (Pos.to_uint p) ++ rest)
  = Some (true, chars_of_uint (Pos.to_uint p), rest).
Proof.
  intros Hrest.
  destruct (chars_of_positive p) as (c & ds & E & Hc & H0 & Hm & Hds).
  rewrite E. unfold match_integer. simpl. rewrite H0, Hc.
  rewrite (span_digits_app ds rest Hds Hrest). reflexivity.
Qed.

Lemma scan_number_int (z : Z) (rest : list ascii) :
  number_stop rest = true ->
  scan_number (chars_of_int z ++ rest) = Ok (PInt z, rest).
Proof.
  intros Hrest. unfold scan_number, chars_of_int.
  destruct z as [|p|p]; simpl Z.to_int; cbv iota.
  - unfold match_integer. simpl. rewrite (number_stop_no_float rest Hrest). reflexivity.
  - rewrite (match_integer_positive p rest Hrest), (number_stop_no_float rest Hrest).
    rewrite uint_of_chars_of_uint, of_uint_to_uint. reflexivity.
  - cbn [app].
    rewrite (match_integer_negative p rest Hrest), (number_stop_no_float rest Hrest).
    rewrite uint_of_chars_of_uint, of_uint_to_uint. reflexivity.
Qed.

(** ** Rounding to the nearest integer *)

Lemma round_div_scale (n d c : Z) :
  0 < d -> 0 < c -> round_div (n * c) (d * c) = round_div n d.
Proof.
  intros Hd Hc. unfold round_div.
  rewrite Z.div_mul_cancel_r, Z.mul_mod_distr_r by lia.
  pose proof (Z.mod_pos_bound n d Hd) as Hr.
  set (q := n / d). set (r := n mod d) in *.
  assert (E1 : (d * c <? 2 * (r * c)) = (d <? 2 * r)).
  { destruct (Z.ltb_spec (d * c) (2 * (r * c))), (Z.ltb_spec d (2 * r)); (reflexivity || nia). }
  assert (E2 : (2 * (r * c) =? d * c) = (2 * r =? d)).
  { destruct (Z.eqb_spec (2 * (r * c)) (d * c)), (Z.eqb_spec (2 * r) d); (reflexivity || nia). }
  rewrite E1, E2. reflexivity.
Qed.

Lemma round_div_exact (q d : Z) : 0 < d -> round_div (q * d) d = q.
Proof.
  intros Hd. unfold round_div. rewrite Z.div_mul, Z.mod_mul by lia.
  destruct (Z.ltb_spec d (2 * 0)); [lia|]. destruct (Z.eqb_spec (2 * 0) d); [lia|]. reflexivity.
Qed.

Lemma round_div_le (n d hi : Z) : 0 < d -> n <= hi * d -> round_div n d <= hi.
Proof.
  intros Hd Hn. unfold round_div.
  pose proof (Z.mod_pos_bound n d Hd) as Hr. pose proof (Z.div_mod n d ltac:(lia)) as E.
  set (q := n / d) in *. set (r := n mod d) in *.
  destruct ((d <? 2 * r) || ((2 * r =? d) && Z.odd q)) eqn:B.
  - assert (0 < r).
    { apply Bool.orb_true_iff in B as [B|B]; [apply Z.ltb_lt in B; lia|].
      apply Bool.andb_true_iff in B as [B _]. apply Z.eqb_eq in B. lia. }
    nia.
  - nia.
Qed.

Lemma round_div_ge (n d lo : Z) : 0 < d -> lo * d <= n -> lo <= round_div n d.
Proof.
  intros Hd Hn. unfold round_div.
  pose proof (Z.mod_pos_bound n d Hd) as Hr. pose proof (Z.div_mod n d ltac:(lia)) as E.
  set (q := n / d) in *. set (r := n mod d) in *.
  assert (lo <= q) by nia.
  destruct ((d <? 2 * r) || ((2 * r =? d) && Z.odd q)); lia.
Qed.

(** ** The binary exponent of a fraction *)

Lemma pow2_pos (k : Z) : 0 <= k -> 0 < 2 ^ k.
Proof. intros H. apply Z.pow_pos_nonneg; lia. Qed.

Lemma pow2_split (a b : Z) : 0 <= a -> 0 <= b -> 2 ^ (a + b) = 2 ^ a * 2 ^ b.
Proof. intros. apply Z.pow_add_r; assumption. Qed.

(** [ge_pow2 N D k] read on the fraction scaled by [2^e]. *)
Lemma ge_pow2_shift (N D k e : Z) :
  0 < D -> e <= k ->
  ge_pow2 N D k
  = ((if 0 <=? e then D * 2 ^ e else D) * 2 ^ (k - e)
     <=? (if 0 <=? e then N else N * 2 ^ (- e))).
Proof.
  intros HD Hk. unfold ge_pow2.
  destruct (Z.leb_spec 0 e) as [He|He].
  - destruct (Z.leb_spec 0 k) as [_|]; [|lia].
    replace k with (e + (k - e)) at 1 by lia. rewrite pow2_split by lia.
    rewrite Z.mul_assoc. reflexivity.
  - pose proof (pow2_pos (- e) ltac:(lia)) as Pe.
    destruct (Z.leb_spec 0 k) as [Hk0|Hk0].
    + replace (k - e) with (k + - e) by lia. rewrite pow2_split by lia.
      pose proof (pow2_pos k Hk0) as Pk.
      destruct (Z.leb_spec (D * 2 ^ k) N), (Z.leb_spec (D * (2 ^ k * 2 ^ (- e))) (N * 2 ^ (- e)));
        (reflexivity || nia).
    + replace (- e) with (- k + (k - e)) by lia. rewrite pow2_split by lia.
      pose proof (pow2_pos (- k) ltac:(lia)) as Pk.
      pose proof (pow2_pos (k - e) ltac:(lia)) as Pke.
      destruct (Z.leb_spec D (N * 2 ^ (- k))),
               (Z.leb_spec (D * 2 ^ (k - e)) (N * (2 ^ (- k) * 2 ^ (k - e))));
        (reflexivity || nia).
Qed.

Lemma ge_pow2_antitone (N D k k' : Z) :
  0 < D -> k <= k' -> ge_pow2 N D k' = true -> ge_pow2 N D k = true.
Proof.
  intros HD Hk. rewrite (ge_pow2_shift N D k' k HD Hk), (ge_pow2_shift N D k k HD (Z.le_refl k)).
  rewrite Z.sub_diag. change (2 ^ 0) with 1.
  pose proof (pow2_pos (k' - k) ltac:(lia)) as P.
  set (den := if 0 <=? k then D * 2 ^ k else D).
  assert (Hden : 0 < den).
  { unfold den. destruct (Z.leb_spec 0 k); [|lia]. pose proof (pow2_pos k ltac:(lia)). nia. }
  intros H. apply Z.leb_le in H. apply Z.leb_le. nia.
Qed.

Lemma ge_pow2_scale (N D c k : Z) : 0 < c -> ge_pow2 (N * c) (D * c) k = ge_pow2 N D k.
Proof.
  intros Hc. unfold ge_pow2. destruct (0 <=? k).
  - destruct (Z.leb_spec (D * c * 2 ^ k) (N * c)), (Z.leb_spec (D * 2 ^ k) N);
      (reflexivity || nia).
  - destruct (Z.leb_spec (D * c) (N * c * 2 ^ (- k))), (Z.leb_spec D (N * 2 ^ (- k)));
      (reflexivity || nia).
Qed.

(** [ilog2 N D] is the [l] with [2^l <= N / D < 2^(l+1)]. *)
Lemma ilog2_spec (N D : Z) :
  0 < N -> 0 < D ->
  ge_pow2 N D (ilog2 N D) = true /\ ge_pow2 N D (ilog2 N D + 1) = false.
Proof.
  intros HN HD.
  destruct (Z.log2_spec N HN) as [Na Nb]. destruct (Z.log2_spec D HD) as [Da Db].
  pose proof (Z.log2_nonneg N) as An. pose proof (Z.log2_nonneg D) as Ad.
  set (a := Z.log2 N) in *. set (b := Z.log2 D) in *.
  rewrite <- Z.add_1_r in Nb, Db.
  assert (Hlow : ge_pow2 N D (a - b - 1) = true).
  { rewrite (ge_pow2_shift N D (a - b - 1) (- (b + 1)) HD ltac:(lia)).
    destruct (Z.leb_spec 0 (- (b + 1))); [lia|].
    replace (a - b - 1 - - (b + 1)) with a by lia.
    replace (- - (b + 1)) with (b + 1) by lia.
    pose proof (pow2_pos a An) as Pa. pose proof (pow2_pos (b + 1) ltac:(lia)) as Pb.
    apply Z.leb_le.
    apply Z.le_trans with (2 ^ (b + 1) * 2 ^ a);
      [apply Z.mul_le_mono_nonneg_r; lia|rewrite (Z.mul_comm N); apply Z.mul_le_mono_nonneg_l; lia]. }
  assert (Hhigh : ge_pow2 N D (a - b + 1) = false).
  { destruct (Z.eq_dec b 0) as [Eb|Eb].
    - rewrite (ge_pow2_shift N D (a - b + 1) 0 HD ltac:(lia)). change (0 <=? 0) with true.
      cbv iota. rewrite Eb in *. change (2 ^ 0) with 1 in *.
      replace (a - 0 + 1 - 0) with (a + 1) by lia. apply Z.leb_gt.
      apply Z.lt_le_trans with (2 ^ (a + 1)); [exact Nb|].
      rewrite <- (Z.mul_1_l (2 ^ (a + 1))) at 1.
      apply Z.mul_le_mono_nonneg_r; [apply Z.pow_nonneg|]; lia.
    - rewrite (ge_pow2_shift N D (a - b + 1) (- b) HD ltac:(lia)).
      destruct (Z.leb_spec 0 (- b)); [lia|].
      replace (a - b + 1 - - b) with (a + 1) by lia.
      replace (- - b) with b by lia.
      pose proof (pow2_pos b Ad) as Pb. apply Z.leb_gt.
      apply Z.lt_le_trans with (2 ^ (a + 1) * 2 ^ b);
        [apply Zmult_lt_compat_r; assumption|].
      rewrite (Z.mul_comm D). apply Z.mul_le_mono_nonneg_l; [apply Z.pow_nonneg|]; lia. }
  unfold ilog2. fold a b. cbv zeta.
  destruct (ge_pow2 N D (a - b)) eqn:E.
  - split; assumption.
  - split; [exact Hlow|]. replace (a - b - 1 + 1) with (a - b) by lia. exact E.
Qed.

Lemma ilog2_unique (N D l : Z) :
  0 < N -> 0 < D ->
  ge_pow2 N D l = true -> ge_pow2 N D (l + 1) = false -> ilog2 N D = l.
Proof.
  intros HN HD Hl Hl1. destruct (ilog2_spec N D HN HD) as [Hi Hi1].
  destruct (Z.lt_trichotomy (ilog2 N D) l) as [H|[H|H]]; [|exact H|].
  - rewrite (ge_pow2_antitone N D (ilog2 N D + 1) l HD ltac:(lia) Hl) in Hi1. discriminate.
  - rewrite (ge_pow2_antitone N D (l + 1) (ilog2 N D) HD ltac:(lia) Hi) in Hl1. discriminate.
Qed.

Lemma ilog2_scale (N D c : Z) :
  0 < N -> 0 < D -> 0 < c -> ilog2 (N * c) (D * c) = ilog2 N D.
Proof.
  intros HN HD Hc. destruct (ilog2_spec N D HN HD) as [Hi Hi1].
  apply ilog2_unique; [nia|nia|rewrite ge_pow2_scale by exact Hc; assumption..].
Qed.

(** ** [round_ratio] depends on the fraction only *)

Lemma round_ratio_scale (neg : bool) (N D c : Z) :
  0 < D -> 0 < c -> round_ratio neg (N * c) (D * c) = round_ratio neg N D.
Proof.
  intros HD Hc. unfold round_ratio.
  destruct (Z.leb_spec N 0) as [HN|HN].
  - destruct (Z.leb_spec (N * c) 0); [reflexivity|nia].
  - destruct (Z.leb_spec (N * c) 0); [nia|].
    rewrite (ilog2_scale N D c HN HD Hc).
    set (e := Z.max (ilog2 N D - 52) (-1074)). cbv zeta.
    assert (E : (if 0 <=? e then round_div (N * c) (D * c * 2 ^ e)
                 else round_div (N * c * 2 ^ (- e)) (D * c))
                = (if 0 <=? e then round_div N (D * 2 ^ e) else round_div (N * 2 ^ (- e)) D)).
    { destruct (Z.leb_spec 0 e).
      - replace (D * c * 2 ^ e) with (D * 2 ^ e * c) by ring.
        apply round_div_scale; [|exact Hc]. pose proof (pow2_pos e ltac:(lia)). nia.
      - replace (N * c * 2 ^ (- e)) with (N * 2 ^ (- e) * c) by ring.
        apply round_div_scale; assumption. }
    rewrite E. reflexivity.
Qed.

Lemma round_ratio_ratio (neg : bool) (N D N' D' : Z) :
  0 < D -> 0 < D' -> N * D' = N' * D -> round_ratio neg N D = round_ratio neg N' D'.
Proof.
  intros HD HD' E.
  rewrite <- (round_ratio_scale neg N D D' HD HD'), <- (round_ratio_scale neg N' D' D HD' HD).
  rewrite E, (Z.mul_comm D D'). reflexivity.
Qed.

(** [float] of a decimal is [round_ratio] of any fraction equal to it. *)
Lemma float_of_decimal_ratio (neg : bool) (d k N D : Z) :
  0 < D ->
  (if 0 <=? k then N = d * 10 ^ k * D else N * 10 ^ (- k) = d * D) ->
  float_of_decimal neg d k = round_ratio neg N D.
Proof.
  intros HD. unfold float_of_decimal. destruct (Z.leb_spec 0 k) as [Hk|Hk]; intros H.
  - apply round_ratio_ratio; lia.
  - apply round_ratio_ratio; [apply Z.pow_pos_nonneg; lia|exact HD|lia].
Qed.

Lemma pow10_split (a b : Z) : 0 <= a -> 0 <= b -> 10 ^ (a + b) = 10 ^ a * 10 ^ b.
Proof. intros. apply Z.pow_add_r; assumption. Qed.

(** Zeros at the end of the digits count as a larger exponent. *)
Lemma float_of_decimal_zeros (neg : bool) (a j k : Z) :
  0 <= j -> float_of_decimal neg (a * 10 ^ j) k = float_of_decimal neg a (k + j).
Proof.
  intros Hj. unfold float_of_decimal at 2.
  destruct (Z.leb_spec 0 (k + j)) as [H|H].
  - apply float_of_decimal_ratio; [lia|].
    destruct (Z.leb_spec 0 k).
    + rewrite pow10_split by lia. ring.
    + assert (E : 10 ^ j = 10 ^ (k + j) * 10 ^ (- k))
        by (rewrite <- pow10_split by lia; f_equal; lia).
      rewrite E. ring.
  - apply float_of_decimal_ratio; [apply Z.pow_pos_nonneg; lia|].
    destruct (Z.leb_spec 0 k); [lia|].
    assert (E : 10 ^ (- k) = 10 ^ (- (k + j)) * 10 ^ j)
      by (rewrite <- pow10_split by lia; f_equal; lia).
    rewrite E. ring.
Qed.

(** ** What [float] returns is in canonical form *)

Lemma scaled_den_pos (D e : Z) : 0 < D -> 0 < (if 0 <=? e then D * 2 ^ e else D).
Proof.
  intros HD. destruct (Z.leb_spec 0 e); [|exact HD].
  apply Z.mul_pos_pos; [exact HD|apply pow2_pos; assumption].
Qed.

Lemma scaled_num_pos (N e : Z) : 0 < N -> 0 < (if 0 <=? e then N else N * 2 ^ (- e)).
Proof.
  intros HN. destruct (Z.leb_spec 0 e); [exact HN|].
  apply Z.mul_pos_pos; [exact HN|apply pow2_pos; lia].
Qed.

Lemma round_div_scaled (N D e : Z) :
  (if 0 <=? e then round_div N (D * 2 ^ e) else round_div (N * 2 ^ (- e)) D)
  = round_div (if 0 <=? e then N else N * 2 ^ (- e)) (if 0 <=? e then D * 2 ^ e else D).
Proof. destruct (0 <=? e); reflexivity. Qed.

Lemma float_ok_normal (neg : bool) (m e : Z) :
  2 ^ 52 <= m < 2 ^ 53 -> -1074 <= e <= 971 -> float_ok (FFinite neg m e) = true.
Proof.
  intros Hm He. unfold float_ok. apply Bool.orb_true_iff. right.
  rewrite !Bool.andb_true_iff, !Z.leb_le, Z.ltb_lt. lia.
Qed.

Lemma float_ok_subnormal (neg : bool) (m : Z) :
  0 <= m < 2 ^ 52 -> float_ok (FFinite neg m (-1074)) = true.
Proof.
  intros Hm. unfold float_ok. apply Bool.orb_true_iff. left.
  rewrite !Bool.andb_true_iff, Z.leb_le, Z.ltb_lt, Z.eqb_eq. lia.
Qed.

Lemma round_ratio_ok (neg : bool) (N D : Z) : 0 < D -> float_ok (round_ratio neg N D) = true.
Proof.
  intros HD. unfold round_ratio.
  destruct (Z.leb_spec N 0) as [HN|HN]; [reflexivity|].
  destruct (ilog2_spec N D HN HD) as [Hl Hl1].
  set (l := ilog2 N D) in *. set (e := Z.max (l - 52) (-1074)). cbv zeta.
  rewrite round_div_scaled.
  pose proof (scaled_den_pos D e HD) as Hden. pose proof (scaled_num_pos N e HN) as Hnum.
  pose proof (ge_pow2_shift N D (e + 52) e HD ltac:(lia)) as S52.
  pose proof (ge_pow2_shift N D (e + 53) e HD ltac:(lia)) as S53.
  replace (e + 52 - e) with 52 in S52 by lia. replace (e + 53 - e) with 53 in S53 by lia.
  set (num := if 0 <=? e then N else N * 2 ^ (- e)) in *.
  set (den := if 0 <=? e then D * 2 ^ e else D) in *.
  assert (G53 : ge_pow2 N D (e + 53) = false).
  { destruct (ge_pow2 N D (e + 53)) eqn:G; [|reflexivity].
    rewrite (ge_pow2_antitone N D (l + 1) (e + 53) HD ltac:(lia) G) in Hl1. discriminate. }
  rewrite G53 in S53. symmetry in S53. apply Z.leb_gt in S53.
  assert (Hq0 : 0 <= round_div num den) by (apply round_div_ge; lia).
  assert (Hq53 : round_div num den <= 2 ^ 53) by (apply round_div_le; lia).
  destruct (Z.max_spec (l - 52) (-1074)) as [[Hlt Ee]|[Hle Ee]]; fold e in Ee.
  - assert (G52 : ge_pow2 N D (e + 52) = false).
    { destruct (ge_pow2 N D (e + 52)) eqn:G; [|reflexivity].
      rewrite (ge_pow2_antitone N D (l + 1) (e + 52) HD ltac:(lia) G) in Hl1. discriminate. }
    rewrite G52 in S52. symmetry in S52. apply Z.leb_gt in S52.
    assert (Hq52 : round_div num den <= 2 ^ 52) by (apply round_div_le; lia).
    destruct (Z.eqb_spec (round_div num den) (2 ^ 53)) as [E|_]; [lia|].
    destruct (Z.ltb_spec 971 e); [lia|]. rewrite Ee.
    destruct (Z.eq_dec (round_div num den) (2 ^ 52)) as [E|E].
    + rewrite E. apply float_ok_normal; lia.
    + apply float_ok_subnormal. lia.
  - replace (e + 52) with l in S52 by lia. rewrite Hl in S52. symmetry in S52.
    apply Z.leb_le in S52.
    assert (Hq52 : 2 ^ 52 <= round_div num den) by (apply round_div_ge; lia).
    destruct (Z.eqb_spec (round_div num den) (2 ^ 53)) as [E|E].
    + destruct (Z.ltb_spec 971 (e + 1)); [reflexivity|]. apply float_ok_normal; lia.
    + destruct (Z.ltb_spec 971 e); [reflexivity|]. apply float_ok_normal; lia.
Qed.

Lemma float_of_decimal_ok (neg : bool) (d k : Z) : float_ok (float_of_decimal neg d k) = true.
Proof.
  unfold float_of_decimal. destruct (Z.leb_spec 0 k); apply round_ratio_ok;
    [lia|apply Z.pow_pos_nonneg; lia].
Qed.

Lemma float_of_literal_ok (neg : bool) (ds fs : list ascii) (x : Z) :
  float_ok (float_of_literal neg ds fs x) = true.
Proof. apply float_of_decimal_ok. Qed.

(** ** [float] reads the full decimal of a float back as that float *)

Lemma float_ok_cases (neg : bool) (m e : Z) :
  float_ok (FFinite neg m e) = true ->
  (0 <= m < 2 ^ 52 /\ e = -1074) \/ (2 ^ 52 <= m < 2 ^ 53 /\ -1074 <= e <= 971).
Proof.
  unfold float_ok. rewrite Bool.orb_true_iff, !Bool.andb_true_iff, !Z.leb_le, !Z.ltb_lt, Z.eqb_eq.
  lia.
Qed.

Lemma round_ratio_exact (neg : bool) (m e N D : Z) :
  0 < m -> float_ok (FFinite neg m e) = true -> 0 < D ->
  (if 0 <=? e then N else N * 2 ^ (- e)) = m * (if 0 <=? e then D * 2 ^ e else D) ->
  round_ratio neg N D = FFinite neg m e.
Proof.
  intros Hm Hok HD Hnum.
  pose proof (scaled_den_pos D e HD) as Hden.
  assert (HN : 0 < N).
  { destruct (Z.leb_spec 0 e); [nia|].
    pose proof (pow2_pos (- e) ltac:(lia)). nia. }
  destruct (Z.log2_spec m Hm) as [Ma Mb]. rewrite <- Z.add_1_r in Mb.
  pose proof (Z.log2_nonneg m) as Mn.
  assert (El : ilog2 N D = Z.log2 m + e).
  { apply ilog2_unique; [exact HN|exact HD|..].
    - rewrite (ge_pow2_shift N D (Z.log2 m + e) e HD ltac:(lia)), Hnum.
      replace (Z.log2 m + e - e) with (Z.log2 m) by lia. apply Z.leb_le. nia.
    - rewrite (ge_pow2_shift N D (Z.log2 m + e + 1) e HD ltac:(lia)), Hnum.
      replace (Z.log2 m + e + 1 - e) with (Z.log2 m + 1) by lia. apply Z.leb_gt. nia. }
  assert (Ee : Z.max (Z.log2 m + e - 52) (-1074) = e /\ m < 2 ^ 53 /\ e <= 971).
  { destruct (float_ok_cases neg m e Hok) as [[H1 H2]|[H1 H2]].
    - assert (Z.log2 m < 52) by (apply Z.log2_lt_pow2; lia). lia.
    - assert (Z.log2 m = 52) by (apply Z.log2_unique; [lia|]; exact H1). lia. }
  destruct Ee as (Ee & Hm53 & He).
  unfold round_ratio. destruct (Z.leb_spec N 0); [lia|].
  rewrite El, Ee. cbv zeta. rewrite round_div_scaled, Hnum, round_div_exact by exact Hden.
  destruct (Z.eqb_spec m (2 ^ 53)); [lia|]. destruct (Z.ltb_spec 971 e); [lia|]. reflexivity.
Qed.

Lemma pow10_2_5 (n : Z) : 0 <= n -> 10 ^ n = 2 ^ n * 5 ^ n.
Proof. intros H. change 10 with (2 * 5). apply Z.pow_mul_l. Qed.

Lemma float_of_exact_decimal (neg : bool) (m e : Z) :
  0 < m -> float_ok (FFinite neg m e) = true ->
  float_of_decimal neg (fst (exact_decimal m e)) (snd (exact_decimal m e)) = FFinite neg m e.
Proof.
  intros Hm Hok. unfold exact_decimal. destruct (Z.leb_spec 0 e) as [He|He]; cbn [fst snd].
  - rewrite (float_of_decimal_ratio neg _ 0 (m * 2 ^ e) 1 ltac:(lia));
      [|change (0 <=? 0) with true; cbv iota; change (10 ^ 0) with 1; ring].
    apply (round_ratio_exact neg m e); [exact Hm|exact Hok|lia|].
    destruct (Z.leb_spec 0 e); [ring|lia].
  - rewrite (float_of_decimal_ratio neg _ e m (2 ^ (- e))).
    + apply (round_ratio_exact neg m e); [exact Hm|exact Hok|apply pow2_pos; lia|].
      destruct (Z.leb_spec 0 e); [lia|reflexivity].
    + apply pow2_pos; lia.
    + destruct (Z.leb_spec 0 e); [lia|]. rewrite pow10_2_5 by lia. ring.
Qed.

Lemma exact_decimal_pos (m e : Z) : 0 < m -> 0 < fst (exact_decimal m e).
Proof.
  intros Hm. unfold exact_decimal. destruct (Z.leb_spec 0 e); cbn [fst];
    apply Z.mul_pos_pos; try exact Hm; apply Z.pow_pos_nonneg; lia.
Qed.

(** A decimal that is not positive reads as a zero. *)
Lemma float_of_decimal_nonpos (neg : bool) (d k : Z) :
  d <= 0 -> float_of_decimal neg d k = FFinite neg 0 (-1074).
Proof.
  intros Hd. unfold float_of_decimal, round_ratio. destruct (Z.leb_spec 0 k).
  - pose proof (Z.pow_pos_nonneg 10 k ltac:(lia) ltac:(lia)).
    destruct (Z.leb_spec (d * 10 ^ k) 0); [reflexivity|nia].
  - destruct (Z.leb_spec d 0); [reflexivity|lia].
Qed.

(** ** The value of a run of digits *)

Lemma pow10_succ (n : nat) : 10 ^ Z.of_nat (S n) = 10 * 10 ^ Z.of_nat n.
Proof. rewrite Nat2Z.inj_succ. apply Z.pow_succ_r. lia. Qed.

Lemma decimal_value_acc (ds : list ascii) (acc : Z) :
  fold_left (fun a c => 10 * a + digit_value c) ds acc
  = acc * 10 ^ Z.of_nat (List.length ds) + decimal_value ds.
Proof.
  unfold decimal_value. revert acc. induction ds as [|c ds IH]; intros acc.
  - simpl. lia.
  - cbn [fold_left List.length]. rewrite (IH (10 * acc + digit_value c)), (IH (10 * 0 + digit_value c)).
    rewrite pow10_succ. ring.
Qed.

Lemma decimal_value_cons (c : ascii) (ds : list ascii) :
  decimal_value (c :: ds) = digit_value c * 10 ^ Z.of_nat (List.length ds) + decimal_value ds.
Proof.
  unfold decimal_value at 1. cbn [fold_left]. rewrite decimal_value_acc. ring.
Qed.

Lemma decimal_value_app (a b : list ascii) :
  decimal_value (a ++ b) = decimal_value a * 10 ^ Z.of_nat (List.length b) + decimal_value b.
Proof.
  unfold decimal_value at 1. rewrite fold_left_app. fold (decimal_value a).
  apply decimal_value_acc.
Qed.

Lemma decimal_value_zeros (n : nat) : decimal_value (repeat "0"%char n) = 0.
Proof.
  induction n as [|n IH]; [reflexivity|].
  cbn [repeat]. rewrite decimal_value_cons, IH. reflexivity.
Qed.

Lemma digit_value_range (c : ascii) : is_digit c = true -> 0 <= digit_value c <= 9.
Proof.
  unfold is_digit, digit_value. intros H. apply Bool.andb_true_iff in H as [H1 H2].
  apply N.leb_le in H1, H2. lia.
Qed.

Lemma decimal_value_nonneg (ds : list ascii) :
  Forall (fun c => is_digit c = true) ds -> 0 <= decimal_value ds.
Proof.
  induction 1 as [|c ds Hc _ IH]; [reflexivity|].
  rewrite decimal_value_cons. pose proof (digit_value_range c Hc).
  pose proof (Z.pow_nonneg 10 (Z.of_nat (List.length ds)) ltac:(lia)). nia.
Qed.

Lemma of_uint_acc_value (u : Decimal.uint) (acc : positive) :
  Z.pos (Pos.of_uint_acc u acc)
  = fold_left (fun a c => 10 * a + digit_value c) (chars_of_uint u) (Z.pos acc).
Proof.
  revert acc. induction u; intros acc; cbn [Pos.of_uint_acc chars_of_uint fold_left];
    [reflexivity|rewrite IHu; f_equal..].
  all: unfold digit_value; simpl N_of_ascii; lia.
Qed.

Lemma decimal_value_of_uint (u : Decimal.uint) :
  decimal_value (chars_of_uint u) = Z.of_uint u.
Proof.
  unfold Z.of_uint. induction u; cbn [Pos.of_uint chars_of_uint];
    [reflexivity|rewrite decimal_value_cons, IHu; reflexivity|..].
  all: rewrite N2Z.inj_pos, of_uint_acc_value; reflexivity.
Qed.

Lemma decimal_value_positive (p : positive) :
  decimal_value (chars_of_int (Z.pos p)) = Z.pos p.
Proof.
  unfold chars_of_int. cbn [Z.to_int]. rewrite decimal_value_of_uint. apply of_uint_to_uint.
Qed.

(** ** Digits without the zeros at the end *)

Lemma repeat_snoc (c : ascii) (n : nat) : repeat c n ++ [c] = c :: repeat c n.
Proof. induction n as [|n IH]; [reflexivity|]. simpl. rewrite IH. reflexivity. Qed.

Lemma rev_repeat_same (c : ascii) (n : nat) : rev (repeat c n) = repeat c n.
Proof.
  induction n as [|n IH]; [reflexivity|]. cbn [repeat rev]. rewrite IH. apply repeat_snoc.
Qed.

Lemma drop_zeros_split (l : list ascii) :
  exists z, l = repeat "0"%char z ++ drop_zeros l.
Proof.
  induction l as [|c l (z & IH)]; [exists 0%nat; reflexivity|].
  cbn [drop_zeros]. destruct (c =? "0")%char eqn:E.
  - apply Ascii.eqb_eq in E. subst c. exists (S z). cbn [repeat app]. rewrite <- IH. reflexivity.
  - exists 0%nat. reflexivity.
Qed.

Lemma Forall_digits_repeat (n : nat) : Forall (fun c => is_digit c = true) (repeat "0"%char n).
Proof. induction n; simpl; constructor; (reflexivity || assumption). Qed.

(** The digits [float_digits] keeps: they start with the first digit of
    [d], and [d] is their value followed by the zeros dropped. *)
Lemma float_digits_positive (p : positive) (k : Z) :
  exists c ds z,
    float_digits (Z.pos p) k
    = (c :: ds, Z.of_nat (List.length (c :: ds)) + Z.of_nat z + k) /\
    is_digit c = true /\ (c =? "0")%char = false /\
    Forall (fun c => is_digit c = true) ds /\
    decimal_value (c :: ds) * 10 ^ Z.of_nat z = Z.pos p.
Proof.
  unfold float_digits. pose proof (decimal_value_positive p) as Hv. revert Hv.
  unfold chars_of_int. cbn [Z.to_int].
  destruct (chars_of_positive p) as (c & tl & E & Hc & H0 & _ & Htl). rewrite E. intros Hv.
  destruct (drop_zeros_split (rev (c :: tl))) as (z & Hz).
  apply (f_equal (@rev ascii)) in Hz. rewrite rev_involutive, rev_app_distr, rev_repeat_same in Hz.
  set (ds := rev (drop_zeros (rev (c :: tl)))) in *.
  assert (Hds : Forall (fun c => is_digit c = true) ds).
  { assert (Hall : Forall (fun c => is_digit c = true) (c :: tl)) by (constructor; assumption).
    rewrite Hz in Hall. apply Forall_app in Hall as [Hall _]. exact Hall. }
  destruct ds as [|c' ds'].
  - exfalso. cbn [app] in Hz. destruct z as [|z]; [discriminate|].
    cbn [repeat] in Hz. injection Hz as -> _. discriminate.
  - cbn [app] in Hz. injection Hz as <- Htl'.
    exists c, ds', z. split; [|split; [exact Hc|split; [exact H0|split]]].
    + f_equal. rewrite Htl'. cbn [List.length]. rewrite length_app, repeat_length. lia.
    + inversion Hds; assumption.
    + rewrite <- Hv, Htl'. change (c :: ds' ++ repeat "0"%char z) with ((c :: ds') ++ repeat "0"%char z).
      rewrite decimal_value_app, decimal_value_zeros, repeat_length. ring.
Qed.

(** ** The parts of a float literal *)

Lemma number_stop_digit_stop (rest : list ascii) :
  number_stop rest = true -> digit_stop rest = true.
Proof.
  destruct rest as [|c r]; simpl; [reflexivity|].
  destruct (is_digit c); simpl; [discriminate|reflexivity].
Qed.

Lemma span_digits_stop (ds rest : list ascii) :
  Forall (fun c => is_digit c = true) ds ->
  digit_stop rest = true ->
  span_digits (ds ++ rest) = (ds, rest).
Proof.
  intros Hds Hrest. induction Hds as [|c ds Hc _ IH]; simpl.
  - destruct rest as [|c r]; [reflexivity|]. simpl in *.
    destruct (is_digit c); [discriminate|reflexivity].
  - rewrite Hc, IH. reflexivity.
Qed.

Lemma digit_not_minus (c : ascii) : is_digit c = true -> (c =? "-")%char = false.
Proof. each_char c; intros H; try discriminate H; reflexivity. Qed.

Lemma match_integer_signed (neg : bool) (c : ascii) (r : list ascii) :
  is_digit c = true ->
  match_integer (sign_text neg ++ c :: r)
  = if (c =? "0")%char then Some (neg, [c], r)
    else let (ds, rest) := span_digits r in Some (neg, c :: ds, rest).
Proof.
  intros Hc. unfold match_integer, sign_text. destruct neg; cbn [app tl].
  - change (("-" =? "-")%char) with true. cbv iota. rewrite Hc. reflexivity.
  - rewrite (digit_not_minus c Hc), Hc. reflexivity.
Qed.

(** The integer part: a single zero, or digits that start with another
    digit. *)
Lemma match_integer_literal (neg : bool) (c : ascii) (r tail : list ascii) :
  is_digit c = true ->
  Forall (fun c => is_digit c = true) r ->
  ((c =? "0")%char = true -> r = []) ->
  digit_stop tail = true ->
  match_integer (sign_text neg ++ (c :: r) ++ tail) = Some (neg, c :: r, tail).
Proof.
  intros Hc Hr H0 Htail. cbn [app]. rewrite (match_integer_signed neg c _ Hc).
  destruct (c =? "0")%char.
  - rewrite (H0 eq_refl). reflexivity.
  - rewrite (span_digits_stop r tail Hr Htail). reflexivity.
Qed.

Lemma scan_frac_dot (c : ascii) (fs tail : list ascii) :
  Forall (fun c => is_digit c = true) (c :: fs) ->
  digit_stop tail = true ->
  has_frac ("."%char :: (c :: fs) ++ tail) = true /\
  scan_frac ("."%char :: (c :: fs) ++ tail) = (c :: fs, tail).
Proof.
  intros Hfs Htail.
  assert (Hf : has_frac ("."%char :: (c :: fs) ++ tail) = true).
  { cbn [has_frac app]. inversion Hfs as [|? ? Hc _]; subst. rewrite Hc. reflexivity. }
  split; [exact Hf|]. unfold scan_frac. rewrite Hf. cbn [tl].
  apply span_digits_stop; assumption.
Qed.

Lemma chars_of_nonneg (n : Z) :
  0 <= n ->
  exists c r, chars_of_int n = c :: r /\ Forall (fun c => is_digit c = true) (c :: r) /\
              decimal_value (c :: r) = n.
Proof.
  intros Hn. destruct n as [|p|p]; [| |lia].
  - exists "0"%char, []. repeat split. repeat constructor.
  - destruct (chars_of_positive p) as (c & ds & E & Hc & _ & _ & Hds).
    pose proof (decimal_value_positive p) as Hv. unfold chars_of_int in *. cbn [Z.to_int] in *.
    rewrite E in *. exists c, ds. repeat split; [constructor; assumption|exact Hv].
Qed.

Lemma scan_exp_text (x : Z) (rest : list ascii) :
  digit_stop rest = true ->
  has_frac ("e"%char :: exponent_text x ++ rest) = false /\
  has_exp ("e"%char :: exponent_text x ++ rest) = true /\
  scan_exp ("e"%char :: exponent_text x ++ rest) = (x, rest).
Proof.
  intros Hrest. unfold exponent_text.
  destruct (chars_of_nonneg (Z.abs x) (Z.abs_nonneg x)) as (c & r & E & Hd & Hv). rewrite E.
  set (t := if (List.length (c :: r) <? 2)%nat then "0"%char :: c :: r else c :: r).
  assert (Ht : exists c' r', t = c' :: r' /\ Forall (fun c => is_digit c = true) (c' :: r') /\
                             decimal_value (c' :: r') = Z.abs x).
  { unfold t. destruct (List.length (c :: r) <? 2)%nat.
    - exists "0"%char, (c :: r). split; [reflexivity|]. split; [constructor; [reflexivity|exact Hd]|].
      rewrite decimal_value_cons. exact Hv.
    - exists c, r. repeat split; assumption. }
  destruct Ht as (c' & r' & -> & Hd' & Hv').
  assert (Hc' : is_digit c' = true) by (inversion Hd'; assumption).
  assert (Hspan : span_digits ((c' :: r') ++ rest) = (c' :: r', rest))
    by (apply span_digits_stop; assumption).
  split; [reflexivity|].
  destruct (Z.ltb_spec x 0) as [Hx|Hx].
  - assert (He : has_exp ("e"%char :: ("-"%char :: c' :: r') ++ rest) = true)
      by (cbn [has_exp app]; rewrite Hc'; reflexivity).
    split; [exact He|]. unfold scan_exp. rewrite He. cbn [app tl].
    change (is_digit "-") with false. cbv iota. change (c' :: r' ++ rest) with ((c' :: r') ++ rest).
    rewrite Hspan. change (("-" =? "-")%char) with true. cbv iota. f_equal. lia.
  - assert (He : has_exp ("e"%char :: ("+"%char :: c' :: r') ++ rest) = true)
      by (cbn [has_exp app]; rewrite Hc'; reflexivity).
    split; [exact He|]. unfold scan_exp. rewrite He. cbn [app tl].
    change (is_digit "+") with false. cbv iota. change (c' :: r' ++ rest) with ((c' :: r') ++ rest).
    rewrite Hspan. change (("+" =? "-")%char) with false. cbv iota. f_equal. lia.
Qed.

Lemma number_stop_scans (rest : list ascii) :
  number_stop rest = true ->
  has_frac rest = false /\ has_exp rest = false /\
  scan_frac rest = ([], rest) /\ scan_exp rest = (0, rest).
Proof.
  intros H. apply number_stop_no_float in H. apply Bool.orb_false_iff in H as [Hf He].
  unfold scan_frac, scan_exp. rewrite Hf, He. repeat split.
Qed.

(** A float literal, part by part: sign, integer part [ip], fraction [ft]
    with the digits [fs], exponent [et] with the value [x]. *)
Lemma scan_number_literal (neg : bool) (c : ascii) (r fs ft et : list ascii) (x : Z)
    (rest : list ascii) :
  is_digit c = true ->
  Forall (fun c => is_digit c = true) r ->
  ((c =? "0")%char = true -> r = []) ->
  Forall (fun c => is_digit c = true) fs ->
  (fs = [] /\ ft = [] \/ fs <> [] /\ ft = "."%char :: fs) ->
  (et = [] /\ x = 0 \/ et = "e"%char :: exponent_text x) ->
  (fs = [] -> et <> []) ->
  number_stop rest = true ->
  scan_number (sign_text neg ++ (c :: r) ++ ft ++ et ++ rest)
  = Ok (PFloat (float_of_literal neg (c :: r) fs x), rest).
Proof.
  intros Hc Hr H0 Hfs Hft Het Hne Hrest.
  pose proof (number_stop_digit_stop rest Hrest) as Hstop.
  destruct (number_stop_scans rest Hrest) as (Sf & Se & Sfrac & Sexp).
  (* the exponent *)
  assert (Hexp : digit_stop (et ++ rest) = true /\
                 has_frac (et ++ rest) = false /\
                 (et <> [] -> has_exp (et ++ rest) = true) /\
                 scan_exp (et ++ rest) = (x, rest)).
  { destruct Het as [[-> ->] | ->].
    - cbn [app]. repeat split; try assumption. intros H. contradiction.
    - destruct (scan_exp_text x rest Hstop) as (A & B & C).
      cbn [app]. repeat split; try assumption. intros _. exact B. }
  destruct Hexp as (Estop & Ef & Ee & Escan).
  (* the fraction *)
  assert (Hfrac : digit_stop (ft ++ et ++ rest) = true /\
                  has_frac (ft ++ et ++ rest) || has_exp (ft ++ et ++ rest) = true /\
                  scan_frac (ft ++ et ++ rest) = (fs, et ++ rest)).
  { destruct Hft as [[-> ->] | [Hn ->]].
    - cbn [app]. split; [exact Estop|]. split.
      + rewrite (Ee (Hne eq_refl)). apply Bool.orb_true_r.
      + unfold scan_frac. rewrite Ef. reflexivity.
    - destruct fs as [|f0 fs]; [contradiction|].
      destruct (scan_frac_dot f0 fs (et ++ rest) Hfs Estop) as [A B].
      change (("."%char :: f0 :: fs) ++ et ++ rest) with ("."%char :: (f0 :: fs) ++ et ++ rest).
      split; [reflexivity|]. split; [rewrite A; reflexivity|exact B]. }
  destruct Hfrac as (Fstop & Fhas & Fscan).
  unfold scan_number.
  rewrite (match_integer_literal neg c r _ Hc Hr H0 Fstop), Fhas, Fscan, Escan. reflexivity.
Qed.

(** ** [scan_number] reads what [format_repr] writes *)

Lemma float_result_eq (neg : bool) (d k k' : Z) (rest : list ascii) :
  k = k' ->
  Ok (PFloat (float_of_decimal neg d k), rest) = Ok (PFloat (float_of_decimal neg d k'), rest).
Proof. intros ->. reflexivity. Qed.

Lemma format_repr_scans (neg : bool) (c : ascii) (ds : list ascii) (decpt : Z)
    (rest : list ascii) :
  is_digit c = true -> (c =? "0")%char = false ->
  Forall (fun c => is_digit c = true) ds ->
  number_stop rest = true ->
  scan_number (sign_text neg ++ format_repr (c :: ds) decpt ++ rest)
  = Ok (PFloat (float_of_decimal neg (decimal_value (c :: ds))
                  (decpt - Z.of_nat (List.length (c :: ds)))), rest).
Proof.
  intros Hc H0 Hds Hrest.
  assert (Hnz : (c =? "0")%char = true -> ds = []) by (rewrite H0; discriminate).
  assert (Hlen : Z.of_nat (List.length (c :: ds)) = Z.of_nat (List.length ds) + 1)
    by (cbn [List.length]; lia).
  unfold format_repr.
  destruct ((decpt <=? -4) || (16 <? decpt)) eqn:B; [|apply Bool.orb_false_iff in B as [B1 B2]].
  - (* exponent notation *)
    set (ft := match ds with [] => [] | _ :: _ => "."%char :: ds end).
    set (et := "e"%char :: exponent_text (decpt - 1)).
    assert (Et : (c :: ft ++ et) ++ rest = [c] ++ ft ++ et ++ rest)
      by (cbn [app]; rewrite <- app_assoc; reflexivity).
    rewrite Et.
    rewrite (scan_number_literal neg c [] ds ft et (decpt - 1) rest Hc (Forall_nil _)
               (fun _ => eq_refl) Hds).
    + unfold float_of_literal. cbn [app]. apply float_result_eq. lia.
    + unfold ft. destruct ds; [left; split; reflexivity|right; split; [discriminate|reflexivity]].
    + right. reflexivity.
    + intros _. discriminate.
    + exact Hrest.
  - apply Z.leb_gt in B1. apply Z.ltb_ge in B2. destruct (Z.leb_spec decpt 0) as [B3|B3].
    + (* zeros after the point *)
      set (n := Z.to_nat (- decpt)).
      set (fs := repeat "0"%char n ++ c :: ds).
      assert (Hfs : Forall (fun c => is_digit c = true) fs).
      { apply Forall_app. split; [apply Forall_digits_repeat|constructor; assumption]. }
      assert (Hne : fs <> []) by (unfold fs; destruct (repeat "0"%char n); discriminate).
      assert (Et : ("0"%char :: "."%char :: fs) ++ rest
                   = ["0"%char] ++ ("."%char :: fs) ++ [] ++ rest) by reflexivity.
      rewrite Et.
      rewrite (scan_number_literal neg "0" [] fs ("."%char :: fs) [] 0 rest eq_refl
                 (Forall_nil _) (fun _ => eq_refl) Hfs).
      * unfold float_of_literal. cbn [app]. rewrite decimal_value_cons.
        unfold fs. rewrite decimal_value_app, decimal_value_zeros, length_app, repeat_length.
        change (digit_value "0") with 0. rewrite !Z.mul_0_l, !Z.add_0_l.
        apply float_result_eq. unfold n. lia.
      * right. split; [exact Hne|reflexivity].
      * left. split; reflexivity.
      * intros E. contradiction.
      * exact Hrest.
    + destruct (Z.leb_spec (Z.of_nat (List.length (c :: ds))) decpt) as [B4|B4].
      * (* zeros before the point *)
        set (n := Z.to_nat (decpt - Z.of_nat (List.length (c :: ds)))).
        assert (Et : ((c :: ds) ++ repeat "0"%char n ++ chars ".0") ++ rest
                     = (c :: ds ++ repeat "0"%char n) ++ ("."%char :: ["0"%char]) ++ [] ++ rest).
        { cbn [app]. rewrite <- !app_assoc. reflexivity. }
        rewrite Et.
        rewrite (scan_number_literal neg c (ds ++ repeat "0"%char n) ["0"%char]
                   ("."%char :: ["0"%char]) [] 0 rest Hc).
        -- unfold float_of_literal.
           rewrite decimal_value_app.
           change (c :: ds ++ repeat "0"%char n) with ((c :: ds) ++ repeat "0"%char n).
           rewrite decimal_value_app, decimal_value_zeros, repeat_length.
           change (decimal_value ["0"%char]) with 0.
           change (Z.of_nat (List.length ["0"%char])) with 1.
           replace (((decimal_value (c :: ds) * 10 ^ Z.of_nat n + 0) * 10 ^ 1 + 0))
             with (decimal_value (c :: ds) * 10 ^ (Z.of_nat n + 1))
             by (rewrite Z.pow_add_r by lia; ring).
           rewrite float_of_decimal_zeros by lia. apply float_result_eq.
           unfold n. lia.
        -- apply Forall_app. split; [exact Hds|apply Forall_digits_repeat].
        -- rewrite H0. discriminate.
        -- repeat constructor.
        -- right. split; [discriminate|reflexivity].
        -- left. split; reflexivity.
        -- discriminate.
        -- exact Hrest.
      * (* the point inside the digits *)
        destruct (Z.to_nat decpt) as [|j] eqn:Ej; [lia|].
        cbn [firstn skipn].
        assert (Hj : (j < List.length ds)%nat) by (cbn [List.length] in B4; lia).
        pose proof (firstn_skipn j ds) as Hsplit.
        assert (Hparts : Forall (fun c => is_digit c = true) (firstn j ds) /\
                         Forall (fun c => is_digit c = true) (skipn j ds)).
        { apply Forall_app. rewrite Hsplit. exact Hds. }
        destruct Hparts as [Hf Hs].
        assert (Hlen' : List.length (skipn j ds) = (List.length ds - j)%nat)
          by apply length_skipn.
        assert (Hne : skipn j ds <> []).
        { intros E. rewrite E in Hlen'. cbn [List.length] in Hlen'. lia. }
        assert (Et : ((c :: firstn j ds) ++ "."%char :: skipn j ds) ++ rest
                     = (c :: firstn j ds) ++ ("."%char :: skipn j ds) ++ [] ++ rest).
        { cbn [app]. rewrite <- app_assoc. reflexivity. }
        rewrite Et.
        rewrite (scan_number_literal neg c (firstn j ds) (skipn j ds)
                   ("."%char :: skipn j ds) [] 0 rest Hc Hf).
        -- unfold float_of_literal. cbn [app]. rewrite Hsplit, Hlen'. apply float_result_eq.
           lia.
        -- rewrite H0. discriminate.
        -- exact Hs.
        -- right. split; [exact Hne|reflexivity].
        -- left. split; reflexivity.
        -- intros E. contradiction.
        -- exact Hrest.
Qed.

(** The text of a positive decimal reads as the float nearest to it. *)
Lemma float_digits_scans (neg : bool) (d k : Z) (rest : list ascii) :
  0 < d -> number_stop rest = true ->
  scan_number (sign_text neg
                 ++ format_repr (fst (float_digits d k)) (snd (float_digits d k)) ++ rest)
  = Ok (PFloat (float_of_decimal neg d k), rest).
Proof.
  intros Hd Hrest. destruct d as [|p|p]; try lia.
  destruct (float_digits_positive p k) as (c & ds & z & E & Hc & H0 & Hds & Hv).
  rewrite E. cbn [fst snd]. rewrite (format_repr_scans neg c ds _ rest Hc H0 Hds Hrest).
  rewrite <- Hv, float_of_decimal_zeros by lia. apply float_result_eq. lia.
Qed.

(** ** The decimal [float.__repr__] chooses *)

Lemma pyfloat_eqb_eq (a b : pyfloat) : pyfloat_eqb a b = true -> a = b.
Proof.
  destruct a as [|s|s m e], b as [|t|t m' e']; simpl; try discriminate; intros H.
  - reflexivity.
  - apply Bool.eqb_prop in H. congruence.
  - apply Bool.andb_true_iff in H as [H He]. apply Bool.andb_true_iff in H as [Hs Hm].
    apply Bool.eqb_prop in Hs. apply Z.eqb_eq in Hm, He. congruence.
Qed.

Lemma candidate_reads (neg : bool) (m e X kx L n d k : Z) :
  candidate neg m e X kx L n = Some (d, k) ->
  float_of_decimal neg d k = FFinite neg m e.
Proof.
  unfold candidate.
  set (j := Z.max (L - n) 0). set (s := 10 ^ j). set (lo := X / s). set (r := X mod s).
  cbv zeta.
  destruct (pyfloat_eqb (float_of_decimal neg lo (kx + j)) (FFinite neg m e)) eqn:Elo;
    destruct (pyfloat_eqb (float_of_decimal neg (lo + 1) (kx + j)) (FFinite neg m e)) eqn:Ehi;
    destruct (negb (r =? 0)); cbn [andb]; try discriminate;
    try (destruct ((2 * r <? s) || ((2 * r =? s) && Z.even lo)));
    intros [= <- <-]; apply pyfloat_eqb_eq; assumption.
Qed.

Lemma first_some_found {A B : Type} (f : A -> option B) (l : list A) (y : B) :
  first_some f l = Some y -> exists x, f x = Some y.
Proof.
  induction l as [|x l IH]; simpl; [discriminate|].
  destruct (f x) eqn:E; [intros [= <-]; eauto|exact IH].
Qed.

Lemma shortest_cases (neg : bool) (m e : Z) :
  float_of_decimal neg (fst (shortest neg m e)) (snd (shortest neg m e)) = FFinite neg m e \/
  shortest neg m e = exact_decimal m e.
Proof.
  unfold shortest. destruct (exact_decimal m e) as [X kx].
  destruct (first_some _ _) as [[d k]|] eqn:E; [left|right; reflexivity].
  apply first_some_found in E as (n & E). cbn [fst snd].
  exact (candidate_reads _ _ _ _ _ _ _ _ _ E).
Qed.

Lemma shortest_positive (neg : bool) (m e : Z) : 0 < m -> 0 < fst (shortest neg m e).
Proof.
  intros Hm. destruct (shortest_cases neg m e) as [H|H].
  - destruct (Z.ltb_spec 0 (fst (shortest neg m e))) as [|Hle]; [assumption|].
    rewrite (float_of_decimal_nonpos neg _ _ Hle) in H. injection H as H _. lia.
  - rewrite H. apply exact_decimal_pos. exact Hm.
Qed.

Lemma shortest_reads (neg : bool) (m e : Z) :
  0 < m -> float_ok (FFinite neg m e) = true ->
  float_of_decimal neg (fst (shortest neg m e)) (snd (shortest neg m e)) = FFinite neg m e.
Proof.
  intros Hm Hok. destruct (shortest_cases neg m e) as [H|H]; [exact H|].
  rewrite H. apply float_of_exact_decimal; assumption.
Qed.

(** ** [scan_number] undoes [floatstr] *)

Lemma scan_number_floatstr (f : pyfloat) (rest : list ascii) :
  number_stop rest = true ->
  exists f', scan_number (floatstr f ++ rest) = Ok (PFloat f', rest) /\
             (float_ok f = true -> f' = f).
Proof.
  intros Hrest. destruct f as [|neg|neg m e].
  - exists FNaN. split; reflexivity.
  - exists (FInf neg). destruct neg; split; reflexivity.
  - cbn [floatstr float_repr]. change (if neg then ["-"%char] else []) with (sign_text neg).
    rewrite <- app_assoc. destruct (Z.leb_spec m 0) as [Hm|Hm].
    + exists (FFinite neg 0 (-1074)). split.
      * change (chars "0.0" ++ rest)
          with (["0"%char] ++ ("."%char :: ["0"%char]) ++ [] ++ rest).
        rewrite (scan_number_literal neg "0" [] ["0"%char] ("."%char :: ["0"%char]) [] 0 rest
                   eq_refl (Forall_nil _) (fun _ => eq_refl)).
        -- unfold float_of_literal. rewrite float_of_decimal_nonpos; [reflexivity|].
           vm_compute. discriminate.
        -- repeat constructor.
        -- right. split; [discriminate|reflexivity].
        -- left. split; reflexivity.
        -- discriminate.
        -- exact Hrest.
      * intros Hok. destruct (float_ok_cases neg m e Hok) as [[H1 ->]|[H1 _]]; [|lia].
        f_equal. lia.
    + exists (float_of_decimal neg (fst (shortest neg m e)) (snd (shortest neg m e))). split.
      * destruct (shortest neg m e) as [d k] eqn:Es.
        pose proof (shortest_positive neg m e Hm) as Hd. rewrite Es in Hd. cbn [fst snd] in *.
        pose proof (float_digits_scans neg d k rest Hd Hrest) as H.
        destruct (float_digits d k) as [ds decpt]. exact H.
      * intros Hok. apply shortest_reads; assumption.
Qed.

Lemma scan_number_head (c : ascii) (r : list ascii) (v : pyval) (rest : list ascii) :
  scan_number (c :: r) = Ok (v, rest) ->
  (is_digit c || (c =? "-") || (c =? "N") || (c =? "I"))%char = true.
Proof.
  unfold scan_number, match_integer. cbn [tl].
  destruct (is_digit c) eqn:Ed; [reflexivity|].
  destruct (c =? "-")%char eqn:Em; [reflexivity|].
  destruct (c =? "N")%char eqn:En; [reflexivity|].
  destruct (c =? "I")%char eqn:Ei; [reflexivity|].
  destruct (c =? "0")%char eqn:E0.
  { apply Ascii.eqb_eq in E0. subst c. discriminate Ed. }
  cbn [starts_with chars list_ascii_of_string].
  rewrite Ed, (Ascii.eqb_sym "N" c), (Ascii.eqb_sym "I" c), (Ascii.eqb_sym "-" c), En, Ei, Em.
  cbn [andb]. discriminate.
Qed.

Lemma floatstr_head (f : pyfloat) :
  exists c r, floatstr f = c :: r /\
              (is_digit c || (c =? "-") || (c =? "N") || (c =? "I"))%char = true.
Proof.
  destruct (scan_number_floatstr f [] eq_refl) as (f' & H & _).
  rewrite app_nil_r in H. destruct (floatstr f) as [|c r]; [discriminate|].
  exists c, r. split; [reflexivity|]. exact (scan_number_head _ _ _ _ H).
Qed.

(** ** Values: [parse_value] undoes [dumps] *)

Lemma pyval_induction (P : pyval -> Prop) :
  P PNone ->
  (forall b, P (PBool b)) ->
  (forall n, P (PInt n)) ->
  (forall f, P (PFloat f)) ->
  (forall s, P (PStr s)) ->
  (forall l, Forall P l -> P (PList l)) ->
  (forall l, Forall P l -> P (PTuple l)) ->
  (forall d, Forall (fun kv => P (fst kv) /\ P (snd kv)) d -> P (PDict d)) ->
  forall v, P v.
Proof.
  intros HN HB HI HF HS HL HT HD. fix IH 1. intros [| b | n | f | s | l | l | d].
  - exact HN.
  - apply HB.
  - apply HI.
  - apply HF.
  - apply HS.
  - apply HL. revert l. fix IHl 1. intros [|x l]; constructor; [apply IH|apply IHl].
  - apply HT. revert l. fix IHl 1. intros [|x l]; constructor; [apply IH|apply IHl].
  - apply HD. revert d. fix IHd 1. intros [|[k x] d]; constructor;
      [split; apply IH|apply IHd].
Qed.

Lemma bind_ok {A B : Type} (m : result A) (k : A -> result B) (b : B) :
  bind m k = Ok b -> exists a, m = Ok a /\ k a = Ok b.
Proof. destruct m as [a|e]; simpl; [eauto|discriminate]. Qed.

Lemma value_head_facts (c : ascii) :
  value_head c = true ->
  is_ws c = false /\ (c =? "]")%char = false /\ (c =? "}")%char = false.
Proof. each_char c; intros H; try discriminate H; repeat split; reflexivity. Qed.

Lemma skip_ws_head (c : ascii) (r : list ascii) :
  value_head c = true -> skip_ws (c :: r) = c :: r.
Proof. intros H. apply value_head_facts in H as [H _]. simpl. rewrite H. reflexivity. Qed.

Lemma chars_of_int_head (z : Z) :
  exists c r, chars_of_int z = c :: r /\ (is_digit c || (c =? "-")%char) = true.
Proof.
  unfold chars_of_int. destruct z as [|p|p]; simpl.
  - eexists _, _. split; reflexivity.
  - destruct (chars_of_positive p) as (c & ds & E & Hc & _). rewrite E.
    exists c, ds. rewrite Hc. split; reflexivity.
  - eexists _, _. split; reflexivity.
Qed.

(** The text of a value starts with a character no other token starts with. *)
Lemma dumps_head (v : pyval) (t : list ascii) :
  dumps v = Ok t -> exists c r, t = c :: r /\ value_head c = true.
Proof.
  destruct v as [| [|] | n | f | s | l | l | d]; simpl; intros H.
  - injection H as <-. eexists _, _. split; reflexivity.
  - injection H as <-. eexists _, _. split; reflexivity.
  - injection H as <-. eexists _, _. split; reflexivity.
  - injection H as <-. destruct (chars_of_int_head n) as (c & r & -> & Hc).
    exists c, r. split; [reflexivity|]. unfold value_head.
    destruct (is_digit c); [reflexivity|]. simpl in Hc. rewrite Hc. reflexivity.
  - injection H as <-. destruct (floatstr_head f) as (c & r & -> & Hc).
    exists c, r. split; [reflexivity|]. revert Hc. clear.
    each_char c; intros H; try discriminate H; reflexivity.
  - injection H as <-. eexists _, _. split; reflexivity.
  - apply bind_ok in H as (ts & _ & H). injection H as <-. eexists _, _. split; reflexivity.
  - apply bind_ok in H as (ts & _ & H). injection H as <-. eexists _, _. split; reflexivity.
  - apply bind_ok in H as (ts & _ & H). injection H as <-. eexists _, _. split; reflexivity.
Qed.

Lemma skip_ws_dumps (v : pyval) (t rest : list ascii) :
  dumps v = Ok t -> skip_ws (t ++ rest) = t ++ rest.
Proof.
  intros H. apply dumps_head in H as (c & r & -> & Hc). apply skip_ws_head, Hc.
Qed.

(** One step of each parser, spelled out. *)
Lemma parse_value_number (fuel : nat) (c : ascii) (r : list ascii) :
  (is_digit c || (c =? "-")%char) = true ->
  parse_value (S fuel) (c :: r) = scan_number (c :: r).
Proof. each_char c; intros H; try discriminate H; reflexivity. Qed.

Lemma parse_value_float (fuel : nat) (c : ascii) (r : list ascii) :
  (is_digit c || (c =? "-") || (c =? "N") || (c =? "I"))%char = true ->
  parse_value (S fuel) (c :: r) = scan_number (c :: r).
Proof. each_char c; intros H; try discriminate H; reflexivity. Qed.

Lemma parse_value_string (fuel : nat) (r : list ascii) :
  parse_value (S fuel) (DQUOTE :: r)
  = match scanstring r with
    | Some (body, rest) => Ok (PStr (string_of_list_ascii body), rest)
    | None => Raise JSONDecodeError
    end.
Proof. reflexivity. Qed.

Lemma parse_value_array (fuel : nat) (r : list ascii) :
  parse_value (S fuel) ("["%char :: r)
  = match skip_ws r with
    | c1 :: r1 =>
        if (c1 =? "]")%char then Ok (PList [], r1)
        else ' (items, rest) <- parse_elements fuel (c1 :: r1) ;; Ok (PList items, rest)
    | [] => Raise JSONDecodeError
    end.
Proof. reflexivity. Qed.

Lemma parse_value_object (fuel : nat) (r : list ascii) :
  parse_value (S fuel) ("{"%char :: r)
  = match skip_ws r with
    | c1 :: r1 =>
        if (c1 =? "}")%char then Ok (PDict [], r1)
        else if (c1 =? DQUOTE)%char then
          ' (pairs, rest) <- parse_members fuel r1 ;; Ok (dict_of_pairs pairs, rest)
        else Raise JSONDecodeError
    | [] => Raise JSONDecodeError
    end.
Proof. reflexivity. Qed.

Lemma parse_elements_step (fuel : nat) (s : list ascii) :
  parse_elements (S fuel) s
  = ' (v, rest) <- parse_value fuel s ;;
    match skip_ws rest with
    | c :: r =>
        if (c =? "]")%char then Ok ([v], r)
        else if (c =? ",")%char then
          ' (vs, rest') <- parse_elements fuel (skip_ws r) ;; Ok (v :: vs, rest')
        else Raise JSONDecodeError
    | [] => Raise JSONDecodeError
    end.
Proof. reflexivity. Qed.

Lemma parse_members_step (fuel : nat) (s : list ascii) :
  parse_members (S fuel) s
  = match scanstring s with
    | None => Raise JSONDecodeError
    | Some (key, rest) =>
        match skip_ws rest with
        | c :: r =>
            if (c =? ":")%char then
              ' (v, rest1) <- parse_value fuel (skip_ws r) ;;
              let kv := (string_of_list_ascii key, v) in
              match skip_ws rest1 with
              | c1 :: r1 =>
                  if (c1 =? "}")%char then Ok ([kv], r1)
                  else if (c1 =? ",")%char then
                    match skip_ws r1 with
                    | c2 :: r2 =>
                        if (c2 =? DQUOTE)%char then
                          ' (kvs, rest2) <- parse_members fuel r2 ;; Ok (kv :: kvs, rest2)
                        else Raise JSONDecodeError
                    | [] => Raise JSONDecodeError
                    end
                  else Raise JSONDecodeError
              | [] => Raise JSONDecodeError
              end
            else Raise JSONDecodeError
        | [] => Raise JSONDecodeError
        end
    end.
Proof. reflexivity. Qed.

Lemma mapM_cons {A B : Type} (f : A -> result B) (x : A) (l : list A) (ys : list B) :
  mapM f (x :: l) = Ok ys ->
  exists y ys', ys = y :: ys' /\ f x = Ok y /\ mapM f l = Ok ys'.
Proof.
  simpl. intros H. apply bind_ok in H as (y & Hy & H).
  apply bind_ok in H as (ys' & Hys & H). injection H as <-. eauto.
Qed.

Lemma mapM_nil {A B : Type} (f : A -> result B) (ys : list B) :
  mapM f [] = Ok ys -> ys = [].
Proof. simpl. intros [= <-]. reflexivity. Qed.

Lemma join_cons_cons (t1 t2 : list ascii) (ts : list (list ascii)) :
  join (t1 :: t2 :: ts) = t1 ++ ","%char :: " "%char :: join (t2 :: ts).
Proof. reflexivity. Qed.

(** The elements of a non-empty list, up to the closing bracket. *)
Lemma parse_elements_join (l : list pyval) :
  Forall decodes_back l -> l <> [] ->
  forall ts, mapM dumps l = Ok ts ->
  forall fuel rest, (elements_size l <= fuel)%nat ->
  exists vs, parse_elements fuel (join ts ++ "]"%char :: rest) = Ok (vs, rest) /\
             (forallb json_native l = true -> vs = l).
Proof.
  induction 1 as [|x l Hx Hl IH]; [congruence|]. intros _ ts Hts fuel rest Hfuel.
  apply mapM_cons in Hts as (t1 & ts' & -> & Ht1 & Hts').
  destruct fuel as [|fuel]; [simpl in Hfuel; lia|].
  simpl in Hfuel. fold (elements_size l) in Hfuel.
  rewrite parse_elements_step.
  destruct l as [|y l'].
  - apply mapM_nil in Hts' as ->. simpl join.
    destruct (Hx t1 Ht1 fuel ("]"%char :: rest)) as (v' & Hv & Hnat & _); [lia|reflexivity|].
    rewrite Hv. simpl. exists [v']. split; [reflexivity|].
    rewrite Bool.andb_true_r. intros Hn. rewrite (Hnat Hn). reflexivity.
  - pose proof Hts' as Hts2.
    apply mapM_cons in Hts2 as (t2 & ts'' & -> & Ht2 & _).
    rewrite join_cons_cons, <- app_assoc. cbn [app].
    destruct (Hx t1 Ht1 fuel (","%char :: " "%char :: join (t2 :: ts'') ++ "]"%char :: rest))
      as (v' & Hv & Hnat & _); [lia|reflexivity|].
    rewrite Hv. cbn [bind].
    destruct (IH ltac:(discriminate) (t2 :: ts'') Hts' fuel rest ltac:(lia))
      as (vs & Hvs & Hnats).
    assert (Hskip : skip_ws (" "%char :: join (t2 :: ts'') ++ "]"%char :: rest)
                    = join (t2 :: ts'') ++ "]"%char :: rest).
    { change (skip_ws (" "%char :: ?x)) with (skip_ws x).
      destruct ts''; simpl join; [|rewrite <- app_assoc];
        apply (skip_ws_dumps y); exact Ht2. }
    change (skip_ws (","%char :: ?x)) with (","%char :: x). cbv iota.
    change ((","%char =? "]")%char) with false.
    change ((","%char =? ",")%char) with true. cbv iota.
    rewrite Hskip, Hvs. cbn [bind]. exists (v' :: vs). split; [reflexivity|].
    intros Hn. simpl in Hn. apply Bool.andb_true_iff in Hn as [Hn1 Hn2].
    rewrite (Hnat Hn1), (Hnats Hn2). reflexivity.
Qed.

Lemma distinct_NoDup (l : list string) : distinct l = true -> NoDup l.
Proof.
  induction l as [|x l IH]; simpl; intros H; constructor.
  - apply Bool.andb_true_iff in H as [H _]. apply Bool.negb_true_iff in H.
    intros Hin. assert (existsb (String.eqb x) l = true); [|congruence].
    apply existsb_exists. exists x. split; [exact Hin|apply String.eqb_refl].
  - apply IH. apply Bool.andb_true_iff in H as [_ H]. exact H.
Qed.

Lemma dict_set_fresh (d : list (string * pyval)) (k : string) (v : pyval) :
  ~ In k (map fst d) -> dict_set d k v = d ++ [(k, v)].
Proof.
  induction d as [|[k' v'] d IH]; simpl; intros Hin; [reflexivity|].
  destruct (String.eqb_spec k' k) as [->|_]; [exfalso; apply Hin; left; reflexivity|].
  rewrite IH; [reflexivity|]. intros H. apply Hin. right. exact H.
Qed.

Lemma fold_dict_set_fresh (pairs acc : list (string * pyval)) :
  NoDup (map fst acc ++ map fst pairs) ->
  fold_left (fun d kv => dict_set d (fst kv) (snd kv)) pairs acc = acc ++ pairs.
Proof.
  revert acc. induction pairs as [|[k v] pairs IH]; intros acc Hnd; simpl.
  - rewrite app_nil_r. reflexivity.
  - simpl in Hnd. rewrite dict_set_fresh.
    + rewrite IH; [rewrite <- app_assoc; reflexivity|].
      rewrite map_app, <- app_assoc. exact Hnd.
    + apply NoDup_remove_2 in Hnd. intros H. apply Hnd. apply in_or_app. left. exact H.
Qed.

Lemma dict_of_pairs_distinct (pairs : list (string * pyval)) :
  distinct (map fst pairs) = true -> dict_of_pairs pairs = PDict (as_pairs pairs).
Proof.
  intros H. unfold dict_of_pairs, as_pairs.
  rewrite fold_dict_set_fresh; [reflexivity|]. apply distinct_NoDup, H.
Qed.

Ltac norm_app := repeat first [rewrite <- app_assoc | progress cbn [app]].

(** The members of a non-empty dict, up to the closing brace. *)
Lemma parse_members_join (d : list (pyval * pyval)) :
  Forall (fun kv => decodes_back (snd kv)) d -> d <> [] ->
  forall ts, mapM member_text d = Ok ts ->
  forall fuel rest, (members_size d <= fuel)%nat ->
  exists x pairs,
    join ts ++ "}"%char :: rest = DQUOTE :: x /\
    parse_members fuel x = Ok (pairs, rest) /\
    (forallb (fun kv => json_native (snd kv)) d = true ->
     forall ks, string_keys d = Some ks -> d = as_pairs pairs /\ map fst pairs = ks).
Proof.
  induction 1 as [|[key val] d Hx Hd IH]; [congruence|]. intros _ ts Hts fuel rest Hfuel.
  apply mapM_cons in Hts as (t1 & ts' & -> & Ht1 & Hts').
  unfold member_text in Ht1. simpl in Ht1.
  apply bind_ok in Ht1 as (k & Hk & Ht1). apply bind_ok in Ht1 as (tv & Htv & Ht1).
  injection Ht1 as <-.
  destruct fuel as [|fuel]; [simpl in Hfuel; lia|].
  simpl in Hfuel. fold (members_size d) in Hfuel. simpl in Hx.
  assert (Hkey : forall s, key_string key = Some s -> string_of_list_ascii k = s).
  { intros s Hs. destruct key; try discriminate. injection Hs as <-.
    simpl in Hk. injection Hk as <-. apply string_of_list_ascii_of_string. }
  destruct d as [|m d'].
  - apply mapM_nil in Hts' as ->. cbn [join]. norm_app.
    destruct (Hx tv Htv fuel ("}"%char :: rest)) as (v' & Hv & Hnat & _); [lia|reflexivity|].
    do 2 eexists. split; [reflexivity|].
    rewrite parse_members_step, scanstring_escape.
    change (skip_ws (":"%char :: ?x)) with (":"%char :: x). cbv iota.
    change ((":"%char =? ":")%char) with true. cbv iota.
    change (skip_ws (" "%char :: ?x)) with (skip_ws x).
    rewrite (skip_ws_dumps val tv _ Htv).
    rewrite Hv. simpl. split; [reflexivity|].
    rewrite Bool.andb_true_r. intros Hn ks Hks.
    destruct (key_string key) as [s|] eqn:Es; [|discriminate].
    injection Hks as <-. rewrite (Hkey s eq_refl), (Hnat Hn).
    destruct key; try discriminate. injection Es as ->. split; reflexivity.
  - pose proof Hts' as Hts2.
    apply mapM_cons in Hts2 as (t2 & ts'' & -> & _ & _).
    rewrite join_cons_cons. norm_app.
    destruct (Hx tv Htv fuel (","%char :: " "%char :: join (t2 :: ts'') ++ "}"%char :: rest))
      as (v' & Hv & Hnat & _); [lia|reflexivity|].
    destruct (IH ltac:(discriminate) (t2 :: ts'') Hts' fuel rest ltac:(lia))
      as (x & pairs & Hjoin & Hps & Hnats).
    do 2 eexists. split; [reflexivity|].
    rewrite parse_members_step, scanstring_escape.
    change (skip_ws (":"%char :: ?x)) with (":"%char :: x). cbv iota.
    change ((":"%char =? ":")%char) with true. cbv iota.
    change (skip_ws (" "%char :: ?x)) with (skip_ws x).
    rewrite (skip_ws_dumps val tv _ Htv).
    rewrite Hv. cbn [bind].
    change (skip_ws (","%char :: ?x)) with (","%char :: x). cbv iota.
    change ((","%char =? "}")%char) with false.
    change ((","%char =? ",")%char) with true. cbv iota.
    change (skip_ws (" "%char :: ?x)) with (skip_ws x).
    rewrite Hjoin.
    change (skip_ws (DQUOTE :: x)) with (DQUOTE :: x). cbv iota.
    change ((DQUOTE =? DQUOTE)%char) with true. cbv iota.
    rewrite Hps. cbn [bind]. split; [reflexivity|].
    intros Hn ks Hks. simpl in Hn. apply Bool.andb_true_iff in Hn as [Hn1 Hn2].
    change (string_keys ((key, val) :: m :: d'))
      with (match key_string key, string_keys (m :: d') with
            | Some s, Some l => Some (s :: l)
            | _, _ => None
            end) in Hks.
    destruct (key_string key) as [s|] eqn:Es; [|discriminate].
    destruct (string_keys (m :: d')) as [ks'|] eqn:Eks; [|discriminate].
    injection Hks as <-.
    destruct (Hnats Hn2 ks' eq_refl) as [Hd' Hks'].
    rewrite (Hkey s eq_refl), (Hnat Hn1), Hd'. simpl. rewrite Hks'.
    destruct key; try discriminate. injection Es as ->. split; reflexivity.
Qed.

Lemma Forall_snd {A B : Type} (P : B -> Prop) (Q : A -> Prop) (d : list (A * B)) :
  Forall (fun kv => Q (fst kv) /\ P (snd kv)) d -> Forall (fun kv => P (snd kv)) d.
Proof. intros H. eapply Forall_impl; [|exact H]. intros kv [_ Hp]. exact Hp. Qed.

Theorem dumps_decodes_back (v : pyval) : decodes_back v.
Proof.
  induction v as [| b | n | f | s | l IH | l IH | d IH] using pyval_induction;
    intros t Ht fuel rest Hfuel Hrest;
    (destruct fuel as [|fuel]; [simpl in Hfuel; lia|]).
  - injection Ht as <-. exists PNone. repeat split; reflexivity.
  - destruct b; injection Ht as <-; eexists; repeat split; (reflexivity || discriminate).
  - simpl in Ht. injection Ht as <-. exists (PInt n). split; [|split; [reflexivity|discriminate]].
    destruct (chars_of_int_head n) as (c & r & E & Hc).
    pose proof (scan_number_int n rest Hrest) as Hscan.
    rewrite E in *. cbn [app] in *. rewrite (parse_value_number fuel c _ Hc). exact Hscan.
  - simpl in Ht. injection Ht as <-.
    destruct (scan_number_floatstr f rest Hrest) as (f' & Hscan & Hok).
    destruct (floatstr_head f) as (c & r & E & Hc).
    exists (PFloat f'). split; [|split; [|discriminate]].
    + rewrite E in *. cbn [app] in *. rewrite (parse_value_float fuel c _ Hc). exact Hscan.
    + intros Hn. simpl in Hn. rewrite (Hok Hn). reflexivity.
  - simpl in Ht. injection Ht as <-. exists (PStr s). split; [|split; [reflexivity|discriminate]].
    rewrite quote_app, parse_value_string, scanstring_escape.
    unfold chars. rewrite string_of_list_ascii_of_string. reflexivity.
  - simpl in Ht. apply bind_ok in Ht as (ts & Hts & Ht). injection Ht as <-.
    norm_app. rewrite parse_value_array.
    simpl in Hfuel. fold (elements_size l) in Hfuel.
    destruct l as [|x l].
    + apply mapM_nil in Hts as ->. exists (PList []). repeat split; (reflexivity || discriminate).
    + destruct (parse_elements_join (x :: l) IH ltac:(discriminate) ts Hts fuel rest
                  ltac:(lia)) as (vs & Hvs & Hnat).
      pose proof Hts as Hts2. apply mapM_cons in Hts2 as (t1 & ts' & -> & Ht1 & _).
      assert (Hhead : exists c r, join (t1 :: ts') ++ "]"%char :: rest = c :: r
                                  /\ value_head c = true).
      { apply dumps_head in Ht1 as (c & r & -> & Hc).
        destruct ts'; cbn [join]; norm_app; eauto. }
      destruct Hhead as (c & r & E & Hc). rewrite E in *.
      rewrite (skip_ws_head c r Hc).
      apply value_head_facts in Hc as (_ & Hc & _). rewrite Hc, Hvs. cbn [bind].
      exists (PList vs). split; [reflexivity|]. split; [|discriminate].
      intros Hn. simpl in Hn. rewrite (Hnat Hn). reflexivity.
  - simpl in Ht. apply bind_ok in Ht as (ts & Hts & Ht). injection Ht as <-.
    norm_app. rewrite parse_value_array.
    simpl in Hfuel. fold (elements_size l) in Hfuel.
    destruct l as [|x l].
    + apply mapM_nil in Hts as ->. exists (PList []). repeat split; (reflexivity || discriminate).
    + destruct (parse_elements_join (x :: l) IH ltac:(discriminate) ts Hts fuel rest
                  ltac:(lia)) as (vs & Hvs & Hnat).
      pose proof Hts as Hts2. apply mapM_cons in Hts2 as (t1 & ts' & -> & Ht1 & _).
      assert (Hhead : exists c r, join (t1 :: ts') ++ "]"%char :: rest = c :: r
                                  /\ value_head c = true).
      { apply dumps_head in Ht1 as (c & r & -> & Hc).
        destruct ts'; cbn [join]; norm_app; eauto. }
      destruct Hhead as (c & r & E & Hc). rewrite E in *.
      rewrite (skip_ws_head c r Hc).
      apply value_head_facts in Hc as (_ & Hc & _). rewrite Hc, Hvs. cbn [bind].
      exists (PList vs). repeat split; (reflexivity || discriminate).
  - simpl in Ht. apply bind_ok in Ht as (ts & Hts & Ht). injection Ht as <-.
    norm_app. rewrite parse_value_object.
    simpl in Hfuel. fold (members_size d) in Hfuel.
    apply Forall_snd in IH.
    destruct d as [|m d].
    + apply mapM_nil in Hts as ->. exists (PDict []). repeat split; (reflexivity || discriminate).
    + destruct (parse_members_join (m :: d) IH ltac:(discriminate) ts Hts fuel rest
                  ltac:(lia)) as (x & pairs & E & Hps & Hnat).
      rewrite E. change (skip_ws (DQUOTE :: x)) with (DQUOTE :: x). cbv iota.
      change ((DQUOTE =? "}")%char) with false.
      change ((DQUOTE =? DQUOTE)%char) with true. cbv iota.
      rewrite Hps. cbn [bind]. eexists. split; [reflexivity|].
      split; [|discriminate].
      intros Hn. change (json_native (PDict (m :: d)))
        with (forallb (fun kv => json_native (snd kv)) (m :: d) &&
              match string_keys (m :: d) with
              | Some ks => distinct ks
              | None => false
              end) in Hn.
      apply Bool.andb_true_iff in Hn as [Hn1 Hn2].
      destruct (string_keys (m :: d)) as [ks|] eqn:Eks; [|discriminate].
      destruct (Hnat Hn1 ks eq_refl) as [Hd Hks].
      rewrite dict_of_pairs_distinct; [rewrite Hd; reflexivity|].
      rewrite Hks. exact Hn2.
Qed.

(** ** The budget of [json_loads] covers every text [dumps] writes *)

Lemma elements_size_le (l : list pyval) :
  Forall (fun x => forall t, dumps x = Ok t -> (size x <= List.length t)%nat) l ->
  forall ts, mapM dumps l = Ok ts ->
  (elements_size l <= List.length (join ts) + 1)%nat.
Proof.
  induction 1 as [|x l Hx _ IH]; intros ts Hts.
  - apply mapM_nil in Hts as ->. simpl. lia.
  - apply mapM_cons in Hts as (t1 & ts' & -> & Ht1 & Hts').
    specialize (IH ts' Hts'). specialize (Hx t1 Ht1).
    simpl elements_size. fold (elements_size l).
    destruct ts' as [|t2 ts''].
    + destruct l; [|apply mapM_cons in Hts' as (? & ? & ? & _); discriminate].
      simpl. lia.
    + rewrite join_cons_cons, length_app. cbn [List.length]. lia.
Qed.

Lemma members_size_le (d : list (pyval * pyval)) :
  Forall (fun kv => forall t, dumps (snd kv) = Ok t -> (size (snd kv) <= List.length t)%nat) d ->
  forall ts, mapM member_text d = Ok ts ->
  (members_size d <= List.length (join ts) + 1)%nat.
Proof.
  induction 1 as [|[k x] d Hx _ IH]; intros ts Hts.
  - apply mapM_nil in Hts as ->. simpl. lia.
  - apply mapM_cons in Hts as (t1 & ts' & -> & Ht1 & Hts').
    specialize (IH ts' Hts').
    unfold member_text in Ht1. cbn [fst snd] in Ht1.
    apply bind_ok in Ht1 as (kt & _ & Ht1). apply bind_ok in Ht1 as (tv & Htv & Ht1).
    injection Ht1 as <-. cbn [snd] in Hx. specialize (Hx tv Htv).
    simpl members_size. fold (members_size d).
    destruct ts' as [|t2 ts''].
    + destruct d; [|apply mapM_cons in Hts' as (? & ? & ? & _); discriminate].
      cbn [join members_size fold_right]. norm_app.
      cbn [List.length]. rewrite ?length_app. cbn [List.length].
      rewrite ?length_app. cbn [List.length]. lia.
    + rewrite join_cons_cons. norm_app.
      cbn [List.length]. rewrite ?length_app. cbn [List.length].
      rewrite ?length_app. cbn [List.length]. lia.
Qed.

Lemma size_le_length (v : pyval) :
  forall t, dumps v = Ok t -> (size v <= List.length t)%nat.
Proof.
  induction v as [| b | n | f | s | l IH | l IH | d IH] using pyval_induction;
    intros t Ht.
  - injection Ht as <-. simpl. lia.
  - destruct b; injection Ht as <-; simpl; lia.
  - apply dumps_head in Ht as (c & r & -> & _). simpl. lia.
  - apply dumps_head in Ht as (c & r & -> & _). simpl. lia.
  - apply dumps_head in Ht as (c & r & -> & _). simpl. lia.
  - simpl in Ht. apply bind_ok in Ht as (ts & Hts & Ht). injection Ht as <-.
    pose proof (elements_size_le l IH ts Hts).
    simpl. fold (elements_size l). rewrite length_app. simpl. lia.
  - simpl in Ht. apply bind_ok in Ht as (ts & Hts & Ht). injection Ht as <-.
    pose proof (elements_size_le l IH ts Hts).
    simpl. fold (elements_size l). rewrite length_app. simpl. lia.
  - simpl in Ht. apply bind_ok in Ht as (ts & Hts & Ht). injection Ht as <-.
    assert (IH' : Forall (fun kv => forall t, dumps (snd kv) = Ok t ->
                                    (size (snd kv) <= List.length t)%nat) d)
      by (eapply Forall_impl; [|exact IH]; intros kv [_ H]; exact H).
    pose proof (members_size_le d IH' ts Hts).
    simpl. fold (members_size d). rewrite length_app. simpl. lia.
Qed.

(** [json.loads(json.dumps(v))] returns a value whenever [json.dumps(v)]
    does; it returns [v] itself when [v] is native, and [None] only when
    [v] is [None]. *)
Theorem json_loads_dumps (v : pyval) (text : string) :
  json_dumps v = Ok text ->
  exists v', json_loads text = Ok v' /\
             (json_native v = true -> v' = v) /\
             (v' = PNone -> v = PNone).
Proof.
  unfold json_dumps. intros H. apply bind_ok in H as (t & Ht & H). injection H as <-.
  pose proof (size_le_length v t Ht) as Hsize.
  destruct (dumps_decodes_back v t Ht (2 * List.length t + 2)%nat [] ltac:(lia) eq_refl)
    as (v' & Hv & Hnat).
  exists v'. split; [|exact Hnat].
  unfold json_loads, chars. rewrite list_ascii_of_string_of_list_ascii.
  rewrite <- (app_nil_r t) at 2. rewrite (skip_ws_dumps v t [] Ht), Hv. reflexivity.
Qed.

(** [json.dumps] accepts every native value. *)
Lemma dumps_native (v : pyval) : json_native v = true -> exists t, dumps v = Ok t.
Proof.
  induction v as [| b | n | f | s | l IH | l IH | d IH] using pyval_induction; intros Hn.
  - eexists; reflexivity.
  - destruct b; eexists; reflexivity.
  - eexists; reflexivity.
  - eexists; reflexivity.
  - eexists; reflexivity.
  - simpl in Hn. assert (H : exists ts, mapM dumps l = Ok ts).
    { induction IH as [|x l Hx _ IHl]; [eexists; reflexivity|].
      simpl in Hn. apply Bool.andb_true_iff in Hn as [Hn1 Hn2].
      destruct (Hx Hn1) as (t1 & Ht1). destruct (IHl Hn2) as (ts & Hts).
      exists (t1 :: ts). simpl. rewrite Ht1. simpl.
      change ((fix go (l : list pyval) : result (list (list ascii)) :=
                 match l with
                 | [] => Ok []
                 | x :: r => y <- dumps x ;; ys <- go r ;; Ok (y :: ys)
                 end) l) with (mapM dumps l).
      rewrite Hts. reflexivity. }
    destruct H as (ts & Hts). simpl. rewrite Hts. eexists; reflexivity.
  - discriminate.
  - change (json_native (PDict d))
      with (forallb (fun kv => json_native (snd kv)) d &&
            match string_keys d with
            | Some ks => distinct ks
            | None => false
            end) in Hn.
    apply Bool.andb_true_iff in Hn as [Hn1 Hn2].
    assert (Hkeys : exists ks, string_keys d = Some ks)
      by (destruct (string_keys d); [eauto|discriminate]).
    clear Hn2. assert (H : exists ts, mapM member_text d = Ok ts).
    { induction IH as [|[k x] d [_ Hx] _ IHd]; [eexists; reflexivity|].
      simpl in Hn1. apply Bool.andb_true_iff in Hn1 as [Hx1 Hd1].
      destruct Hkeys as (ks & Hks).
      change (string_keys ((k, x) :: d))
        with (match key_string k, string_keys d with
              | Some s, Some l => Some (s :: l)
              | _, _ => None
              end) in Hks.
      destruct (key_string k) as [s|] eqn:Ek; [|discriminate].
      destruct (string_keys d) as [ks'|] eqn:Ed; [|discriminate].
      cbn [snd] in Hx. destruct (Hx Hx1) as (tv & Htv).
      destruct (IHd Hd1 ltac:(eauto)) as (ts & Hts).
      destruct k; try discriminate.
      eexists. change (mapM member_text ((PStr s0, x) :: d))
        with (y <- member_text (PStr s0, x) ;; ys <- mapM member_text d ;; Ok (y :: ys)).
      unfold member_text at 1. cbn [fst snd key_text bind]. rewrite Htv. cbn [bind].
      rewrite Hts. reflexivity. }
    destruct H as (ts & Hts).
    change (dumps (PDict d))
      with (ts <- mapM member_text d ;; Ok ("{"%char :: join ts ++ ["}"%char])).
    rewrite Hts. eexists; reflexivity.
Qed.

Lemma json_dumps_native (v : pyval) :
  json_native v = true -> exists text, json_dumps v = Ok text.
Proof.
  intros H. destruct (dumps_native v H) as (t & Ht).
  unfold json_dumps. rewrite Ht. eexists; reflexivity.
Qed.

(** ** The recursion budget of [json_loads] is never exhausted *)

Ltac break_in H :=
  match type of H with
  | context [match ?x with _ => _ end] =>
      match x with
      | context [match _ with _ => _ end] => fail 1
      | _ => destruct x eqn:?
      end
  end.

Lemma skip_ws_length (s : list ascii) : (List.length (skip_ws s) <= List.length s)%nat.
Proof.
  induction s as [|c r IH]; simpl; [lia|]. destruct (is_ws c); simpl; lia.
Qed.

Lemma scanstring_eq (c : ascii) (r : list ascii) :
  scanstring (c :: r)
  = if (c =? DQUOTE)%char then Some ([], r)
    else if (c =? BACKSLASH)%char then
      match r with
      | [] => None
      | e :: r1 =>
          if (e =? "u")%char then
            match r1 with
            | h1 :: h2 :: h3 :: h4 :: r2 =>
                match hex4 h1 h2 h3 h4 with
                | None => None
                | Some u =>
                    if is_high_surrogate u then
                      match r2 with
                      | b :: e2 :: r3 =>
                          if (b =? BACKSLASH)%char && (e2 =? "u")%char then
                            match r3 with
                            | g1 :: g2 :: g3 :: g4 :: r4 =>
                                match hex4 g1 g2 g3 g4 with
                                | None => None
                                | Some u2 =>
                                    if is_low_surrogate u2
                                    then continue_with
                                           (utf8_encode
                                              (65536 + (u - 55296) * 1024 + (u2 - 56320))%N)
                                           (scanstring r4)
                                    else continue_with (utf8_encode u) (scanstring r2)
                                end
                            | _ => None
                            end
                          else continue_with (utf8_encode u) (scanstring r2)
                      | _ => continue_with (utf8_encode u) (scanstring r2)
                      end
                    else continue_with (utf8_encode u) (scanstring r2)
                end
            | _ => None
            end
          else
            match unescape e with
            | Some c' => continue_with [c'] (scanstring r1)
            | None => None
            end
      end
    else if (N_of_ascii c <? 32)%N then None
    else continue_with [c] (scanstring r).
Proof. reflexivity. Qed.

Lemma continue_with_some (p : list ascii) (r : option (list ascii * list ascii))
    (body rest : list ascii) :
  continue_with p r = Some (body, rest) -> exists b, r = Some (b, rest).
Proof.
  destruct r as [[b r']|]; simpl; [|discriminate]. intros [= _ <-]. eauto.
Qed.

Lemma scanstring_shorter (n : nat) :
  forall s body rest, (List.length s <= n)%nat ->
    scanstring s = Some (body, rest) -> (List.length rest < List.length s)%nat.
Proof.
  induction n as [|n IH]; intros s body rest Hn H;
    (destruct s as [|c r]; [discriminate|]); cbn [List.length] in Hn; [lia|].
  rewrite scanstring_eq in H.
  repeat (break_in H; try discriminate H); subst; cbn [List.length] in *;
    try (injection H as <- <-; lia);
    apply continue_with_some in H as (b' & H);
    apply IH in H; cbn [List.length] in *; lia.
Qed.

Lemma span_digits_length (s : list ascii) :
  (List.length (snd (span_digits s)) <= List.length s)%nat.
Proof.
  induction s as [|c r IH]; simpl; [lia|].
  destruct (is_digit c); [|simpl; lia].
  destruct (span_digits r); simpl in *. lia.
Qed.

Lemma match_integer_shorter (s : list ascii) (neg : bool) (ds rest : list ascii) :
  match_integer s = Some (neg, ds, rest) -> (List.length rest < List.length s)%nat.
Proof.
  unfold match_integer.
  assert (Htl : (List.length (tl s) <= List.length s)%nat) by (destruct s; simpl; lia).
  destruct (match s with c :: _ => (c =? "-")%char | [] => false end);
    [destruct (tl s) as [|c r]|destruct s as [|c r]]; try discriminate;
    cbn [List.length] in *;
    (destruct (c =? "0")%char; [intros [= _ _ <-]; lia|]);
    (destruct (is_digit c); [|discriminate]);
    pose proof (span_digits_length r) as Hl;
    destruct (span_digits r) as [ds' rest']; simpl in Hl;
    intros [= _ _ <-]; lia.
Qed.

Lemma scan_frac_length (s : list ascii) :
  (List.length (snd (scan_frac s)) <= List.length s)%nat.
Proof.
  unfold scan_frac. destruct (has_frac s); [|simpl; lia].
  pose proof (span_digits_length (tl s)). destruct s; simpl in *; lia.
Qed.

Lemma scan_exp_length (s : list ascii) :
  (List.length (snd (scan_exp s)) <= List.length s)%nat.
Proof.
  unfold scan_exp. destruct (has_exp s); [|simpl; lia].
  destruct s as [|e [|c r]]; cbn [tl]; [simpl; lia|simpl; lia|].
  destruct (is_digit c).
  - pose proof (span_digits_length (c :: r)) as H.
    destruct (span_digits (c :: r)). cbn [snd List.length] in *. lia.
  - pose proof (span_digits_length r) as H.
    destruct (span_digits r). cbn [snd List.length] in *. lia.
Qed.

Lemma skipn_shorter (p s : list ascii) (n : nat) :
  starts_with p s = true -> p <> [] -> (0 < n)%nat ->
  (List.length (skipn n s) < List.length s)%nat.
Proof.
  intros H Hp Hn. destruct p as [|a p]; [contradiction|].
  destruct s as [|c r]; [discriminate|]. rewrite length_skipn. cbn [List.length]. lia.
Qed.

Lemma scan_number_shorter (s : list ascii) (v : pyval) (rest : list ascii) :
  scan_number s = Ok (v, rest) -> (List.length rest < List.length s)%nat.
Proof.
  unfold scan_number. destruct (match_integer s) as [[[neg ds] r]|] eqn:E.
  - pose proof (match_integer_shorter _ _ _ _ E) as Hr.
    destruct (has_frac r || has_exp r).
    + pose proof (scan_frac_length r) as H1.
      destruct (scan_frac r) as [fs rest1]. cbn [snd] in H1.
      pose proof (scan_exp_length rest1) as H2.
      destruct (scan_exp rest1) as [x rest2]. cbn [snd] in H2.
      intros [= _ <-]. lia.
    + intros [= _ <-]. exact Hr.
  - destruct (starts_with (chars "NaN") s) eqn:E1;
      [intros [= _ <-]; apply (skipn_shorter _ s 3 E1); [discriminate|lia]|].
    destruct (starts_with (chars "Infinity") s) eqn:E2;
      [intros [= _ <-]; apply (skipn_shorter _ s 8 E2); [discriminate|lia]|].
    destruct (starts_with (chars "-Infinity") s) eqn:E3;
      [intros [= _ <-]; apply (skipn_shorter _ s 9 E3); [discriminate|lia]|].
    discriminate.
Qed.

Lemma scan_number_no_fuel (s : list ascii) : scan_number s <> Raise Fuel.
Proof.
  unfold scan_number. destruct (match_integer s) as [[[neg ds] r]|].
  - destruct (has_frac r || has_exp r); [|discriminate].
    destruct (scan_frac r) as [fs rest1]. destruct (scan_exp rest1). discriminate.
  - destruct (starts_with (chars "NaN") s); [discriminate|].
    destruct (starts_with (chars "Infinity") s); [discriminate|].
    destruct (starts_with (chars "-Infinity") s); discriminate.
Qed.

Lemma parse_value_eq (fuel : nat) (c : ascii) (r : list ascii) :
  parse_value (S fuel) (c :: r)
  = if (c =? DQUOTE)%char then
      match scanstring r with
      | Some (body, rest) => Ok (PStr (string_of_list_ascii body), rest)
      | None => Raise JSONDecodeError
      end
    else if (c =? "{")%char then
      match skip_ws r with
      | c1 :: r1 =>
          if (c1 =? "}")%char then Ok (PDict [], r1)
          else if (c1 =? DQUOTE)%char then
            ' (pairs, rest) <- parse_members fuel r1 ;; Ok (dict_of_pairs pairs, rest)
          else Raise JSONDecodeError
      | [] => Raise JSONDecodeError
      end
    else if (c =? "[")%char then
      match skip_ws r with
      | c1 :: r1 =>
          if (c1 =? "]")%char then Ok (PList [], r1)
          else ' (items, rest) <- parse_elements fuel (c1 :: r1) ;; Ok (PList items, rest)
      | [] => Raise JSONDecodeError
      end
    else if starts_with (chars "null") (c :: r) then Ok (PNone, skipn 4 (c :: r))
    else if starts_with (chars "true") (c :: r) then Ok (PBool true, skipn 4 (c :: r))
    else if starts_with (chars "false") (c :: r) then Ok (PBool false, skipn 5 (c :: r))
    else scan_number (c :: r).
Proof. reflexivity. Qed.

Lemma bind_raise {A B : Type} (m : result A) (k : A -> result B) (e : exn) :
  bind m k = Raise e -> m = Raise e \/ exists a, m = Ok a /\ k a = Raise e.
Proof. destruct m as [a|e']; simpl; [eauto|intros [= ->]; auto]. Qed.

Ltac skip_ws_bound r :=
  let H := fresh "Hws" in
  pose proof (skip_ws_length r) as H;
  match goal with
  | E : skip_ws r = _ |- _ => rewrite E in H; cbn [List.length] in H
  end.

(** Every parser returns strictly less text than it was given. *)
Lemma parse_shorter (fuel : nat) :
  (forall s v rest, parse_value fuel s = Ok (v, rest) ->
     (List.length rest < List.length s)%nat) /\
  (forall s vs rest, parse_elements fuel s = Ok (vs, rest) ->
     (List.length rest < List.length s)%nat) /\
  (forall s kvs rest, parse_members fuel s = Ok (kvs, rest) ->
     (List.length rest < List.length s)%nat).
Proof.
  induction fuel as [|fuel (IHv & IHe & IHm)]; [repeat split; discriminate|].
  split; [|split].
  - intros [|c r] v rest H; [discriminate|]. rewrite parse_value_eq in H.
    cbn [List.length].
    destruct (c =? DQUOTE)%char.
    { destruct (scanstring r) as [[body rest']|] eqn:E; [|discriminate].
      injection H as _ <-. apply (scanstring_shorter _ _ _ _ (le_n _)) in E. lia. }
    destruct (c =? "{")%char.
    { destruct (skip_ws r) as [|c1 r1] eqn:E; [discriminate|]. skip_ws_bound r.
      destruct (c1 =? "}")%char; [injection H as _ <-; lia|].
      destruct (c1 =? DQUOTE)%char; [|discriminate].
      apply bind_ok in H as ([pairs rest'] & Hm & H). injection H as _ <-.
      apply IHm in Hm. lia. }
    destruct (c =? "[")%char.
    { destruct (skip_ws r) as [|c1 r1] eqn:E; [discriminate|]. skip_ws_bound r.
      destruct (c1 =? "]")%char; [injection H as _ <-; lia|].
      apply bind_ok in H as ([items rest'] & He & H). injection H as _ <-.
      apply IHe in He. cbn [List.length] in He. lia. }
    assert (Hskip : forall n, (1 <= n)%nat ->
                      (List.length (skipn n (c :: r)) < S (List.length r))%nat)
      by (intros n Hn; rewrite length_skipn; cbn [List.length]; lia).
    destruct (starts_with (chars "null") (c :: r));
      [injection H as _ <-; exact (Hskip 4%nat ltac:(lia))|].
    destruct (starts_with (chars "true") (c :: r));
      [injection H as _ <-; exact (Hskip 4%nat ltac:(lia))|].
    destruct (starts_with (chars "false") (c :: r));
      [injection H as _ <-; exact (Hskip 5%nat ltac:(lia))|].
    apply scan_number_shorter in H. exact H.
  - intros s vs rest H. rewrite parse_elements_step in H.
    apply bind_ok in H as ([v rest0] & Hv & H). apply IHv in Hv.
    destruct (skip_ws rest0) as [|c r] eqn:E; [discriminate|]. skip_ws_bound rest0.
    destruct (c =? "]")%char; [injection H as _ <-; lia|].
    destruct (c =? ",")%char; [|discriminate].
    apply bind_ok in H as ([vs' rest'] & He & H). injection H as _ <-.
    apply IHe in He. pose proof (skip_ws_length r). lia.
  - intros s kvs rest H. rewrite parse_members_step in H.
    destruct (scanstring s) as [[key rest0]|] eqn:Es; [|discriminate].
    apply (scanstring_shorter _ _ _ _ (le_n _)) in Es.
    destruct (skip_ws rest0) as [|c r] eqn:E; [discriminate|]. skip_ws_bound rest0.
    destruct (c =? ":")%char; [|discriminate].
    apply bind_ok in H as ([v rest1] & Hv & H). apply IHv in Hv.
    pose proof (skip_ws_length r).
    destruct (skip_ws rest1) as [|c1 r1] eqn:E1; [discriminate|]. skip_ws_bound rest1.
    destruct (c1 =? "}")%char; [injection H as _ <-; lia|].
    destruct (c1 =? ",")%char; [|discriminate].
    destruct (skip_ws r1) as [|c2 r2] eqn:E2; [discriminate|]. skip_ws_bound r1.
    destruct (c2 =? DQUOTE)%char; [|discriminate].
    apply bind_ok in H as ([kvs' rest2] & Hm & H). injection H as _ <-.
    apply IHm in Hm. lia.
Qed.

(** With two steps of budget for each character, and one or two more, no
    parser runs out. *)
Lemma parse_no_fuel (fuel : nat) :
  (forall s, (2 * List.length s + 1 <= fuel)%nat -> parse_value fuel s <> Raise Fuel) /\
  (forall s, (2 * List.length s + 2 <= fuel)%nat -> parse_elements fuel s <> Raise Fuel) /\
  (forall s, (2 * List.length s <= fuel)%nat -> (1 <= fuel)%nat ->
             parse_members fuel s <> Raise Fuel).
Proof.
  induction fuel as [|fuel (IHv & IHe & IHm)]; [repeat split; intros; lia|].
  destruct (parse_shorter fuel) as (Sv & Se & Sm).
  split; [|split].
  - intros [|c r] Hf H; [discriminate|]. rewrite parse_value_eq in H.
    cbn [List.length] in Hf.
    destruct (c =? DQUOTE)%char.
    { destruct (scanstring r) as [[body rest']|]; discriminate. }
    destruct (c =? "{")%char.
    { destruct (skip_ws r) as [|c1 r1] eqn:E; [discriminate|]. skip_ws_bound r.
      destruct (c1 =? "}")%char; [discriminate|].
      destruct (c1 =? DQUOTE)%char; [|discriminate].
      apply bind_raise in H as [H|([pairs rest'] & _ & H)]; [|discriminate].
      revert H. apply IHm; lia. }
    destruct (c =? "[")%char.
    { destruct (skip_ws r) as [|c1 r1] eqn:E; [discriminate|]. skip_ws_bound r.
      destruct (c1 =? "]")%char; [discriminate|].
      apply bind_raise in H as [H|([items rest'] & _ & H)]; [|discriminate].
      revert H. apply IHe. cbn [List.length]. lia. }
    destruct (starts_with (chars "null") (c :: r)); [discriminate|].
    destruct (starts_with (chars "true") (c :: r)); [discriminate|].
    destruct (starts_with (chars "false") (c :: r)); [discriminate|].
    exact (scan_number_no_fuel _ H).
  - intros s Hf H. rewrite parse_elements_step in H.
    apply bind_raise in H as [H|([v rest0] & Hv & H)]; [revert H; apply IHv; lia|].
    apply Sv in Hv.
    destruct (skip_ws rest0) as [|c r] eqn:E; [discriminate|]. skip_ws_bound rest0.
    destruct (c =? "]")%char; [discriminate|].
    destruct (c =? ",")%char; [|discriminate].
    apply bind_raise in H as [H|([vs' rest'] & _ & H)]; [|discriminate].
    revert H. apply IHe. pose proof (skip_ws_length r). lia.
  - intros s Hf _ H. rewrite parse_members_step in H.
    destruct (scanstring s) as [[key rest0]|] eqn:Es; [|discriminate].
    apply (scanstring_shorter _ _ _ _ (le_n _)) in Es.
    destruct (skip_ws rest0) as [|c r] eqn:E; [discriminate|]. skip_ws_bound rest0.
    destruct (c =? ":")%char; [|discriminate].
    pose proof (skip_ws_length r).
    apply bind_raise in H as [H|([v rest1] & Hv & H)]; [revert H; apply IHv; lia|].
    apply Sv in Hv.
    destruct (skip_ws rest1) as [|c1 r1] eqn:E1; [discriminate|]. skip_ws_bound rest1.
    destruct (c1 =? "}")%char; [discriminate|].
    destruct (c1 =? ",")%char; [|discriminate].
    destruct (skip_ws r1) as [|c2 r2] eqn:E2; [discriminate|]. skip_ws_bound r1.
    destruct (c2 =? DQUOTE)%char; [|discriminate].
    apply bind_raise in H as [H|([kvs' rest2] & _ & H)]; [|discriminate].
    revert H. apply IHm; lia.
Qed.

(** [json_loads] never answers [Fuel]: what it returns is what the library
    returns. *)
Theorem json_loads_no_fuel (s : string) : json_loads s <> Raise Fuel.
Proof.
  unfold json_loads. intros H.
  apply bind_raise in H as [H|([v rest] & _ & H)].
  - revert H. apply (proj1 (parse_no_fuel _)).
    pose proof (skip_ws_length (chars s)). lia.
  - destruct (skip_ws rest); discriminate.
Qed.

(** ** Listings that decode JSON columns *)

Lemma mapM_Forall2 {A B : Type} (f : A -> result B) (l : list A) (ys : list B) :
  mapM f l = Ok ys -> Forall2 (fun x y => f x = Ok y) l ys.
Proof.
  revert ys. induction l as [|x l IH]; intros ys H.
  - apply mapM_nil in H as ->. constructor.
  - apply mapM_cons in H as (y & ys' & -> & Hy & Hys). constructor; [exact Hy|apply IH, Hys].
Qed.

Lemma mapM_ok_iff {A B : Type} (f : A -> result B) (l : list A) :
  (exists ys, mapM f l = Ok ys) <-> Forall (fun x => exists y, f x = Ok y) l.
Proof.
  split.
  - intros (ys & H). apply mapM_Forall2 in H.
    induction H; constructor; eauto.
  - induction 1 as [|x l (y & Hy) _ (ys & Hys)]; [exists []; reflexivity|].
    exists (y :: ys). simpl. rewrite Hy. simpl.
    change ((fix go (l : list A) : result (list B) :=
               match l with
               | [] => Ok []
               | x :: r => y <- f x ;; ys <- go r ;; Ok (y :: ys)
               end) l) with (mapM f l).
    rewrite Hys. reflexivity.
Qed.

Lemma decode_content_raw (r : Content.row) (d : Content.decoded) :
  decode_content r = Ok d -> Content.raw d = r.
Proof.
  unfold decode_content. intros H.
  apply bind_ok in H as (x & _ & H). apply bind_ok in H as (m & _ & H).
  injection H as <-. reflexivity.
Qed.

Lemma decode_media_raw (r : Media.row) (d : Media.decoded) :
  decode_media r = Ok d -> Media.raw d = r.
Proof.
  unfold decode_media. intros H. apply bind_ok in H as (x & _ & H).
  injection H as <-. reflexivity.
Qed.

Lemma mapM_raw {A B : Type} (f : A -> result B) (raw : B -> A) (l : list A) (ys : list B) :
  (forall x y, f x = Ok y -> raw y = x) -> mapM f l = Ok ys -> map raw ys = l.
Proof.
  intros Hraw H. apply mapM_Forall2 in H.
  induction H as [|x y l ys Hxy _ IH]; simpl; [reflexivity|].
  rewrite (Hraw x y Hxy), IH. reflexivity.
Qed.

Lemma get_policy_contents_ok_iff (db : database) (policy_id : Z) :
  (exists rows, get_policy_contents db policy_id = Ok rows) <->
  (forall r, In r (policy_contents db) -> Content.policy_id r = policy_id ->
             exists d, decode_content r = Ok d).
Proof.
  unfold get_policy_contents. rewrite mapM_ok_iff, Forall_forall. split.
  - intros H r Hin Hpid. apply H. apply order_by_desc_In, filter_In.
    split; [exact Hin|apply Z.eqb_eq, Hpid].
  - intros H r Hin. apply order_by_desc_In, filter_In in Hin as [Hin Hpid].
    apply H; [exact Hin|apply Z.eqb_eq, Hpid].
Qed.

Lemma get_policy_contents_raw (db : database) (policy_id : Z) (rows : list Content.decoded) :
  get_policy_contents db policy_id = Ok rows ->
  map Content.raw rows
  = order_by_desc Content.created_at
      (filter (fun r => Content.policy_id r =? policy_id) (policy_contents db)).
Proof. intros H. exact (mapM_raw _ _ _ _ decode_content_raw H). Qed.

(** C4, as the code has it. [get_policy_contents] returns a listing exactly
    when every stored row of the policy decodes, and the listing then holds
    every one of those rows.  One row whose [content_data], or whose
    non-empty [metadata], does not decode makes the whole call raise. *)
Theorem get_policy_contents_all_or_nothing (db : database) (policy_id : Z) :
  ((exists rows, get_policy_contents db policy_id = Ok rows) <->
   (forall r, In r (policy_contents db) -> Content.policy_id r = policy_id ->
              exists d, decode_content r = Ok d)) /\
  (forall rows, get_policy_contents db policy_id = Ok rows ->
     Permutation (map Content.raw rows)
       (filter (fun r => Content.policy_id r =? policy_id) (policy_contents db))) /\
  (forall r e, In r (policy_contents db) -> Content.policy_id r = policy_id ->
     decode_content r = Raise e ->
     exists e', get_policy_contents db policy_id = Raise e').
Proof.
  split; [apply get_policy_contents_ok_iff|]. split.
  - intros rows H. rewrite (get_policy_contents_raw _ _ _ H). apply order_by_desc_perm.
  - intros r e Hin Hpid Hr.
    destruct (get_policy_contents db policy_id) as [rows|e'] eqn:E; [|eauto].
    exfalso.
    assert (H : exists rows, get_policy_contents db policy_id = Ok rows) by eauto.
    pose proof (proj1 (get_policy_contents_ok_iff db policy_id) H) as H'.
    destruct (H' r Hin Hpid) as (d & Hd). congruence.
Qed.

(** A row whose [content_data] holds a float decodes. *)
Example float_row_is_listed :
  exists d,
    get_policy_contents score_db 1 = Ok [d] /\
    Content.raw d = score_row /\
    Content.data d
    = PDict [(PStr "score", PFloat (FFinite false 7205759403792794 (-56)))].
Proof. eexists. repeat split. Qed.

(** C4 fails on the code: with a well-formed row and a corrupt one stored
    for policy 1, the listing raises instead of returning the well-formed
    row. *)
Lemma corrupt_row_aborts_listing :
  In good_row (policy_contents corrupt_db) /\
  (exists d, decode_content good_row = Ok d) /\
  get_policy_contents corrupt_db 1 = Raise JSONDecodeError.
Proof.
  split; [left; reflexivity|]. split; [eexists; reflexivity|]. reflexivity.
Qed.

(** ** Rows written by [save_policy_content] and [save_generated_media] *)

Lemma json_dumps_truthy (v : pyval) (text : string) :
  json_dumps v = Ok text -> truthy_text (Some text) = true.
Proof.
  unfold json_dumps. intros H. apply bind_ok in H as (t & Ht & H). injection H as <-.
  apply dumps_head in Ht as (c & r & -> & _). reflexivity.
Qed.

Lemma py_or_not_none (m : pyval) : py_or m (PDict []) <> PNone.
Proof.
  unfold py_or. destruct (truthy m) eqn:E; [|discriminate]. intros ->. discriminate E.
Qed.

Lemma decode_saved_content (payload metadata : pyval) (dt mt : string)
    (i pid : Z) (ct now : string) :
  json_dumps payload = Ok dt ->
  json_dumps (py_or metadata (PDict [])) = Ok mt ->
  exists d,
    decode_content {| Content.id := i; Content.policy_id := pid;
                      Content.content_type := ct; Content.content_data := dt;
                      Content.metadata := Some mt; Content.created_at := now |} = Ok d /\
    json_loads dt = Ok (Content.data d) /\
    json_loads mt = Ok (Content.meta d) /\
    Content.meta d <> PNone.
Proof.
  intros Hd Hm.
  destruct (json_loads_dumps _ _ Hd) as (v1 & Hv1 & _).
  destruct (json_loads_dumps _ _ Hm) as (v2 & Hv2 & _ & Hnone).
  unfold decode_content. cbn [Content.content_data Content.metadata].
  rewrite Hv1, (json_dumps_truthy _ _ Hm), Hv2. cbn [bind].
  eexists. split; [reflexivity|]. cbn. repeat split; try reflexivity.
  intros ->. exact (py_or_not_none metadata (Hnone eq_refl)).
Qed.

Lemma decode_saved_media (params : pyval) (pt : string) (r : Media.row) :
  json_dumps params = Ok pt ->
  Media.generation_params r = Some pt ->
  exists d, decode_media r = Ok d.
Proof.
  intros Hp Hr. destruct (json_loads_dumps _ _ Hp) as (v & Hv & _).
  unfold decode_media. rewrite Hr, (json_dumps_truthy _ _ Hp), Hv. eexists; reflexivity.
Qed.

Lemma step_rows_decode (db : database) (c : call) :
  rows_decode db -> rows_decode (fst (step db c)).
Proof.
  intros [Hc Hm]. destruct c; simpl.
  - split; assumption.
  - split; assumption.
  - destruct (save_policy_content _ _ _ _ _ _) as [db'|e] eqn:E; simpl; [|split; assumption].
    unfold save_policy_content in E.
    apply bind_ok in E as (dt & Hdt & E). apply bind_ok in E as (mt & Hmt & E).
    injection E as <-. split; simpl; [|exact Hm].
    apply Forall_app. split; [exact Hc|]. constructor; [|constructor].
    destruct (decode_saved_content content_data metadata dt mt
                (next_rowid (policy_contents_seq db) (map Content.id (policy_contents db)))
                policy_id content_type now Hdt Hmt) as (d & Hd & _ & _ & Hn).
    exists d. split; assumption.
  - destruct (save_generated_media _ _ _ _ _ _ _) as [db'|e] eqn:E; simpl; [|split; assumption].
    unfold save_generated_media in E.
    apply bind_ok in E as (pt & Hpt & E). injection E as <-. split; simpl; [exact Hc|].
    apply Forall_app. split; [exact Hm|]. constructor; [|constructor].
    eapply decode_saved_media; [exact Hpt|reflexivity].
Qed.

(** Every row a history of calls leaves in a fresh database decodes, and no
    stored metadata decodes to [None]. *)
Lemma run_rows_decode (cs : list call) (db : database) :
  rows_decode db -> rows_decode (fst (run db cs)).
Proof.
  revert db. induction cs as [|c cs IH]; intros db H; simpl; [exact H|].
  pose proof (step_rows_decode db c H) as H1.
  destruct (step db c) as [db1 r]. simpl in H1.
  specialize (IH db1 H1). destruct (run db1 cs) as [db2 ids]. exact IH.
Qed.

Lemma init_rows_decode : rows_decode init_database.
Proof. split; constructor. Qed.

Lemma mapM_In {A B : Type} (f : A -> result B) (l : list A) (ys : list B) (y : B) :
  mapM f l = Ok ys -> In y ys -> exists x, In x l /\ f x = Ok y.
Proof.
  intros H. apply mapM_Forall2 in H. induction H as [|x y' l ys Hxy _ IH]; simpl.
  - contradiction.
  - intros [<-|Hin]; [exists x; split; [left; reflexivity|exact Hxy]|].
    destruct (IH Hin) as (x' & Hx' & Hf). exists x'. split; [right; exact Hx'|exact Hf].
Qed.

(** What [get_policy_contents] shows of a row just saved, on a database
    whose rows for that policy decode. *)
Lemma save_then_get_contents (db : database) (now : string) (policy_id : Z)
    (content_type : string) (payload metadata : pyval) (dt mt : string) :
  json_dumps payload = Ok dt ->
  json_dumps (py_or metadata (PDict [])) = Ok mt ->
  (forall r, In r (policy_contents db) -> Content.policy_id r = policy_id ->
             exists d, decode_content r = Ok d) ->
  exists db' rows r,
    save_policy_content db now policy_id content_type payload metadata = Ok db' /\
    get_policy_contents db' policy_id = Ok rows /\
    In r rows /\
    In (Content.raw r) (policy_contents db') /\
    ~ In (Content.raw r) (policy_contents db) /\
    Content.policy_id (Content.raw r) = policy_id /\
    Content.content_type (Content.raw r) = content_type /\
    Content.content_data (Content.raw r) = dt /\
    Content.metadata (Content.raw r) = Some mt /\
    Content.created_at (Content.raw r) = now /\
    json_loads dt = Ok (Content.data r) /\
    json_loads mt = Ok (Content.meta r).
Proof.
  intros Hdt Hmt Hold.
  set (rowid := next_rowid (policy_contents_seq db) (map Content.id (policy_contents db))).
  set (row := {| Content.id := rowid; Content.policy_id := policy_id;
                 Content.content_type := content_type; Content.content_data := dt;
                 Content.metadata := Some mt; Content.created_at := now |}).
  destruct (decode_saved_content payload metadata dt mt rowid policy_id content_type now
              Hdt Hmt) as (d & Hd & Hd1 & Hd2 & _). fold row in Hd.
  assert (Hsave : save_policy_content db now policy_id content_type payload metadata
                  = Ok {| policies := policies db;
                          policies_seq := policies_seq db;
                          policy_contents := policy_contents db ++ [row];
                          policy_contents_seq := rowid;
                          generated_media := generated_media db;
                          generated_media_seq := generated_media_seq db |}).
  { unfold save_policy_content. rewrite Hdt, Hmt. reflexivity. }
  match type of Hsave with _ = Ok ?x => set (db' := x) in * end.
  assert (Hget : exists rows, get_policy_contents db' policy_id = Ok rows).
  { apply get_policy_contents_ok_iff. intros r Hin Hpid. simpl in Hin.
    apply in_app_or in Hin as [Hin|[<-|[]]]; [exact (Hold r Hin Hpid)|eauto]. }
  destruct Hget as (rows & Hrows).
  assert (Hin : In row (map Content.raw rows)).
  { rewrite (get_policy_contents_raw _ _ _ Hrows).
    apply order_by_desc_In, filter_In. split.
    - simpl. apply in_or_app. right. left. reflexivity.
    - simpl. apply Z.eqb_refl. }
  apply in_map_iff in Hin as (r & Hraw & Hr).
  pose proof Hrows as Hrows'.
  unfold get_policy_contents in Hrows.
  destruct (mapM_In _ _ _ _ Hrows Hr) as (x & _ & Hx).
  pose proof (decode_content_raw _ _ Hx) as Hx'. rewrite Hraw in Hx'. subst x.
  assert (r = d) by congruence. subst r.
  exists db', rows, d. rewrite Hraw.
  repeat split; try assumption; try reflexivity.
  - simpl. apply in_or_app. right. left. reflexivity.
  - intros Hin. apply (in_map Content.id) in Hin. apply next_rowid_fresh with (seq := policy_contents_seq db) in Hin.
    simpl in Hin. fold rowid in Hin. lia.
Qed.

(** ** Python equality *)

Lemma float_eq_refl (f : pyfloat) : is_nan f = false -> float_eq f f = true.
Proof.
  destruct f as [|neg|neg m e]; [discriminate| |]; intros _; simpl.
  - apply Bool.eqb_reflx.
  - apply Z.eqb_refl.
Qed.

Lemma py_eq_refl (v : pyval) : nan_free v = true -> py_eq v v = true.
Proof.
  induction v as [| b | n | f | s | l IH | l IH | d IH] using pyval_induction;
    intros Hn; simpl.
  - reflexivity.
  - destruct b; reflexivity.
  - apply Z.eqb_refl.
  - apply float_eq_refl. simpl in Hn. apply Bool.negb_true_iff, Hn.
  - apply String.eqb_refl.
  - simpl in Hn. induction IH as [|x l Hx _ IHl]; [reflexivity|].
    simpl in Hn. apply Bool.andb_true_iff in Hn as [H1 H2].
    rewrite (Hx H1). exact (IHl H2).
  - simpl in Hn. induction IH as [|x l Hx _ IHl]; [reflexivity|].
    simpl in Hn. apply Bool.andb_true_iff in Hn as [H1 H2].
    rewrite (Hx H1). exact (IHl H2).
  - rewrite Nat.eqb_refl. simpl.
    change (nan_free (PDict d))
      with (forallb (fun kv => nan_free (fst kv) && nan_free (snd kv)) d) in Hn.
    rewrite forallb_forall in Hn.
    assert (H : forall x, incl x d ->
              (fix each (x : list (pyval * pyval)) : bool :=
                 match x with
                 | [] => true
                 | (k, v) :: x' =>
                     existsb (fun kv => py_eq k (fst kv) && py_eq v (snd kv)) d && each x'
                 end) x = true).
    { induction x as [|[k v] x IHx]; intros Hincl; [reflexivity|].
      rewrite IHx; [|intros y Hy; apply Hincl; right; exact Hy].
      rewrite Bool.andb_true_r. apply existsb_exists. exists (k, v).
      split; [apply Hincl; left; reflexivity|].
      rewrite Forall_forall in IH.
      pose proof (Hn (k, v) (Hincl _ (or_introl eq_refl))) as Hkv.
      apply Bool.andb_true_iff in Hkv as [Hk0 Hv0].
      destruct (IH (k, v) (Hincl _ (or_introl eq_refl))) as [Hk Hv].
      simpl in *. rewrite (Hk Hk0), (Hv Hv0). reflexivity. }
    apply H, incl_refl.
Qed.

(** ** [save_policy_content] then [get_policy_contents] *)

Lemma history_contents_decode (history : list call) (policy_id : Z) :
  forall r, In r (policy_contents (fst (run init_database history))) ->
            Content.policy_id r = policy_id ->
            exists d, decode_content r = Ok d.
Proof.
  intros r Hin _.
  destruct (run_rows_decode history init_database init_rows_decode) as [Hc _].
  rewrite Forall_forall in Hc. destruct (Hc r Hin) as (d & Hd & _). eauto.
Qed.

(** C2, as the code has it. After any history of calls on a fresh database,
    saving a payload and a metadata dict that JSON holds natively (built from
    [None], booleans, integers, floats other than [nan], strings that can be
    encoded, lists and dicts with distinct string keys) under a content type
    that can be encoded, and listing the policy's contents, yields the new
    row, with [content_data] decoded to the payload and [metadata] decoded to
    the metadata dict. *)
Theorem save_then_get_roundtrip (history : list call) (now : string) (policy_id : Z)
    (content_type : string) (payload : pyval) (metadata : list (pyval * pyval)) :
  storable payload = true ->
  storable (PDict metadata) = true ->
  utf8_valid (chars content_type) = true ->
  let db := fst (run init_database history) in
  exists db' rows r,
    save_policy_content db now policy_id content_type payload (PDict metadata) = Ok db' /\
    get_policy_contents db' policy_id = Ok rows /\
    In r rows /\
    In (Content.raw r) (policy_contents db') /\
    ~ In (Content.raw r) (policy_contents db) /\
    Content.policy_id (Content.raw r) = policy_id /\
    Content.content_type (Content.raw r) = content_type /\
    Content.created_at (Content.raw r) = now /\
    Content.data r = payload /\
    Content.meta r = PDict metadata /\
    py_eq (Content.data r) payload = true /\
    py_eq (Content.meta r) (PDict metadata) = true.
Proof.
  intros Hp Hm _ db. unfold storable in Hp, Hm.
  apply Bool.andb_true_iff in Hp as [Hp Hpt]. apply Bool.andb_true_iff in Hp as [Hp Hpn].
  apply Bool.andb_true_iff in Hm as [Hm Hmt']. apply Bool.andb_true_iff in Hm as [Hm Hmn].
  assert (Hor : py_or (PDict metadata) (PDict []) = PDict metadata)
    by (destruct metadata; reflexivity).
  destruct (json_dumps_native payload Hp) as (dt & Hdt).
  destruct (json_dumps_native (PDict metadata) Hm) as (mt & Hmt).
  rewrite <- Hor in Hmt.
  destruct (save_then_get_contents db now policy_id content_type payload (PDict metadata)
              dt mt Hdt Hmt (history_contents_decode history policy_id))
    as (db' & rows & r & H1 & H2 & H3 & H4 & H5 & H6 & H7 & H8 & H9 & H10 & H11 & H12).
  rewrite Hor in Hmt.
  destruct (json_loads_dumps _ _ Hdt) as (v1 & Hv1 & Hn1 & _).
  destruct (json_loads_dumps _ _ Hmt) as (v2 & Hv2 & Hn2 & _).
  assert (Ed : Content.data r = payload) by (rewrite <- (Hn1 Hp); congruence).
  assert (Em : Content.meta r = PDict metadata) by (rewrite <- (Hn2 Hm); congruence).
  exists db', rows, r. rewrite Ed, Em, (py_eq_refl _ Hpn), (py_eq_refl _ Hmn).
  repeat split; assumption.
Qed.

Lemma save_then_get_roundtrip_witness :
  storable float_payload = true /\
  storable (PDict native_metadata) = true /\
  utf8_valid (chars "analysis") = true /\
  exists db' rows r,
    save_policy_content (fst (run init_database
                                [CreatePolicy "2024-03-01T09:00:00.000000"
                                   "대기질 개선" "환경" "시민" "미세먼지 저감 대책"]))
      "2024-03-01T09:10:00.000000" 1 "analysis" float_payload (PDict native_metadata)
    = Ok db' /\
    get_policy_contents db' 1 = Ok rows /\
    In r rows /\
    In (Content.raw r) (policy_contents db') /\
    ~ In (Content.raw r)
        (policy_contents (fst (run init_database
                                 [CreatePolicy "2024-03-01T09:00:00.000000"
                                    "대기질 개선" "환경" "시민" "미세먼지 저감 대책"]))) /\
    Content.policy_id (Content.raw r) = 1 /\
    Content.content_type (Content.raw r) = "analysis" /\
    Content.created_at (Content.raw r) = "2024-03-01T09:10:00.000000" /\
    Content.data r = float_payload /\
    Content.meta r = PDict native_metadata /\
    py_eq (Content.data r) float_payload = true /\
    py_eq (Content.meta r) (PDict native_metadata) = true.
Proof.
  split; [reflexivity|]. split; [reflexivity|]. split; [reflexivity|].
  apply (save_then_get_roundtrip
           [CreatePolicy "2024-03-01T09:00:00.000000"
              "대기질 개선" "환경" "시민" "미세먼지 저감 대책"]
           "2024-03-01T09:10:00.000000" 1 "analysis" float_payload native_metadata);
    reflexivity.
Defined.

(** C2 fails on the code as stated: a tuple in the payload comes back as a
    list, an integer key of the metadata comes back as a string, and neither
    decoded value equals what was saved. *)
Lemma tuple_payload_not_preserved :
  exists db' rows,
    save_policy_content sample_db "2024-03-01T09:10:00.000000" 1 "analysis"
      tuple_payload int_key_metadata = Ok db' /\
    get_policy_contents db' 1 = Ok rows /\
    rows <> [] /\
    Forall (fun r => py_eq (Content.data r) tuple_payload = false /\
                     py_eq (Content.meta r) int_key_metadata = false) rows.
Proof.
  do 2 eexists. split; [reflexivity|]. split; [reflexivity|].
  split; [discriminate|]. repeat constructor.
Qed.

(** A [nan] in the payload comes back as a [nan], which equals nothing:
    the decoded payload is not equal to the one saved. *)
Example nan_payload_not_equal :
  exists db' d,
    save_policy_content sample_db "2024-03-01T09:10:00.000000" 1 "analysis"
      nan_payload PNone = Ok db' /\
    get_policy_contents db' 1 = Ok [d] /\
    Content.data d = nan_payload /\
    py_eq (Content.data d) nan_payload = false.
Proof. do 2 eexists. repeat split. Qed.

(** C10, as the code has it. After any history of calls on a fresh
    database, a [save_policy_content] without metadata (or with [None])
    whose payload [json.dumps] accepts stores a row whose metadata text is the empty JSON
    object, [get_policy_contents] returns that row with the empty dict as
    metadata, and no row of the listing has [None] as metadata. *)
Theorem save_without_metadata (history : list call) (now : string) (policy_id : Z)
    (content_type : string) (payload : pyval) (dt : string) :
  json_dumps payload = Ok dt ->
  let db := fst (run init_database history) in
  exists db' rows r,
    save_policy_content db now policy_id content_type payload PNone = Ok db' /\
    get_policy_contents db' policy_id = Ok rows /\
    In r rows /\
    In (Content.raw r) (policy_contents db') /\
    ~ In (Content.raw r) (policy_contents db) /\
    Content.created_at (Content.raw r) = now /\
    Content.metadata (Content.raw r) = Some "{}" /\
    Content.meta r = PDict [] /\
    Forall (fun r' => Content.meta r' <> PNone) rows.
Proof.
  intros Hdt db.
  destruct (save_then_get_contents db now policy_id content_type payload PNone
              dt "{}" Hdt eq_refl (history_contents_decode history policy_id))
    as (db' & rows & r & H1 & H2 & H3 & H4 & H5 & H6 & H7 & H8 & H9 & H10 & H11 & H12).
  exists db', rows, r. repeat split; try assumption.
  - change (json_loads "{}") with (@Ok pyval (PDict [])) in H12. congruence.
  - pose proof (step_rows_decode db (SavePolicyContent now policy_id content_type payload PNone)
                  (run_rows_decode history init_database init_rows_decode)) as [Hc _].
    simpl in Hc. rewrite H1 in Hc. simpl in Hc. rewrite Forall_forall in *.
    intros r' Hr'. unfold get_policy_contents in H2.
    destruct (mapM_In _ _ _ _ H2 Hr') as (x & Hx & Hdx).
    apply order_by_desc_In, filter_In in Hx as [Hx _].
    destruct (Hc x Hx) as (d & Hd & Hnone). congruence.
Qed.

Lemma save_without_metadata_witness :
  exists dt,
    json_dumps native_payload = Ok dt /\
    exists db' rows r,
      save_policy_content sample_db "2024-03-01T09:10:00.000000" 1 "analysis"
        native_payload PNone = Ok db' /\
      get_policy_contents db' 1 = Ok rows /\
      In r rows /\
      In (Content.raw r) (policy_contents db') /\
      ~ In (Content.raw r) (policy_contents sample_db) /\
      Content.created_at (Content.raw r) = "2024-03-01T09:10:00.000000" /\
      Content.metadata (Content.raw r) = Some "{}" /\
      Content.meta r = PDict [] /\
      Forall (fun r' => Content.meta r' <> PNone) rows.
Proof.
  eexists. split; [reflexivity|].
  apply (save_without_metadata
           [CreatePolicy "2024-03-01T09:00:00.000000"
              "대기질 개선" "환경" "시민" "미세먼지 저감 대책"]
           "2024-03-01T09:10:00.000000" 1 "analysis" native_payload _ eq_refl).
Defined.

(** C10 fails on the code as stated: the payload is encoded before
    anything is written, so a call without metadata whose payload
    [json.dumps] rejects raises and stores no row. *)
Lemma unencodable_payload_stores_no_row :
  save_policy_content sample_db "2024-03-01T09:10:00.000000" 1 "analysis"
    tuple_key_payload PNone = Raise TypeError /\
  get_policy_contents
    (fst (step sample_db
            (SavePolicyContent "2024-03-01T09:10:00.000000" 1 "analysis"
               tuple_key_payload PNone))) 1 = Ok [].
Proof. split; reflexivity. Qed.

(** ** Listings of generated media *)

Lemma get_generated_media_some (db : database) (policy_id : Z) (mt : string) :
  mt <> "" ->
  get_generated_media db policy_id (Some mt)
  = mapM decode_media
      (order_by_desc Media.created_at
         (filter (media_of_type policy_id mt) (generated_media db))).
Proof.
  intros Hne. unfold get_generated_media. simpl.
  destruct (String.eqb_spec mt ""); [contradiction|]. reflexivity.
Qed.

Lemma get_generated_media_none (db : database) (policy_id : Z) :
  get_generated_media db policy_id None
  = mapM decode_media
      (order_by_desc Media.created_at (filter (media_of policy_id) (generated_media db))).
Proof. reflexivity. Qed.

Lemma listing_media (db : database) (f : Media.row -> bool) :
  Forall (fun r => exists d, decode_media r = Ok d) (generated_media db) ->
  exists rows,
    mapM decode_media (order_by_desc Media.created_at (filter f (generated_media db)))
    = Ok rows /\
    Permutation (map Media.raw rows) (filter f (generated_media db)) /\
    sorted_desc Media.created_at (map Media.raw rows).
Proof.
  intros Hdec.
  assert (H : exists rows,
             mapM decode_media
               (order_by_desc Media.created_at (filter f (generated_media db))) = Ok rows).
  { apply mapM_ok_iff. rewrite Forall_forall in *. intros r Hr.
    apply order_by_desc_In, filter_In in Hr as [Hr _]. exact (Hdec r Hr). }
  destruct H as (rows & Hrows). exists rows. split; [exact Hrows|].
  rewrite (mapM_raw _ _ _ _ decode_media_raw Hrows).
  split; [apply order_by_desc_perm|apply order_by_desc_sorted].
Qed.

(** C9, as the code has it. After any history of calls on a fresh database:
    with a media type that is not the empty string, [get_generated_media]
    returns exactly the stored media rows of the policy that have this
    media type, newest first; with [None] it returns all the stored media
    rows of the policy, newest first. *)
Theorem get_generated_media_by_type (history : list call) (policy_id : Z) (mt : string) :
  mt <> "" ->
  let db := fst (run init_database history) in
  (exists rows,
     get_generated_media db policy_id (Some mt) = Ok rows /\
     Permutation (map Media.raw rows)
       (filter (media_of_type policy_id mt) (generated_media db)) /\
     sorted_desc Media.created_at (map Media.raw rows)) /\
  (exists rows,
     get_generated_media db policy_id None = Ok rows /\
     Permutation (map Media.raw rows) (filter (media_of policy_id) (generated_media db)) /\
     sorted_desc Media.created_at (map Media.raw rows)).
Proof.
  intros Hne db.
  destruct (run_rows_decode history init_database init_rows_decode) as [_ Hm].
  fold db in Hm. split.
  - rewrite (get_generated_media_some db policy_id mt Hne). apply listing_media, Hm.
  - rewrite get_generated_media_none. apply listing_media, Hm.
Qed.

Lemma get_generated_media_by_type_witness :
  "image" <> "" /\
  (exists rows,
     get_generated_media media_db 1 (Some "image") = Ok rows /\
     Permutation (map Media.raw rows)
       (filter (media_of_type 1 "image") (generated_media media_db)) /\
     sorted_desc Media.created_at (map Media.raw rows)) /\
  (exists rows,
     get_generated_media media_db 1 None = Ok rows /\
     Permutation (map Media.raw rows) (filter (media_of 1) (generated_media media_db)) /\
     sorted_desc Media.created_at (map Media.raw rows)).
Proof.
  split; [discriminate|].
  apply (get_generated_media_by_type
           [CreatePolicy "2024-03-01T09:00:00.000000"
              "대기질 개선" "환경" "시민" "미세먼지 저감 대책";
            SaveGeneratedMedia "2024-03-01T09:20:00.000000" 1 "image"
              [Byte.x89; Byte.x50; Byte.x4e; Byte.x47] "clean air over Seoul"
              (PDict [(PStr "size", PStr "1024x1024"); (PStr "quality", PStr "standard")])]
           1 "image").
  discriminate.
Defined.

(** C9 fails on the code as stated: the empty string is a media type that
    is not [None], yet [get_generated_media] answers it with the rows of
    every media type. *)
Lemma empty_media_type_lists_all :
  exists rows r,
    get_generated_media media_db 1 (Some "") = Ok rows /\
    In r rows /\
    Media.media_type (Media.raw r) = "image" /\
    Media.media_type (Media.raw r) <> "".
Proof.
  do 2 eexists. split; [reflexivity|]. split; [left; reflexivity|].
  split; [reflexivity|discriminate].
Qed.

(** * Further properties *)

(** ** Identifiers are consecutive *)

Lemma count_up_snoc (n : nat) : count_up (S n) = count_up n ++ [Z.of_nat (S n)].
Proof.
  unfold count_up. rewrite seq_S, map_app. reflexivity.
Qed.

Lemma max_rowid_count_up (n : nat) : max_rowid (count_up n) = Z.of_nat n.
Proof.
  induction n as [|n IH]; [reflexivity|].
  rewrite count_up_snoc.
  assert (H : forall a x, 0 <= x -> max_rowid (a ++ [x]) = Z.max (max_rowid a) x).
  { induction a as [|y a IHa]; intros x Hx; simpl; [lia|]. rewrite (IHa x Hx). lia. }
  rewrite H, IH; lia.
Qed.

Lemma next_rowid_count_up (n : nat) :
  next_rowid (Z.of_nat n) (count_up n) = Z.of_nat (S n).
Proof. unfold next_rowid. rewrite max_rowid_count_up. lia. Qed.

Lemma map_id_set_status (policy_id : Z) (status now : string) (l : list Policy.row) :
  map Policy.id (map (set_status policy_id status now) l) = map Policy.id l.
Proof.
  rewrite map_map. apply map_ext. intros r. apply set_status_id.
Qed.

Lemma step_ids_consecutive (db : database) (c : call) :
  ids_consecutive db -> ids_consecutive (fst (step db c)).
Proof.
  intros (P1 & P2 & C1 & C2 & M1 & M2). destruct c; simpl.
  - unfold ids_consecutive. simpl.
    rewrite P1, P2, length_app, Nat.add_comm. simpl List.length.
    rewrite map_app, P1, next_rowid_count_up, count_up_snoc. simpl.
    repeat split; assumption.
  - unfold ids_consecutive. simpl. rewrite map_id_set_status, length_map.
    repeat split; assumption.
  - destruct (save_policy_content _ _ _ _ _ _) as [db'|e] eqn:E; simpl;
      [|repeat split; assumption].
    unfold save_policy_content in E.
    apply bind_ok in E as (dt & _ & E). apply bind_ok in E as (mt & _ & E).
    injection E as <-. unfold ids_consecutive. simpl.
    rewrite C1, C2, length_app, Nat.add_comm. simpl List.length.
    rewrite map_app, C1, next_rowid_count_up, count_up_snoc. simpl.
    repeat split; assumption.
  - destruct (save_generated_media _ _ _ _ _ _ _) as [db'|e] eqn:E; simpl;
      [|repeat split; assumption].
    unfold save_generated_media in E.
    apply bind_ok in E as (pt & _ & E).
    injection E as <-. unfold ids_consecutive. simpl.
    rewrite M1, M2, length_app, Nat.add_comm. simpl List.length.
    rewrite map_app, M1, next_rowid_count_up, count_up_snoc. simpl.
    repeat split; assumption.
Qed.

Lemma run_ids_consecutive (cs : list call) (db : database) :
  ids_consecutive db -> ids_consecutive (fst (run db cs)).
Proof.
  revert db. induction cs as [|c cs IH]; intros db Hdb; simpl; [exact Hdb|].
  pose proof (step_ids_consecutive db c Hdb) as H1.
  destruct (step db c) as [db1 r]. simpl in H1.
  specialize (IH db1 H1). destruct (run db1 cs) as [db2 ids]. exact IH.
Qed.

Lemma init_ids_consecutive : ids_consecutive init_database.
Proof. repeat split; reflexivity. Qed.

(** X1. After any history of calls on a fresh database, each of the three
    tables holds the identifiers 1, 2, ..., n in row order, n being its
    number of rows, and its counter is n: identifiers have no gap and no
    repetition. *)
Theorem identifiers_are_consecutive (history : list call) :
  ids_consecutive (fst (run init_database history)).
Proof. apply run_ids_consecutive, init_ids_consecutive. Qed.

(** ** [get_policy] on the identifiers in use *)

Lemma in_count_up (n : nat) (i : Z) : In i (count_up n) <-> 1 <= i <= Z.of_nat n.
Proof.
  unfold count_up. rewrite in_map_iff. split.
  - intros (k & <- & Hk). apply in_seq in Hk. lia.
  - intros Hi. exists (Z.to_nat i). split; [lia|]. apply in_seq. lia.
Qed.

Lemma count_up_NoDup (n : nat) : NoDup (count_up n).
Proof.
  unfold count_up. apply Finite.Injective_map_NoDup; [|apply seq_NoDup].
  intros a b H. lia.
Qed.

Lemma find_by_unique_id (l : list Policy.row) (p : Policy.row) :
  NoDup (map Policy.id l) -> In p l ->
  find (fun r => Policy.id r =? Policy.id p) l = Some p.
Proof.
  induction l as [|q l IH]; simpl; [contradiction|].
  intros Hnd [->|Hin]; [rewrite Z.eqb_refl; reflexivity|].
  inversion Hnd as [|? ? Hq Hnd']; subst.
  destruct (Z.eqb_spec (Policy.id q) (Policy.id p)) as [E|_]; [|exact (IH Hnd' Hin)].
  exfalso. apply Hq. rewrite E. apply in_map, Hin.
Qed.

(** X2. After any history of calls on a fresh database holding n policies,
    [get_policy] returns a row exactly for the identifiers 1..n, and every
    stored policy is the row [get_policy] returns for its identifier. *)
Theorem get_policy_finds_stored (history : list call) (i : Z) :
  let db := fst (run init_database history) in
  (get_policy db i = None <-> (i < 1 \/ Z.of_nat (List.length (policies db)) < i)) /\
  (forall p, In p (policies db) -> get_policy db (Policy.id p) = Some p).
Proof.
  intros db.
  destruct (run_ids_consecutive history _ init_ids_consecutive) as (Hids & _).
  fold db in Hids. split.
  - unfold get_policy. split.
    + intros Hnone.
      destruct (Z_lt_dec i 1) as [|H1]; [left; assumption|].
      destruct (Z_lt_dec (Z.of_nat (List.length (policies db))) i) as [|H2];
        [right; assumption|].
      exfalso. assert (Hin : In i (map Policy.id (policies db)))
        by (rewrite Hids; apply in_count_up; lia).
      apply in_map_iff in Hin as (p & Hp & Hin).
      pose proof (find_none _ _ Hnone p Hin) as Hf. simpl in Hf.
      apply Z.eqb_neq in Hf. contradiction.
    + intros Hout. destruct (find _ (policies db)) as [p|] eqn:E; [|reflexivity].
      exfalso. apply find_some in E as [Hin Hp]. apply Z.eqb_eq in Hp.
      assert (Hi : In i (map Policy.id (policies db)))
        by (rewrite <- Hp; apply in_map, Hin).
      rewrite Hids in Hi. apply in_count_up in Hi. lia.
  - intros p Hin. apply find_by_unique_id; [|exact Hin].
    rewrite Hids. apply count_up_NoDup.
Qed.

(** ** [create_policy] and the listings *)

Lemma find_app_found {A : Type} (f : A -> bool) (l m : list A) (x : A) :
  find f l = Some x -> find f (l ++ m) = Some x.
Proof.
  induction l as [|y l IH]; simpl; [discriminate|].
  destruct (f y); [trivial|exact IH].
Qed.

(** X3. [create_policy] only appends: the policies stored before are the
    first rows of the table afterwards, unchanged, both other tables and
    their counters are as they were, and [get_policy] answers every
    identifier that was in use as before. *)
Theorem create_policy_frame (db : database)
    (now title category target_audience description : string) :
  let db' := fst (create_policy db now title category target_audience description) in
  firstn (List.length (policies db)) (policies db') = policies db /\
  List.length (policies db') = S (List.length (policies db)) /\
  policy_contents db' = policy_contents db /\
  policy_contents_seq db' = policy_contents_seq db /\
  generated_media db' = generated_media db /\
  generated_media_seq db' = generated_media_seq db /\
  (forall i p, get_policy db i = Some p -> get_policy db' i = Some p).
Proof.
  intros db'. subst db'. simpl. repeat split; try reflexivity.
  - rewrite firstn_app, Nat.sub_diag, firstn_all. simpl. apply app_nil_r.
  - rewrite length_app. simpl. lia.
  - intros i p H. unfold get_policy in *. simpl. apply find_app_found, H.
Qed.

Lemma order_by_desc_newest {A : Type} (key : A -> string) (l : list A) (x : A) :
  Forall (fun y => String.ltb (key y) (key x) = true) l ->
  order_by_desc key (l ++ [x]) = x :: order_by_desc key l.
Proof.
  induction 1 as [|y l Hy _ IH]; [reflexivity|].
  change (order_by_desc key ((y :: l) ++ [x]))
    with (insert_desc key y (order_by_desc key (l ++ [x]))).
  rewrite IH. simpl. rewrite Hy. reflexivity.
Qed.

(** X4. When the clock reading of [create_policy] is later than the
    [created_at] of every stored policy, the new policy is the first row of
    [get_all_policies] for every limit other than 0. *)
Theorem create_policy_listed_first (db : database)
    (now title category target_audience description : string) (limit : Z) :
  Forall (fun p => text_lt (Policy.created_at p) now) (policies db) ->
  limit <> 0 ->
  let db' := fst (create_policy db now title category target_audience description) in
  let rowid := snd (create_policy db now title category target_audience description) in
  exists p rest,
    get_all_policies db' limit = p :: rest /\
    Policy.id p = rowid /\ Policy.title p = title /\ Policy.created_at p = now.
Proof.
  intros Hnew Hlimit db' rowid. subst db' rowid. unfold get_all_policies. simpl.
  rewrite order_by_desc_newest by exact Hnew.
  unfold sql_limit. destruct (limit <? 0) eqn:E.
  - eexists _, _. repeat split.
  - apply Z.ltb_ge in E. destruct (Z.to_nat limit) as [|k] eqn:Ek; [lia|].
    simpl. eexists _, _. repeat split.
Qed.

(** On calendar dates written [YYYY-MM-DD], a date that is not after another
    is not after it as text either. *)
Lemma iso_date_text_le (a b : string) (ta tb : Z * Z * Z) :
  iso_date a = Some ta -> iso_date b = Some tb ->
  date_ltb tb ta = false -> String.leb a b = true.
Proof.
  intros Ha Hb Hn.
  destruct (String.ltb b a) eqn:E; [|apply ltb_false_leb, E].
  destruct (String.leb a b) eqn:E'; [reflexivity|].
  (* b < a as text: then the dates differ, and date order follows text order *)
  exfalso.
  destruct (date_ltb ta tb) eqn:Eab.
  - pose proof (iso_date_order _ _ _ _ Ha Hb Eab) as Hab.
    apply ltb_true_not_leb in Hab.
    apply ltb_true_leb in E. congruence.
  - (* neither date is before the other: they are equal, so are the texts *)
    apply iso_date_shape in Ha, Hb.
    destruct Ha as (y & m & dd & -> & Ha), Hb as (y' & m' & dd' & -> & Hb).
    apply parse_ymd_shape in Ha, Hb.
    destruct Ha as (a1 & a2 & a3 & a4 & a5 & a6 & a7 & a8 & yh & yl & Hs1 & D1 & D2 & D3 & D4 & ->).
    destruct Hb as (b1 & b2 & b3 & b4 & b5 & b6 & b7 & b8 & yh' & yl' & Hs2 & E1 & E2 & E3 & E4 & ->).
    apply two_digits_spec in D1, D2, D3, D4, E1, E2, E3, E4.
    unfold date_ltb in Hn, Eab.
    rewrite !Bool.orb_false_iff, !Bool.andb_false_iff, !Bool.orb_false_iff,
      !Bool.andb_false_iff, !Z.ltb_ge, !Z.eqb_neq in Hn, Eab.
    assert (Hx : forall u v : ascii, N_of_ascii u = N_of_ascii v -> u = v).
    { intros u v Huv. rewrite <- (ascii_N_embedding u), <- (ascii_N_embedding v), Huv.
      reflexivity. }
    assert (a = b).
    { rewrite <- (string_of_list_ascii_of_string a), <- (string_of_list_ascii_of_string b).
      unfold chars in Hs1, Hs2. rewrite Hs1, Hs2.
      assert (a1 = b1 /\ a2 = b2 /\ a3 = b3 /\ a4 = b4 /\ a5 = b5 /\ a6 = b6
              /\ a7 = b7 /\ a8 = b8) as (-> & -> & -> & -> & -> & -> & -> & ->)
        by (repeat split; apply Hx; lia).
      reflexivity. }
    subst b. rewrite leb_refl in E'. discriminate.
Qed.

(** X5. A policy created at a clock reading whose date is [d] is listed by
    [get_policies_by_date] for [d], and by every range query whose bounds
    are calendar dates with [d] between them. *)
Theorem create_policy_listed_by_date (db : database)
    (now title category target_audience description : string)
    (d lo hi : string) (td tlo thi : Z * Z * Z) :
  sqlite_date now = Some d ->
  iso_date d = Some td -> iso_date lo = Some tlo -> iso_date hi = Some thi ->
  date_ltb td tlo = false -> date_ltb thi td = false ->
  let db' := fst (create_policy db now title category target_audience description) in
  let rowid := snd (create_policy db now title category target_audience description) in
  (exists p, In p (get_policies_by_date db' d) /\ Policy.id p = rowid) /\
  (exists p, In p (get_policies_by_date_range db' lo hi) /\ Policy.id p = rowid).
Proof.
  intros Hnow Hd Hlo Hhi H1 H2 db' rowid. subst db' rowid.
  pose proof iso_date_text_le as Hle.
  assert (Hdd : sqlite_date d = Some d) by exact (sqlite_date_iso _ _ Hd).
  split.
  - eexists. split.
    + unfold get_policies_by_date. apply order_by_desc_In, filter_In. split.
      * simpl. apply in_or_app. right. left. reflexivity.
      * simpl. rewrite Hnow, Hdd. simpl. apply String.eqb_refl.
    + reflexivity.
  - eexists. split.
    + unfold get_policies_by_date_range. apply order_by_desc_In, filter_In. split.
      * simpl. apply in_or_app. right. left. reflexivity.
      * simpl. rewrite Hnow, (sqlite_date_iso _ _ Hlo), (sqlite_date_iso _ _ Hhi). simpl.
        rewrite (Hle lo d tlo td Hlo Hd H1), (Hle d hi td thi Hd Hhi H2). reflexivity.
    + reflexivity.
Qed.

(** X6. A range query between two calendar dates returns every policy the
    single-date query returns for a calendar date between them, and a wider
    range returns every policy a narrower one returns. *)
Theorem range_covers_its_days (db : database) (d lo hi lo' hi' : string)
    (td tlo thi tlo' thi' : Z * Z * Z) :
  iso_date d = Some td -> iso_date lo = Some tlo -> iso_date hi = Some thi ->
  iso_date lo' = Some tlo' -> iso_date hi' = Some thi' ->
  date_ltb td tlo = false -> date_ltb thi td = false ->
  date_ltb tlo tlo' = false -> date_ltb thi' thi = false ->
  (forall p, In p (get_policies_by_date db d) -> In p (get_policies_by_date_range db lo hi)) /\
  (forall p, In p (get_policies_by_date_range db lo hi) ->
             In p (get_policies_by_date_range db lo' hi')).
Proof.
  intros Hd Hlo Hhi Hlo' Hhi' H1 H2 H3 H4.
  pose proof (iso_date_text_le lo d tlo td Hlo Hd H1) as L1.
  pose proof (iso_date_text_le d hi td thi Hd Hhi H2) as L2.
  pose proof (iso_date_text_le lo' lo tlo' tlo Hlo' Hlo H3) as L3.
  pose proof (iso_date_text_le hi hi' thi thi' Hhi Hhi' H4) as L4.
  unfold get_policies_by_date, get_policies_by_date_range.
  rewrite (sqlite_date_iso _ _ Hd), (sqlite_date_iso _ _ Hlo), (sqlite_date_iso _ _ Hhi),
    (sqlite_date_iso _ _ Hlo'), (sqlite_date_iso _ _ Hhi').
  split; intros p Hp; apply order_by_desc_In, filter_In in Hp as [Hin Hp];
    apply order_by_desc_In, filter_In; (split; [exact Hin|]);
    destruct (sqlite_date (Policy.created_at p)) as [x|]; try discriminate; simpl in *.
  - apply String.eqb_eq in Hp as ->. rewrite L1, L2. reflexivity.
  - apply Bool.andb_true_iff in Hp as [Ha Hb].
    rewrite (leb_trans _ _ _ L3 Ha), (leb_trans _ _ _ Hb L4). reflexivity.
Qed.

Lemma range_covers_its_days_witness :
  (forall p, In p (get_policies_by_date sample_db "2024-03-01") ->
             In p (get_policies_by_date_range sample_db "2024-02-28" "2024-03-02")) /\
  (forall p, In p (get_policies_by_date_range sample_db "2024-02-28" "2024-03-02") ->
             In p (get_policies_by_date_range sample_db "2024-01-01" "2024-12-31")).
Proof.
  apply (range_covers_its_days sample_db "2024-03-01" "2024-02-28" "2024-03-02"
           "2024-01-01" "2024-12-31" (2024, 3, 1) (2024, 2, 28) (2024, 3, 2)
           (2024, 1, 1) (2024, 12, 31)); reflexivity.
Defined.

(** ** [update_policy_status] and the listings *)

Lemma insert_desc_map {A : Type} (key : A -> string) (g : A -> A) (x : A) (l : list A) :
  (forall y, key (g y) = key y) ->
  insert_desc key (g x) (map g l) = map g (insert_desc key x l).
Proof.
  intros Hg. induction l as [|y l IH]; simpl; [reflexivity|].
  rewrite !Hg. destruct (String.ltb (key x) (key y)); simpl; [rewrite IH|]; reflexivity.
Qed.

Lemma order_by_desc_map {A : Type} (key : A -> string) (g : A -> A) (l : list A) :
  (forall y, key (g y) = key y) ->
  order_by_desc key (map g l) = map g (order_by_desc key l).
Proof.
  intros Hg. induction l as [|x l IH]; [reflexivity|].
  change (order_by_desc key (map g (x :: l)))
    with (insert_desc key (g x) (order_by_desc key (map g l))).
  rewrite IH. apply insert_desc_map, Hg.
Qed.

Lemma filter_map_same {A : Type} (f : A -> bool) (g : A -> A) (l : list A) :
  (forall y, f (g y) = f y) -> filter f (map g l) = map g (filter f l).
Proof.
  intros Hg. induction l as [|x l IH]; simpl; [reflexivity|].
  rewrite Hg. destruct (f x); simpl; rewrite IH; reflexivity.
Qed.

Lemma set_status_created_at (policy_id : Z) (status now : string) (r : Policy.row) :
  Policy.created_at (set_status policy_id status now r) = Policy.created_at r.
Proof. unfold set_status. destruct (Policy.id r =? policy_id); reflexivity. Qed.

(** X7. [update_policy_status] changes neither which policies a listing
    returns nor their order: each listing after the update is the listing
    before it, with the update applied to its rows. *)
Theorem update_status_keeps_listings (db : database) (now : string) (policy_id : Z)
    (s : string) :
  let db' := update_policy_status db now policy_id s in
  let upd := set_status policy_id s now in
  (forall limit, get_all_policies db' limit = map upd (get_all_policies db limit)) /\
  (forall d, get_policies_by_date db' d = map upd (get_policies_by_date db d)) /\
  (forall lo hi, get_policies_by_date_range db' lo hi
                 = map upd (get_policies_by_date_range db lo hi)).
Proof.
  intros db' upd. subst db' upd.
  pose proof (set_status_created_at policy_id s now) as Hc.
  split; [|split].
  - intros limit. unfold get_all_policies. simpl.
    rewrite (order_by_desc_map _ _ _ Hc). unfold sql_limit.
    destruct (limit <? 0); [reflexivity|]. apply firstn_map.
  - intros d. unfold get_policies_by_date. simpl.
    rewrite filter_map_same by (intros y; rewrite Hc; reflexivity).
    apply order_by_desc_map, Hc.
  - intros lo hi. unfold get_policies_by_date_range. simpl.
    rewrite filter_map_same by (intros y; rewrite Hc; reflexivity).
    apply order_by_desc_map, Hc.
Qed.

(** X8. Of two [update_policy_status] calls on the same policy the later
    one decides status and [updated_at]; calls on different policies can be
    made in either order. *)
Theorem update_status_composes (db : database) (now1 now2 : string) (i j : Z)
    (s1 s2 : string) :
  update_policy_status (update_policy_status db now1 i s1) now2 i s2
  = update_policy_status db now2 i s2 /\
  (i <> j ->
   update_policy_status (update_policy_status db now1 i s1) now2 j s2
   = update_policy_status (update_policy_status db now2 j s2) now1 i s1).
Proof.
  unfold update_policy_status. simpl. split; [|intros Hij]; f_equal;
    rewrite !map_map; apply map_ext; intros r; unfold set_status.
  - destruct (Policy.id r =? i) eqn:Ei; simpl; rewrite Ei; reflexivity.
  - destruct (Policy.id r =? i) eqn:Ei, (Policy.id r =? j) eqn:Ej; simpl;
      rewrite ?Ei, ?Ej; try reflexivity.
    apply Z.eqb_eq in Ei, Ej. congruence.
Qed.

Lemma update_status_composes_witness :
  1 <> 2 /\
  update_policy_status
    (update_policy_status sample_db "2024-03-01T10:00:00" 1 "active")
    "2024-03-01T11:00:00" 2 "archived"
  = update_policy_status
      (update_policy_status sample_db "2024-03-01T11:00:00" 2 "archived")
      "2024-03-01T10:00:00" 1 "active".
Proof.
  split; [discriminate|].
  apply (update_status_composes sample_db "2024-03-01T10:00:00" "2024-03-01T11:00:00"
           1 2 "active" "archived"). discriminate.
Defined.

Lemma create_policy_listed_first_witness :
  Forall (fun p => text_lt (Policy.created_at p) "2024-03-02T08:00:00.000000")
         (policies sample_db) /\
  20 <> 0 /\
  exists p rest,
    get_all_policies
      (fst (create_policy sample_db "2024-03-02T08:00:00.000000"
              "수질 개선" "환경" "시민" "하천 정화"))
      20 = p :: rest /\
    Policy.id p = snd (create_policy sample_db "2024-03-02T08:00:00.000000"
                         "수질 개선" "환경" "시민" "하천 정화") /\
    Policy.title p = "수질 개선" /\
    Policy.created_at p = "2024-03-02T08:00:00.000000".
Proof.
  assert (H : Forall (fun p => text_lt (Policy.created_at p) "2024-03-02T08:00:00.000000")
                     (policies sample_db)) by (repeat constructor).
  split; [exact H|]. split; [discriminate|].
  apply (create_policy_listed_first sample_db "2024-03-02T08:00:00.000000"
           "수질 개선" "환경" "시민" "하천 정화" 20 H). discriminate.
Defined.

Lemma create_policy_listed_by_date_witness :
  sqlite_date "2024-03-02T08:00:00.000000" = Some "2024-03-02" /\
  (exists p,
     In p (get_policies_by_date
             (fst (create_policy sample_db "2024-03-02T08:00:00.000000"
                     "수질 개선" "환경" "시민" "하천 정화")) "2024-03-02") /\
     Policy.id p = snd (create_policy sample_db "2024-03-02T08:00:00.000000"
                          "수질 개선" "환경" "시민" "하천 정화")) /\
  (exists p,
     In p (get_policies_by_date_range
             (fst (create_policy sample_db "2024-03-02T08:00:00.000000"
                     "수질 개선" "환경" "시민" "하천 정화")) "2024-03-01" "2024-03-31") /\
     Policy.id p = snd (create_policy sample_db "2024-03-02T08:00:00.000000"
                          "수질 개선" "환경" "시민" "하천 정화")).
Proof.
  split; [reflexivity|].
  apply (create_policy_listed_by_date sample_db "2024-03-02T08:00:00.000000"
           "수질 개선" "환경" "시민" "하천 정화" "2024-03-02" "2024-03-01" "2024-03-31"
           (2024, 3, 2) (2024, 3, 1) (2024, 3, 31)); reflexivity.
Defined.

(** ** [get_all_policies]: the most recent rows *)

Lemma sorted_desc_strong {A : Type} (key : A -> string) (l : list A) :
  sorted_desc key l ->
  StronglySorted (fun a b => String.leb (key b) (key a) = true) l.
Proof.
  unfold sorted_desc. apply Sorted_StronglySorted.
  intros a b c Hab Hbc. exact (leb_trans _ _ _ Hbc Hab).
Qed.

Lemma strongly_sorted_split {A : Type} (R : A -> A -> Prop) (n : nat) (l : list A) :
  StronglySorted R l ->
  forall p q, In p (firstn n l) -> In q (skipn n l) -> R p q.
Proof.
  revert l. induction n as [|n IH]; intros l Hs p q Hp Hq; [contradiction|].
  destruct l as [|x l]; [contradiction|].
  inversion Hs as [|? ? Hl Hx]; subst. simpl in Hp, Hq.
  destruct Hp as [<-|Hp].
  - rewrite Forall_forall in Hx. apply Hx.
    rewrite <- (firstn_skipn n l). apply in_or_app. right. exact Hq.
  - exact (IH l Hl p q Hp Hq).
Qed.

(** X9. [get_all_policies] returns the most recent policies: the stored
    policies are the returned rows together with rows that are all at most as
    recent as every returned row.  It returns [min limit n] of the [n] stored
    policies, and all of them when the limit is negative. *)
Theorem get_all_policies_most_recent (db : database) (limit : Z) :
  (exists rest,
     Permutation (policies db) (get_all_policies db limit ++ rest) /\
     forall p q, In p (get_all_policies db limit) -> In q rest ->
                 text_le (Policy.created_at q) (Policy.created_at p)) /\
  List.length (get_all_policies db limit)
  = (if limit <? 0 then List.length (policies db)
     else Nat.min (Z.to_nat limit) (List.length (policies db))).
Proof.
  unfold get_all_policies, sql_limit. destruct (limit <? 0).
  - split; [|apply order_by_desc_length].
    exists []. rewrite app_nil_r. split; [|contradiction].
    apply Permutation_sym, order_by_desc_perm.
  - split; [|rewrite length_firstn, order_by_desc_length; reflexivity].
    exists (skipn (Z.to_nat limit) (order_by_desc Policy.created_at (policies db))).
    rewrite firstn_skipn. split; [apply Permutation_sym, order_by_desc_perm|].
    intros p q Hp Hq. unfold text_le.
    exact (strongly_sorted_split _ _ _
             (sorted_desc_strong _ _ (order_by_desc_sorted Policy.created_at (policies db)))
             p q Hp Hq).
Qed.

(** ** What [json_loads] returns is JSON-native *)

Lemma NoDup_distinct (l : list string) : NoDup l -> distinct l = true.
Proof.
  induction 1 as [|x l Hx _ IH]; [reflexivity|]. simpl. rewrite IH, Bool.andb_true_r.
  apply Bool.negb_true_iff. destruct (existsb (String.eqb x) l) eqn:E; [|reflexivity].
  apply existsb_exists in E as (y & Hy & Exy). apply String.eqb_eq in Exy. subst y.
  contradiction.
Qed.

Lemma dict_set_keys (d : list (string * pyval)) (k : string) (v : pyval) (x : string) :
  In x (map fst (dict_set d k v)) -> In x (map fst d) \/ x = k.
Proof.
  induction d as [|[k' v'] d IH]; simpl.
  - intros [<-|[]]. right. reflexivity.
  - destruct (k' =? k)%string; simpl.
    + intros [H|H]; auto.
    + intros [H|H]; [auto|]. destruct (IH H); auto.
Qed.

Lemma dict_set_NoDup (d : list (string * pyval)) (k : string) (v : pyval) :
  NoDup (map fst d) -> NoDup (map fst (dict_set d k v)).
Proof.
  induction d as [|[k' v'] d IH]; simpl; intros H.
  - constructor; [intros []|constructor].
  - inversion H as [|? ? Hk' Hd]; subst.
    destruct (String.eqb_spec k' k) as [->|Hne]; simpl.
    + constructor; assumption.
    + constructor; [|apply IH, Hd].
      intros Hin. apply dict_set_keys in Hin as [Hin|Hin]; [contradiction|congruence].
Qed.

Lemma dict_set_values (P : pyval -> Prop) (d : list (string * pyval)) (k : string)
    (v : pyval) :
  Forall (fun kv => P (snd kv)) d -> P v -> Forall (fun kv => P (snd kv)) (dict_set d k v).
Proof.
  intros Hd Hv. induction Hd as [|[k' v'] d Hx Hd IH]; simpl.
  - constructor; [exact Hv|constructor].
  - destruct (k' =? k)%string; constructor; assumption.
Qed.

Lemma fold_dict_set_invariant (pairs acc : list (string * pyval)) :
  Forall (fun kv => json_native (snd kv) = true) pairs ->
  NoDup (map fst acc) -> Forall (fun kv => json_native (snd kv) = true) acc ->
  let d := fold_left (fun d kv => dict_set d (fst kv) (snd kv)) pairs acc in
  NoDup (map fst d) /\ Forall (fun kv => json_native (snd kv) = true) d.
Proof.
  intros Hp. revert acc. induction Hp as [|[k v] pairs Hv _ IH]; intros acc Hnd Hacc; simpl.
  - split; assumption.
  - apply IH; [apply dict_set_NoDup, Hnd|].
    apply (dict_set_values (fun v => json_native v = true)); assumption.
Qed.

Lemma string_keys_as_pairs (d : list (string * pyval)) :
  string_keys (as_pairs d) = Some (map fst d).
Proof.
  unfold string_keys, as_pairs.
  induction d as [|[k v] d IH]; [reflexivity|]. cbn [map fold_right fst key_string].
  rewrite IH. reflexivity.
Qed.

Lemma dict_of_pairs_native (pairs : list (string * pyval)) :
  Forall (fun kv => json_native (snd kv) = true) pairs ->
  json_native (dict_of_pairs pairs) = true.
Proof.
  intros Hp.
  destruct (fold_dict_set_invariant pairs [] Hp (NoDup_nil _) (Forall_nil _)) as [Hnd Hv].
  unfold dict_of_pairs.
  set (d := fold_left (fun d kv => dict_set d (fst kv) (snd kv)) pairs []) in *.
  change (map (fun kv : string * pyval => (PStr (fst kv), snd kv)) d) with (as_pairs d).
  cbn [json_native]. rewrite string_keys_as_pairs, (NoDup_distinct _ Hnd), Bool.andb_true_r.
  unfold as_pairs. rewrite forallb_forall. intros kv Hin.
  apply in_map_iff in Hin as (x & <- & Hx). rewrite Forall_forall in Hv. exact (Hv x Hx).
Qed.

Lemma scan_number_native (s : list ascii) (v : pyval) (rest : list ascii) :
  scan_number s = Ok (v, rest) -> json_native v = true.
Proof.
  unfold scan_number. destruct (match_integer s) as [[[neg ds] r]|].
  - destruct (has_frac r || has_exp r); [|intros [= <- _]; reflexivity].
    destruct (scan_frac r) as [fs r1]. destruct (scan_exp r1) as [x r2].
    intros [= <- _]. apply float_of_literal_ok.
  - repeat (destruct (starts_with _ s); [intros [= <- _]; reflexivity|]). discriminate.
Qed.

Lemma parse_native (fuel : nat) :
  (forall s v rest, parse_value fuel s = Ok (v, rest) -> json_native v = true) /\
  (forall s vs rest, parse_elements fuel s = Ok (vs, rest) ->
     forallb json_native vs = true) /\
  (forall s kvs rest, parse_members fuel s = Ok (kvs, rest) ->
     Forall (fun kv => json_native (snd kv) = true) kvs).
Proof.
  induction fuel as [|fuel (IHv & IHe & IHm)]; [repeat split; discriminate|].
  split; [|split].
  - intros [|c r] v rest H; [discriminate|]. rewrite parse_value_eq in H.
    destruct (c =? DQUOTE)%char.
    { destruct (scanstring r) as [[body rest']|]; [|discriminate].
      injection H as <- _. reflexivity. }
    destruct (c =? "{")%char.
    { destruct (skip_ws r) as [|c1 r1]; [discriminate|].
      destruct (c1 =? "}")%char; [injection H as <- _; reflexivity|].
      destruct (c1 =? DQUOTE)%char; [|discriminate].
      apply bind_ok in H as ([pairs rest'] & Hm & H). injection H as <- _.
      apply dict_of_pairs_native. exact (IHm _ _ _ Hm). }
    destruct (c =? "[")%char.
    { destruct (skip_ws r) as [|c1 r1]; [discriminate|].
      destruct (c1 =? "]")%char; [injection H as <- _; reflexivity|].
      apply bind_ok in H as ([items rest'] & He & H). injection H as <- _.
      exact (IHe _ _ _ He). }
    destruct (starts_with (chars "null") (c :: r)); [injection H as <- _; reflexivity|].
    destruct (starts_with (chars "true") (c :: r)); [injection H as <- _; reflexivity|].
    destruct (starts_with (chars "false") (c :: r)); [injection H as <- _; reflexivity|].
    exact (scan_number_native _ _ _ H).
  - intros s vs rest H. rewrite parse_elements_step in H.
    apply bind_ok in H as ([v rest0] & Hv & H). apply IHv in Hv.
    destruct (skip_ws rest0) as [|c r]; [discriminate|].
    destruct (c =? "]")%char; [injection H as <- _; simpl; rewrite Hv; reflexivity|].
    destruct (c =? ",")%char; [|discriminate].
    apply bind_ok in H as ([vs' rest'] & He & H). injection H as <- _.
    simpl. rewrite Hv. exact (IHe _ _ _ He).
  - intros s kvs rest H. rewrite parse_members_step in H.
    destruct (scanstring s) as [[key rest0]|]; [|discriminate].
    destruct (skip_ws rest0) as [|c r]; [discriminate|].
    destruct (c =? ":")%char; [|discriminate].
    apply bind_ok in H as ([v rest1] & Hv & H). apply IHv in Hv.
    destruct (skip_ws rest1) as [|c1 r1]; [discriminate|].
    destruct (c1 =? "}")%char; [injection H as <- _; constructor; [exact Hv|constructor]|].
    destruct (c1 =? ",")%char; [|discriminate].
    destruct (skip_ws r1) as [|c2 r2]; [discriminate|].
    destruct (c2 =? DQUOTE)%char; [|discriminate].
    apply bind_ok in H as ([kvs' rest2] & Hm & H). injection H as <- _.
    constructor; [exact Hv|exact (IHm _ _ _ Hm)].
Qed.

Lemma json_loads_native (s : string) (v : pyval) :
  json_loads s = Ok v -> json_native v = true.
Proof.
  unfold json_loads. intros H. apply bind_ok in H as ([v' rest] & Hv & H).
  destruct (skip_ws rest); [|discriminate]. injection H as <-.
  exact (proj1 (parse_native _) _ _ _ Hv).
Qed.

Lemma decode_content_native (r : Content.row) (d : Content.decoded) :
  decode_content r = Ok d ->
  json_native (Content.data d) = true /\ json_native (Content.meta d) = true.
Proof.
  unfold decode_content. intros H.
  apply bind_ok in H as (x & Hx & H). apply bind_ok in H as (m & Hm & H).
  injection H as <-. simpl. split; [exact (json_loads_native _ _ Hx)|].
  destruct (truthy_text (Content.metadata r)); [exact (json_loads_native _ _ Hm)|].
  injection Hm as <-. reflexivity.
Qed.

Lemma decode_media_native (r : Media.row) (d : Media.decoded) :
  decode_media r = Ok d -> json_native (Media.params d) = true.
Proof.
  unfold decode_media. intros H. apply bind_ok in H as (x & Hx & H).
  injection H as <-. simpl.
  destruct (truthy_text (Media.generation_params r)); [exact (json_loads_native _ _ Hx)|].
  injection Hx as <-. reflexivity.
Qed.

(** X10. After any history of calls on a fresh database, [get_policy_contents]
    does not raise: it returns exactly the stored content rows of the
    policy, newest first, and every decoded [content_data] and [metadata] is
    a value JSON holds natively ([None], a boolean, an integer, a float, a
    string, a list, or a dict with distinct string keys; never a tuple,
    never a dict with a key that is not a string); no decoded metadata is
    [None]. *)
Theorem history_contents_listing (history : list call) (policy_id : Z) :
  let db := fst (run init_database history) in
  exists rows,
    get_policy_contents db policy_id = Ok rows /\
    Permutation (map Content.raw rows)
      (filter (fun r => Content.policy_id r =? policy_id) (policy_contents db)) /\
    sorted_desc Content.created_at (map Content.raw rows) /\
    Forall (fun d => json_native (Content.data d) = true /\
                     json_native (Content.meta d) = true /\
                     Content.meta d <> PNone) rows.
Proof.
  intros db.
  destruct (run_rows_decode history init_database init_rows_decode) as [Hc _].
  fold db in Hc. rewrite Forall_forall in Hc.
  assert (H : exists rows, get_policy_contents db policy_id = Ok rows).
  { apply get_policy_contents_ok_iff. intros r Hin _.
    destruct (Hc r Hin) as (d & Hd & _). eauto. }
  destruct H as (rows & Hrows). exists rows. split; [exact Hrows|].
  rewrite (get_policy_contents_raw _ _ _ Hrows).
  split; [apply order_by_desc_perm|]. split; [apply order_by_desc_sorted|].
  rewrite Forall_forall. intros d Hd. unfold get_policy_contents in Hrows.
  destruct (mapM_In _ _ _ _ Hrows Hd) as (x & Hx & Hdx).
  destruct (decode_content_native _ _ Hdx) as [H1 H2]. repeat split; try assumption.
  apply order_by_desc_In, filter_In in Hx as [Hx _].
  destruct (Hc x Hx) as (d' & Hd' & Hn). congruence.
Qed.

(** X11. After any history of calls on a fresh database, every decoded
    [generation_params] of a media listing is a value JSON holds
    natively. *)
Theorem history_media_params_native (history : list call) (policy_id : Z)
    (media_type : option string) :
  let db := fst (run init_database history) in
  exists rows,
    get_generated_media db policy_id media_type = Ok rows /\
    Forall (fun d => json_native (Media.params d) = true) rows.
Proof.
  intros db.
  destruct (run_rows_decode history init_database init_rows_decode) as [_ Hm].
  fold db in Hm. rewrite Forall_forall in Hm.
  assert (H : exists rows, get_generated_media db policy_id media_type = Ok rows).
  { unfold get_generated_media. apply mapM_ok_iff. rewrite Forall_forall. intros r Hr.
    destruct (truthy_text media_type);
      apply order_by_desc_In, filter_In in Hr as [Hr _]; exact (Hm r Hr). }
  destruct H as (rows & Hrows). exists rows. split; [exact Hrows|].
  rewrite Forall_forall. intros d Hd. unfold get_generated_media in Hrows.
  destruct (mapM_In _ _ _ _ Hrows Hd) as (x & _ & Hdx).
  exact (decode_media_native _ _ Hdx).
Qed.

(** ** [save_generated_media] then [get_generated_media] *)

(** X12. After any history of calls on a fresh database, a
    [save_generated_media] whose parameters [json.dumps] accepts stores one
    new row, and the media listing of the policy (of every type, and of the
    saved type when that is not the empty string) returns it with the bytes
    and the prompt as they were passed, no URL, the clock reading as
    [created_at], and [generation_params] decoded; when the parameters are
    JSON-native the decoded value is the one that was saved. *)
Theorem save_media_then_get (history : list call) (now : string) (policy_id : Z)
    (media_type : string) (media_data : list Byte.byte) (prompt : string)
    (params : pyval) (pt : string) :
  json_dumps params = Ok pt ->
  let db := fst (run init_database history) in
  exists db' rows r,
    save_generated_media db now policy_id media_type media_data prompt params = Ok db' /\
    get_generated_media db' policy_id None = Ok rows /\
    In r rows /\
    (media_type <> "" ->
     exists rows', get_generated_media db' policy_id (Some media_type) = Ok rows' /\
                   In r rows') /\
    ~ In (Media.raw r) (generated_media db) /\
    Media.policy_id (Media.raw r) = policy_id /\
    Media.media_type (Media.raw r) = media_type /\
    Media.media_url (Media.raw r) = None /\
    Media.media_data (Media.raw r) = Some media_data /\
    Media.prompt (Media.raw r) = Some prompt /\
    Media.generation_params (Media.raw r) = Some pt /\
    Media.created_at (Media.raw r) = now /\
    json_loads pt = Ok (Media.params r) /\
    (json_native params = true -> Media.params r = params).
Proof.
  intros Hpt db.
  set (rowid := next_rowid (generated_media_seq db) (map Media.id (generated_media db))).
  set (row := {| Media.id := rowid; Media.policy_id := policy_id;
                 Media.media_type := media_type; Media.media_url := None;
                 Media.media_data := Some media_data; Media.prompt := Some prompt;
                 Media.generation_params := Some pt; Media.created_at := now |}).
  destruct (json_loads_dumps _ _ Hpt) as (v & Hv & Hnat & _).
  set (d := {| Media.raw := row; Media.params := v |}).
  assert (Hd : decode_media row = Ok d).
  { unfold decode_media. cbn [Media.generation_params row].
    rewrite (json_dumps_truthy _ _ Hpt), Hv. reflexivity. }
  assert (Hsave : save_generated_media db now policy_id media_type media_data prompt params
                  = Ok {| policies := policies db;
                          policies_seq := policies_seq db;
                          policy_contents := policy_contents db;
                          policy_contents_seq := policy_contents_seq db;
                          generated_media := generated_media db ++ [row];
                          generated_media_seq := rowid |}).
  { unfold save_generated_media. rewrite Hpt. reflexivity. }
  match type of Hsave with _ = Ok ?x => set (db' := x) in * end.
  destruct (run_rows_decode history init_database init_rows_decode) as [_ Hm].
  fold db in Hm.
  assert (Hm' : Forall (fun r => exists d, decode_media r = Ok d) (generated_media db')).
  { simpl. apply Forall_app. split; [exact Hm|]. constructor; [eauto|constructor]. }
  assert (Hlist : forall f, f row = true ->
            exists rows,
              mapM decode_media
                (order_by_desc Media.created_at (filter f (generated_media db'))) = Ok rows /\
              In d rows).
  { intros f Hf. destruct (listing_media db' f Hm') as (rows & Hrows & _).
    exists rows. split; [exact Hrows|].
    assert (Hin : In row (map Media.raw rows)).
    { rewrite (mapM_raw _ _ _ _ decode_media_raw Hrows).
      apply order_by_desc_In, filter_In. split; [|exact Hf].
      simpl. apply in_or_app. right. left. reflexivity. }
    apply in_map_iff in Hin as (r & Hraw & Hr).
    destruct (mapM_In _ _ _ _ Hrows Hr) as (x & _ & Hx).
    pose proof (decode_media_raw _ _ Hx) as Hx'. rewrite Hraw in Hx'. subst x.
    assert (r = d) by congruence. subst r. exact Hr. }
  destruct (Hlist (media_of policy_id)) as (rows & Hrows & Hin);
    [apply Z.eqb_refl|].
  exists db', rows, d. split; [exact Hsave|].
  split; [rewrite get_generated_media_none; exact Hrows|].
  split; [exact Hin|]. split.
  { intros Hne. rewrite (get_generated_media_some db' policy_id media_type Hne).
    apply Hlist. unfold media_of_type. cbn [Media.policy_id Media.media_type row].
    rewrite Z.eqb_refl, String.eqb_refl. reflexivity. }
  split.
  { intros Hold. apply (in_map Media.id) in Hold.
    apply next_rowid_fresh with (seq := generated_media_seq db) in Hold.
    simpl in Hold. fold rowid in Hold. lia. }
  repeat split; try reflexivity; assumption.
Qed.

Lemma save_media_then_get_witness :
  exists pt,
    json_dumps (PDict [(PStr "size", PStr "1024x1024")]) = Ok pt /\
    exists db' rows r,
      save_generated_media sample_db "2024-03-01T09:20:00.000000" 1 "image"
        [Byte.x89; Byte.x50; Byte.x4e; Byte.x47] "clean air over Seoul"
        (PDict [(PStr "size", PStr "1024x1024")]) = Ok db' /\
      get_generated_media db' 1 None = Ok rows /\
      In r rows /\
      ("image" <> "" ->
       exists rows', get_generated_media db' 1 (Some "image") = Ok rows' /\ In r rows') /\
      ~ In (Media.raw r) (generated_media sample_db) /\
      Media.policy_id (Media.raw r) = 1 /\
      Media.media_type (Media.raw r) = "image" /\
      Media.media_url (Media.raw r) = None /\
      Media.media_data (Media.raw r) = Some [Byte.x89; Byte.x50; Byte.x4e; Byte.x47] /\
      Media.prompt (Media.raw r) = Some "clean air over Seoul" /\
      Media.generation_params (Media.raw r) = Some pt /\
      Media.created_at (Media.raw r) = "2024-03-01T09:20:00.000000" /\
      json_loads pt = Ok (Media.params r) /\
      (json_native (PDict [(PStr "size", PStr "1024x1024")]) = true ->
       Media.params r = PDict [(PStr "size", PStr "1024x1024")]).
Proof.
  eexists. split; [reflexivity|].
  apply (save_media_then_get
           [CreatePolicy "2024-03-01T09:00:00.000000"
              "대기질 개선" "환경" "시민" "미세먼지 저감 대책"]
           "2024-03-01T09:20:00.000000" 1 "image"
           [Byte.x89; Byte.x50; Byte.x4e; Byte.x47] "clean air over Seoul"
           (PDict [(PStr "size", PStr "1024x1024")]) _ eq_refl).
Defined.

(** ** What the two [save_] functions leave alone *)

Lemma filter_app_miss {A : Type} (f : A -> bool) (l : list A) (x : A) :
  f x = false -> filter f (l ++ [x]) = filter f l.
Proof. intros H. rewrite filter_app. simpl. rewrite H. apply app_nil_r. Qed.

(** X13. A [save_policy_content] that returns changes no policy and no
    media row: [get_policy], [get_all_policies], both date listings and
    [get_generated_media] answer as before; so does [get_policy_contents]
    for every other policy; and the content rows stored before are still
    there, unchanged and in the same order, followed by one new row. *)
Theorem save_content_frame (db db' : database) (now : string) (policy_id : Z)
    (content_type : string) (content_data metadata : pyval) :
  save_policy_content db now policy_id content_type content_data metadata = Ok db' ->
  (forall i, get_policy db' i = get_policy db i) /\
  (forall limit, get_all_policies db' limit = get_all_policies db limit) /\
  (forall d, get_policies_by_date db' d = get_policies_by_date db d) /\
  (forall lo hi, get_policies_by_date_range db' lo hi = get_policies_by_date_range db lo hi) /\
  (forall p mt, get_generated_media db' p mt = get_generated_media db p mt) /\
  (forall other, other <> policy_id ->
     get_policy_contents db' other = get_policy_contents db other) /\
  (exists row, policy_contents db' = policy_contents db ++ [row] /\
               Content.policy_id row = policy_id /\
               forall r, In r (policy_contents db) -> Content.id r < Content.id row).
Proof.
  unfold save_policy_content. intros H.
  apply bind_ok in H as (dt & _ & H). apply bind_ok in H as (mt & _ & H).
  injection H as <-.
  split; [reflexivity|]. split; [reflexivity|]. split; [reflexivity|].
  split; [reflexivity|]. split; [reflexivity|]. split.
  - intros other Hne. unfold get_policy_contents. cbn [policy_contents].
    rewrite filter_app_miss; [reflexivity|]. simpl. apply Z.eqb_neq. congruence.
  - eexists. split; [reflexivity|]. split; [reflexivity|].
    intros r Hr. simpl. apply next_rowid_fresh, in_map, Hr.
Qed.

Lemma save_content_frame_witness :
  exists db',
    save_policy_content sample_db "2024-03-01T09:10:00.000000" 1 "analysis"
      native_payload PNone = Ok db' /\
    (forall i, get_policy db' i = get_policy sample_db i) /\
    (forall limit, get_all_policies db' limit = get_all_policies sample_db limit) /\
    (forall d, get_policies_by_date db' d = get_policies_by_date sample_db d) /\
    (forall lo hi,
       get_policies_by_date_range db' lo hi = get_policies_by_date_range sample_db lo hi) /\
    (forall p mt, get_generated_media db' p mt = get_generated_media sample_db p mt) /\
    (forall other, other <> 1 ->
       get_policy_contents db' other = get_policy_contents sample_db other) /\
    (exists row, policy_contents db' = policy_contents sample_db ++ [row] /\
                 Content.policy_id row = 1 /\
                 forall r, In r (policy_contents sample_db) -> Content.id r < Content.id row).
Proof.
  eexists. split; [reflexivity|].
  apply (save_content_frame sample_db _ "2024-03-01T09:10:00.000000" 1 "analysis"
           native_payload PNone eq_refl).
Defined.

(** X14. A [save_generated_media] that returns changes no policy and no
    content row: [get_policy], [get_all_policies], both date listings and
    [get_policy_contents] answer as before; so does [get_generated_media]
    for every other policy and, for the same policy, for every non-empty
    media type other than the saved one; the media rows stored before are
    still there, followed by one new row. *)
Theorem save_media_frame (db db' : database) (now : string) (policy_id : Z)
    (media_type : string) (media_data : list Byte.byte) (prompt : string) (params : pyval) :
  save_generated_media db now policy_id media_type media_data prompt params = Ok db' ->
  (forall i, get_policy db' i = get_policy db i) /\
  (forall limit, get_all_policies db' limit = get_all_policies db limit) /\
  (forall d, get_policies_by_date db' d = get_policies_by_date db d) /\
  (forall lo hi, get_policies_by_date_range db' lo hi = get_policies_by_date_range db lo hi) /\
  (forall p, get_policy_contents db' p = get_policy_contents db p) /\
  (forall other mt, other <> policy_id ->
     get_generated_media db' other mt = get_generated_media db other mt) /\
  (forall mt, mt <> "" -> mt <> media_type ->
     get_generated_media db' policy_id (Some mt) = get_generated_media db policy_id (Some mt)) /\
  (exists row, generated_media db' = generated_media db ++ [row] /\
               Media.policy_id row = policy_id /\
               forall r, In r (generated_media db) -> Media.id r < Media.id row).
Proof.
  unfold save_generated_media. intros H.
  apply bind_ok in H as (pt & _ & H). injection H as <-.
  split; [reflexivity|]. split; [reflexivity|]. split; [reflexivity|].
  split; [reflexivity|]. split; [reflexivity|]. split; [|split].
  - intros other mt Hne. unfold get_generated_media. cbn [generated_media].
    rewrite !filter_app_miss; [reflexivity| |]; simpl.
    + apply Z.eqb_neq. congruence.
    + apply Bool.andb_false_iff. left. apply Z.eqb_neq. congruence.
  - intros mt Hne Hother. rewrite !get_generated_media_some by exact Hne.
    cbn [generated_media]. rewrite filter_app_miss; [reflexivity|].
    unfold media_of_type. simpl. apply Bool.andb_false_iff. right.
    apply String.eqb_neq. congruence.
  - eexists. split; [reflexivity|]. split; [reflexivity|].
    intros r Hr. simpl. apply next_rowid_fresh, in_map, Hr.
Qed.

Lemma save_media_frame_witness :
  exists db',
    save_generated_media sample_db "2024-03-01T09:20:00.000000" 1 "image"
      [Byte.x89; Byte.x50; Byte.x4e; Byte.x47] "clean air over Seoul" (PDict []) = Ok db' /\
    (forall i, get_policy db' i = get_policy sample_db i) /\
    (forall limit, get_all_policies db' limit = get_all_policies sample_db limit) /\
    (forall d, get_policies_by_date db' d = get_policies_by_date sample_db d) /\
    (forall lo hi,
       get_policies_by_date_range db' lo hi = get_policies_by_date_range sample_db lo hi) /\
    (forall p, get_policy_contents db' p = get_policy_contents sample_db p) /\
    (forall other mt, other <> 1 ->
       get_generated_media db' other mt = get_generated_media sample_db other mt) /\
    (forall mt, mt <> "" -> mt <> "image" ->
       get_generated_media db' 1 (Some mt) = get_generated_media sample_db 1 (Some mt)) /\
    (exists row, generated_media db' = generated_media sample_db ++ [row] /\
                 Media.policy_id row = 1 /\
                 forall r, In r (generated_media sample_db) -> Media.id r < Media.id row).
Proof.
  eexists. split; [reflexivity|].
  apply (save_media_frame sample_db _ "2024-03-01T09:20:00.000000" 1 "image"
           [Byte.x89; Byte.x50; Byte.x4e; Byte.x47] "clean air over Seoul" (PDict [])
           eq_refl).
Defined.

(** ** The listing after a [save_policy_content] *)

Lemma mapM_cons_ok {A B : Type} (f : A -> result B) (x : A) (l : list A) (y : B)
    (ys : list B) :
  f x = Ok y -> mapM f l = Ok ys -> mapM f (x :: l) = Ok (y :: ys).
Proof.
  intros Hy Hys.
  assert (H : exists zs, mapM f (x :: l) = Ok zs).
  { apply mapM_ok_iff. constructor; [eauto|]. apply mapM_ok_iff. eauto. }
  destruct H as (zs & Hzs). rewrite Hzs.
  apply mapM_cons in Hzs as (y' & ys' & -> & Hy' & Hys'). congruence.
Qed.

(** X15. When [json.dumps] accepts the payload and the metadata (the empty
    dict standing for a missing one), the listing of the policy did not
    raise before the save, and the clock reading of the save is later than
    the [created_at] of every content row of the policy, the listing of the
    policy after the save is the new row followed by the listing before the
    save. *)
Theorem save_content_listed_first (db : database) (now : string) (policy_id : Z)
    (content_type : string) (payload metadata : pyval) (dt mt : string)
    (rows : list Content.decoded) :
  json_dumps payload = Ok dt ->
  json_dumps (py_or metadata (PDict [])) = Ok mt ->
  get_policy_contents db policy_id = Ok rows ->
  Forall (fun r => Content.policy_id r = policy_id -> text_lt (Content.created_at r) now)
         (policy_contents db) ->
  exists db' d,
    save_policy_content db now policy_id content_type payload metadata = Ok db' /\
    get_policy_contents db' policy_id = Ok (d :: rows) /\
    Content.policy_id (Content.raw d) = policy_id /\
    Content.content_type (Content.raw d) = content_type /\
    Content.content_data (Content.raw d) = dt /\
    Content.metadata (Content.raw d) = Some mt /\
    Content.created_at (Content.raw d) = now /\
    json_loads dt = Ok (Content.data d) /\
    json_loads mt = Ok (Content.meta d).
Proof.
  intros Hdt Hmt Hrows Hnew.
  set (rowid := next_rowid (policy_contents_seq db) (map Content.id (policy_contents db))).
  destruct (decode_saved_content payload metadata dt mt rowid policy_id content_type now
              Hdt Hmt) as (d & Hd & Hd1 & Hd2 & _).
  eexists. exists d. split.
  { unfold save_policy_content. rewrite Hdt, Hmt. reflexivity. }
  pose proof (decode_content_raw _ _ Hd) as Hraw. rewrite Hraw.
  repeat split; try assumption.
  unfold get_policy_contents in *. cbn [policy_contents].
  rewrite filter_app. cbn [filter Content.policy_id]. rewrite Z.eqb_refl.
  fold rowid. rewrite order_by_desc_newest.
  - apply mapM_cons_ok; assumption.
  - rewrite Forall_forall in *. intros r Hr. apply filter_In in Hr as [Hr Hp].
    apply Z.eqb_eq in Hp. exact (Hnew r Hr Hp).
Qed.

Lemma save_content_listed_first_witness :
  exists dt d0,
    json_dumps native_payload = Ok dt /\
    json_dumps (py_or PNone (PDict [])) = Ok "{}" /\
    get_policy_contents content_db 1 = Ok [d0] /\
    Content.created_at (Content.raw d0) = "2024-03-01T09:05:00.000000" /\
    Forall (fun r => Content.policy_id r = 1 ->
                     text_lt (Content.created_at r) "2024-03-01T09:10:00.000000")
           (policy_contents content_db) /\
    exists db' d,
      save_policy_content content_db "2024-03-01T09:10:00.000000" 1 "summary"
        native_payload PNone = Ok db' /\
      get_policy_contents db' 1 = Ok [d; d0] /\
      Content.policy_id (Content.raw d) = 1 /\
      Content.content_type (Content.raw d) = "summary" /\
      Content.content_data (Content.raw d) = dt /\
      Content.metadata (Content.raw d) = Some "{}" /\
      Content.created_at (Content.raw d) = "2024-03-01T09:10:00.000000" /\
      json_loads dt = Ok (Content.data d) /\
      json_loads "{}" = Ok (Content.meta d).
Proof.
  do 2 eexists. split; [reflexivity|]. split; [reflexivity|].
  split; [reflexivity|]. split; [reflexivity|].
  assert (Hclock : Forall (fun r => Content.policy_id r = 1 ->
                                    text_lt (Content.created_at r)
                                      "2024-03-01T09:10:00.000000")
                     (policy_contents content_db))
    by (repeat constructor).
  split; [exact Hclock|].
  exact (save_content_listed_first content_db "2024-03-01T09:10:00.000000" 1 "summary"
           native_payload PNone _ "{}" _ eq_refl eq_refl eq_refl Hclock).
Defined.

(** ** The typed media listing is the untyped one, filtered *)

Section FilterOrderBy.
Context {A : Type} (key : A -> string) (f : A -> bool).

Lemma insert_desc_front (x : A) (l : list A) :
  Forall (fun z => String.leb (key z) (key x) = true) l ->
  insert_desc key x l = x :: l.
Proof.
  intros H. destruct H as [|z l Hz _]; [reflexivity|]. simpl.
  destruct (String.ltb (key x) (key z)) eqn:E; [|reflexivity].
  apply ltb_true_not_leb in E. congruence.
Qed.

Lemma filter_insert_desc (x : A) (l : list A) :
  sorted_desc key l ->
  filter f (insert_desc key x l)
  = if f x then insert_desc key x (filter f l) else filter f l.
Proof.
  intros Hs. apply sorted_desc_strong in Hs.
  induction Hs as [|y l Hl IH Hy]; simpl.
  - destruct (f x); reflexivity.
  - destruct (String.ltb (key x) (key y)) eqn:E; simpl.
    + rewrite IH. destruct (f x), (f y); simpl; rewrite ?E; reflexivity.
    + destruct (f x) eqn:Fx; [|reflexivity].
      destruct (f y) eqn:Fy; simpl; [rewrite E; reflexivity|].
      symmetry. apply insert_desc_front.
      rewrite Forall_forall in *. intros z Hz. apply filter_In in Hz as [Hz _].
      apply (leb_trans _ (key y)); [exact (Hy z Hz)|apply ltb_false_leb, E].
Qed.

Lemma filter_order_by_desc (l : list A) :
  filter f (order_by_desc key l) = order_by_desc key (filter f l).
Proof.
  induction l as [|x l IH]; [reflexivity|].
  change (order_by_desc key (x :: l)) with (insert_desc key x (order_by_desc key l)).
  rewrite filter_insert_desc by apply order_by_desc_sorted.
  simpl. rewrite IH. destruct (f x); reflexivity.
Qed.
End FilterOrderBy.

Lemma mapM_filter {A B : Type} (f : A -> result B) (raw : B -> A) (p : A -> bool)
    (l : list A) (ys : list B) :
  (forall x y, f x = Ok y -> raw y = x) ->
  mapM f l = Ok ys ->
  mapM f (filter p l) = Ok (filter (fun y => p (raw y)) ys).
Proof.
  intros Hraw. revert ys. induction l as [|x l IH]; intros ys H.
  - apply mapM_nil in H as ->. reflexivity.
  - apply mapM_cons in H as (y & ys' & -> & Hy & Hys).
    simpl. rewrite (Hraw x y Hy). destruct (p x).
    + apply mapM_cons_ok; [exact Hy|apply IH, Hys].
    + apply IH, Hys.
Qed.

(** X16. For a media type that is not the empty string, the typed listing
    [get_generated_media(policy_id, media_type)] is the untyped listing
    [get_generated_media(policy_id)] with the rows of other types left out,
    in the same order: whenever the untyped call returns, the typed one
    returns its rows of that type. *)
Theorem typed_media_listing_is_filtered (db : database) (policy_id : Z) (mt : string)
    (rows : list Media.decoded) :
  mt <> "" ->
  get_generated_media db policy_id None = Ok rows ->
  get_generated_media db policy_id (Some mt)
  = Ok (filter (fun d => (Media.media_type (Media.raw d) =? mt)%string) rows).
Proof.
  intros Hne Hrows. rewrite get_generated_media_none in Hrows.
  rewrite (get_generated_media_some db policy_id mt Hne).
  assert (E : filter (media_of_type policy_id mt) (generated_media db)
              = filter (fun r => (Media.media_type r =? mt)%string)
                  (filter (media_of policy_id) (generated_media db))).
  { clear Hrows. induction (generated_media db) as [|r l IH]; [reflexivity|].
    unfold media_of_type, media_of in *. simpl.
    destruct (Media.policy_id r =? policy_id); simpl; [|exact IH].
    destruct (Media.media_type r =? mt)%string; rewrite IH; reflexivity. }
  rewrite E, <- filter_order_by_desc.
  exact (mapM_filter decode_media Media.raw _ _ _ decode_media_raw Hrows).
Qed.

Lemma typed_media_listing_is_filtered_witness :
  "image" <> "" /\
  exists rows,
    get_generated_media media_db 1 None = Ok rows /\
    get_generated_media media_db 1 (Some "image")
    = Ok (filter (fun d => (Media.media_type (Media.raw d) =? "image")%string) rows).
Proof.
  split; [discriminate|]. eexists. split; [reflexivity|].
  apply (typed_media_listing_is_filtered media_db 1 "image" _ ltac:(discriminate) eq_refl).
Defined.

(** ** A larger recursion budget changes no answer *)

Lemma parse_mono (fuel : nat) :
  (forall s, parse_value fuel s <> Raise Fuel ->
             parse_value (S fuel) s = parse_value fuel s) /\
  (forall s, parse_elements fuel s <> Raise Fuel ->
             parse_elements (S fuel) s = parse_elements fuel s) /\
  (forall s, parse_members fuel s <> Raise Fuel ->
             parse_members (S fuel) s = parse_members fuel s).
Proof.
  induction fuel as [|fuel (IHv & IHe & IHm)];
    [repeat split; intros s H; exfalso; apply H; reflexivity|].
  split; [|split].
  - intros [|c r] H; [reflexivity|].
    rewrite (parse_value_eq (S fuel)). rewrite parse_value_eq in H |- *.
    destruct (c =? DQUOTE)%char; [reflexivity|].
    destruct (c =? "{")%char.
    { destruct (skip_ws r) as [|c1 r1]; [reflexivity|].
      destruct (c1 =? "}")%char; [reflexivity|].
      destruct (c1 =? DQUOTE)%char; [|reflexivity].
      rewrite IHm; [reflexivity|]. intros E. rewrite E in H. apply H. reflexivity. }
    destruct (c =? "[")%char.
    { destruct (skip_ws r) as [|c1 r1]; [reflexivity|].
      destruct (c1 =? "]")%char; [reflexivity|].
      rewrite IHe; [reflexivity|]. intros E. rewrite E in H. apply H. reflexivity. }
    reflexivity.
  - intros s H. rewrite (parse_elements_step (S fuel)).
    rewrite parse_elements_step in H |- *.
    rewrite IHv; [|intros E; rewrite E in H; apply H; reflexivity].
    destruct (parse_value fuel s) as [[v rest0]|e]; [|reflexivity]. cbn [bind] in *.
    destruct (skip_ws rest0) as [|c r]; [reflexivity|].
    destruct (c =? "]")%char; [reflexivity|].
    destruct (c =? ",")%char; [|reflexivity].
    rewrite IHe; [reflexivity|]. intros E. rewrite E in H. apply H. reflexivity.
  - intros s H. rewrite (parse_members_step (S fuel)).
    rewrite parse_members_step in H |- *.
    destruct (scanstring s) as [[key rest0]|]; [|reflexivity].
    destruct (skip_ws rest0) as [|c r]; [reflexivity|].
    destruct (c =? ":")%char; [|reflexivity].
    rewrite IHv; [|intros E; rewrite E in H; apply H; reflexivity].
    destruct (parse_value fuel (skip_ws r)) as [[v rest1]|e]; [|reflexivity].
    cbn [bind] in *.
    destruct (skip_ws rest1) as [|c1 r1]; [reflexivity|].
    destruct (c1 =? "}")%char; [reflexivity|].
    destruct (c1 =? ",")%char; [|reflexivity].
    destruct (skip_ws r1) as [|c2 r2]; [reflexivity|].
    destruct (c2 =? DQUOTE)%char; [|reflexivity].
    rewrite IHm; [reflexivity|]. intros E. rewrite E in H. apply H. reflexivity.
Qed.

Lemma parse_value_fuel_le (fuel fuel' : nat) (s : list ascii) :
  (fuel <= fuel')%nat -> parse_value fuel s <> Raise Fuel ->
  parse_value fuel' s = parse_value fuel s.
Proof.
  induction 1 as [|m _ IH]; intros H; [reflexivity|].
  rewrite <- (IH H). apply parse_mono. rewrite (IH H). exact H.
Qed.

(** ** The decoder reads a prefix of the text and does not look past it *)

Lemma scanstring_short_unicode (r1 : list ascii) :
  (List.length r1 < 4)%nat -> scanstring (BACKSLASH :: "u"%char :: r1) = None.
Proof.
  destruct r1 as [|g1 [|g2 [|g3 [|g4 r4]]]]; cbn [List.length]; intros H;
    try reflexivity; lia.
Qed.

Lemma scanstring_bad_unicode (g1 g2 g3 g4 : ascii) (r4 : list ascii) :
  hex4 g1 g2 g3 g4 = None ->
  scanstring (BACKSLASH :: "u"%char :: g1 :: g2 :: g3 :: g4 :: r4) = None.
Proof.
  intros H.
  change (scanstring (BACKSLASH :: "u"%char :: g1 :: g2 :: g3 :: g4 :: r4))
    with (match hex4 g1 g2 g3 g4 with
          | None => None
          | Some u =>
              let single := continue_with (utf8_encode u) (scanstring r4) in
              if is_high_surrogate u then
                match r4 with
                | b :: e2 :: r3 =>
                    if (b =? BACKSLASH)%char && (e2 =? "u")%char then
                      match r3 with
                      | k1 :: k2 :: k3 :: k4 :: r5 =>
                          match hex4 k1 k2 k3 k4 with
                          | None => None
                          | Some u2 =>
                              if is_low_surrogate u2
                              then continue_with
                                     (utf8_encode
                                        (65536 + (u - 55296) * 1024 + (u2 - 56320))%N)
                                     (scanstring r5)
                              else single
                          end
                      | _ => None
                      end
                    else single
                | _ => single
                end
              else single
          end).
  rewrite H. reflexivity.
Qed.

Lemma scanstring_unicode (h1 h2 h3 h4 : ascii) (r2 : list ascii) :
  scanstring (BACKSLASH :: "u"%char :: h1 :: h2 :: h3 :: h4 :: r2)
  = match hex4 h1 h2 h3 h4 with
    | None => None
    | Some u =>
        match (if is_high_surrogate u then low_pair r2 else None) with
        | Some (u2, r4) =>
            continue_with (utf8_encode (65536 + (u - 55296) * 1024 + (u2 - 56320))%N)
                          (scanstring r4)
        | None => continue_with (utf8_encode u) (scanstring r2)
        end
    end.
Proof.
  rewrite scanstring_eq.
  change (BACKSLASH =? DQUOTE)%char with false.
  change (BACKSLASH =? BACKSLASH)%char with true.
  change ("u" =? "u")%char with true. cbv iota.
  destruct (hex4 h1 h2 h3 h4) as [u|]; [|reflexivity].
  destruct (is_high_surrogate u); [|reflexivity].
  destruct r2 as [|b [|e2 r3]]; try reflexivity.
  unfold low_pair.
  destruct ((b =? BACKSLASH)%char && (e2 =? "u")%char) eqn:E.
  - apply Bool.andb_true_iff in E as [Eb Ee].
    apply Ascii.eqb_eq in Eb, Ee. subst b e2.
    destruct r3 as [|g1 [|g2 [|g3 [|g4 r4]]]];
      try (rewrite scanstring_short_unicode by (cbn [List.length]; lia); reflexivity).
    destruct (hex4 g1 g2 g3 g4) as [u2|] eqn:Eg.
    + destruct (is_low_surrogate u2); reflexivity.
    + rewrite (scanstring_bad_unicode _ _ _ _ _ Eg). reflexivity.
  - destruct r3 as [|g1 [|g2 [|g3 [|g4 r4]]]]; reflexivity.
Qed.

Lemma hex4_some (a b c d : ascii) (u : N) :
  hex4 a b c d = Some u ->
  a <> DQUOTE /\ b <> DQUOTE /\ c <> DQUOTE /\ d <> DQUOTE.
Proof.
  unfold hex4. intros H.
  destruct (hex_val a) eqn:Ea; [|discriminate].
  destruct (hex_val b) eqn:Eb; [|discriminate].
  destruct (hex_val c) eqn:Ec; [|discriminate].
  destruct (hex_val d) eqn:Ed; [|discriminate].
  repeat split; intros ->; discriminate.
Qed.

Lemma low_pair_some (s : list ascii) (u2 : N) (r4 : list ascii) :
  low_pair s = Some (u2, r4) ->
  exists g1 g2 g3 g4,
    s = BACKSLASH :: "u"%char :: g1 :: g2 :: g3 :: g4 :: r4 /\
    hex4 g1 g2 g3 g4 = Some u2 /\ is_low_surrogate u2 = true.
Proof.
  destruct s as [|b [|e2 [|g1 [|g2 [|g3 [|g4 r]]]]]]; try discriminate.
  unfold low_pair.
  destruct (Ascii.eqb_spec b BACKSLASH) as [->|]; [|discriminate].
  destruct (Ascii.eqb_spec e2 "u") as [->|]; [|discriminate]. cbn [andb].
  destruct (hex4 g1 g2 g3 g4) as [u|] eqn:Eg; [|discriminate].
  destruct (is_low_surrogate u) eqn:El; [|discriminate].
  intros [= <- <-]. exists g1, g2, g3, g4. repeat split; assumption.
Qed.

Lemma low_pair_intro (g1 g2 g3 g4 : ascii) (u2 : N) (r4 : list ascii) :
  hex4 g1 g2 g3 g4 = Some u2 -> is_low_surrogate u2 = true ->
  low_pair (BACKSLASH :: "u"%char :: g1 :: g2 :: g3 :: g4 :: r4) = Some (u2, r4).
Proof.
  intros Hg Hl. unfold low_pair.
  change ((BACKSLASH =? BACKSLASH)%char && ("u" =? "u")%char) with true. cbv iota.
  rewrite Hg, Hl. reflexivity.
Qed.

Lemma low_pair_local (pre rest rest' : list ascii) :
  low_pair (pre ++ DQUOTE :: rest) = None -> low_pair (pre ++ DQUOTE :: rest') = None.
Proof.
  intros H. destruct (low_pair (pre ++ DQUOTE :: rest')) as [[u2 r4]|] eqn:E; [|reflexivity].
  exfalso. apply low_pair_some in E as (g1 & g2 & g3 & g4 & E & Hg & Hl).
  destruct (hex4_some _ _ _ _ _ Hg) as (N1 & N2 & N3 & N4).
  destruct pre as [|b [|e2 [|k1 [|k2 [|k3 [|k4 pre']]]]]]; cbn [app] in E;
    try discriminate E;
    try (injection E; intros; subst; congruence).
  injection E as -> -> -> -> -> -> _.
  cbn [app] in H. rewrite (low_pair_intro _ _ _ _ _ _ Hg Hl) in H. discriminate.
Qed.

Lemma scanstring_quote (r : list ascii) : scanstring (DQUOTE :: r) = Some ([], r).
Proof. reflexivity. Qed.

Lemma scanstring_escaped (e : ascii) (r1 : list ascii) :
  (e =? "u")%char = false ->
  scanstring (BACKSLASH :: e :: r1)
  = match unescape e with
    | Some c' => continue_with [c'] (scanstring r1)
    | None => None
    end.
Proof.
  intros H. rewrite scanstring_eq.
  change (BACKSLASH =? DQUOTE)%char with false.
  change (BACKSLASH =? BACKSLASH)%char with true. cbv iota.
  rewrite H. reflexivity.
Qed.

Lemma scanstring_plain (c : ascii) (r : list ascii) :
  (c =? DQUOTE)%char = false -> (c =? BACKSLASH)%char = false ->
  scanstring (c :: r)
  = if (N_of_ascii c <? 32)%N then None else continue_with [c] (scanstring r).
Proof. intros H1 H2. rewrite scanstring_eq, H1, H2. reflexivity. Qed.

Lemma continue_with_inv (p : list ascii) (r : option (list ascii * list ascii))
    (body rest : list ascii) :
  continue_with p r = Some (body, rest) ->
  exists b, r = Some (b, rest) /\ body = p ++ b.
Proof.
  destruct r as [[b r']|]; simpl; [|discriminate]. intros [= <- <-]. eauto.
Qed.

Lemma scanstring_local (n : nat) :
  forall s body rest, (List.length s <= n)%nat ->
    scanstring s = Some (body, rest) ->
    exists pre, s = pre ++ DQUOTE :: rest /\
                forall rest', scanstring (pre ++ DQUOTE :: rest') = Some (body, rest').
Proof.
  induction n as [|n IH]; intros s body rest Hn H.
  { destruct s; [discriminate H|cbn [List.length] in Hn; lia]. }
  destruct s as [|c r]; [discriminate H|]. cbn [List.length] in Hn.
  destruct (c =? DQUOTE)%char eqn:Eq.
  { apply Ascii.eqb_eq in Eq. subst c. rewrite scanstring_quote in H.
    injection H as <- <-. exists []. split; [reflexivity|].
    intros rest'. apply scanstring_quote. }
  destruct (c =? BACKSLASH)%char eqn:Eb.
  - apply Ascii.eqb_eq in Eb. subst c. clear Eq.
    destruct r as [|e r1]; [rewrite scanstring_eq in H; discriminate H|].
    cbn [List.length] in Hn.
    destruct (e =? "u")%char eqn:Eu.
    + apply Ascii.eqb_eq in Eu. subst e.
      destruct (Nat.ltb_spec (List.length r1) 4) as [Hs|Hl].
      { rewrite (scanstring_short_unicode r1 Hs) in H. discriminate H. }
      destruct r1 as [|h1 [|h2 [|h3 [|h4 r2]]]]; cbn [List.length] in Hl, Hn; try lia.
      rewrite scanstring_unicode in H.
      destruct (hex4 h1 h2 h3 h4) as [u|] eqn:Eh; [|discriminate H].
      destruct (if is_high_surrogate u then low_pair r2 else None) as [[u2 r4]|] eqn:Ep.
      * destruct (is_high_surrogate u) eqn:Ehi; [|discriminate Ep].
        apply low_pair_some in Ep as (g1 & g2 & g3 & g4 & -> & Hg & Hlo).
        apply continue_with_inv in H as (b' & Es & ->).
        apply IH in Es as (pre & -> & Hloc); [|cbn [List.length] in Hn; lia].
        exists (BACKSLASH :: "u"%char :: h1 :: h2 :: h3 :: h4
                  :: BACKSLASH :: "u"%char :: g1 :: g2 :: g3 :: g4 :: pre).
        split; [reflexivity|]. intros rest'. cbn [app].
        rewrite scanstring_unicode, Eh, Ehi, (low_pair_intro _ _ _ _ _ _ Hg Hlo), Hloc.
        reflexivity.
      * apply continue_with_inv in H as (b' & Es & ->).
        apply IH in Es as (pre & -> & Hloc); [|lia].
        exists (BACKSLASH :: "u"%char :: h1 :: h2 :: h3 :: h4 :: pre).
        split; [reflexivity|]. intros rest'. cbn [app].
        rewrite scanstring_unicode, Eh, Hloc.
        destruct (is_high_surrogate u); [|reflexivity].
        rewrite (low_pair_local _ _ rest' Ep). reflexivity.
    + rewrite (scanstring_escaped _ _ Eu) in H.
      destruct (unescape e) as [c'|] eqn:Ee; [|discriminate H].
      apply continue_with_inv in H as (b' & Es & ->).
      apply IH in Es as (pre & -> & Hloc); [|lia].
      exists (BACKSLASH :: e :: pre). split; [reflexivity|]. intros rest'. cbn [app].
      rewrite (scanstring_escaped _ _ Eu), Ee, Hloc. reflexivity.
  - rewrite (scanstring_plain _ _ Eq Eb) in H.
    destruct (N_of_ascii c <? 32)%N eqn:Ec; [discriminate H|].
    apply continue_with_inv in H as (b' & Es & ->).
    apply IH in Es as (pre & -> & Hloc); [|lia].
    exists (c :: pre). split; [reflexivity|]. intros rest'. cbn [app].
    rewrite (scanstring_plain _ _ Eq Eb), Ec, Hloc. reflexivity.
Qed.

Lemma skip_ws_split (s : list ascii) :
  exists w, s = w ++ skip_ws s /\ forallb is_ws w = true.
Proof.
  induction s as [|c r (w & Hw & Hall)]; [exists []; split; reflexivity|].
  simpl. destruct (is_ws c) eqn:E.
  - exists (c :: w). simpl. rewrite E, Hall. split; [f_equal; exact Hw|reflexivity].
  - exists []. split; reflexivity.
Qed.

Lemma skip_ws_nonws (s : list ascii) (c : ascii) (r : list ascii) :
  skip_ws s = c :: r -> is_ws c = false.
Proof.
  induction s as [|a s IH]; simpl; [discriminate|].
  destruct (is_ws a) eqn:E; [exact IH|]. intros [= <- _]. exact E.
Qed.

Lemma skip_ws_pad (w : list ascii) (c : ascii) (x : list ascii) :
  forallb is_ws w = true -> is_ws c = false -> skip_ws (w ++ c :: x) = c :: x.
Proof.
  intros Hw Hc. induction w as [|a w IH]; simpl in *.
  - rewrite Hc. reflexivity.
  - apply Bool.andb_true_iff in Hw as [Ha Hw]. rewrite Ha. exact (IH Hw).
Qed.

Lemma skip_ws_found (s : list ascii) (c : ascii) (r : list ascii) :
  skip_ws s = c :: r ->
  exists w, s = w ++ c :: r /\ forallb is_ws w = true /\ is_ws c = false.
Proof.
  intros H. destruct (skip_ws_split s) as (w & Hs & Hw). rewrite H in Hs.
  exists w. repeat split; try assumption. exact (skip_ws_nonws _ _ _ H).
Qed.

Lemma number_stop_pad (w : list ascii) (c : ascii) (x : list ascii) :
  forallb is_ws w = true -> number_stop (c :: x) = true ->
  number_stop (w ++ c :: x) = true.
Proof.
  destruct w as [|a w]; [intros _ H; exact H|]. simpl.
  intros H _. apply Bool.andb_true_iff in H as [H _]. revert H. clear.
  each_char a; intros H; try discriminate H; reflexivity.
Qed.

Lemma ends_token_app (x y : list ascii) :
  ends_token y = true -> ends_token (x ++ y) = true.
Proof.
  unfold ends_token. rewrite rev_app_distr.
  destruct (rev y) as [|c r]; [discriminate|]. intros H. exact H.
Qed.

Lemma ends_token_snoc (x : list ascii) (c : ascii) :
  token_end c = true -> ends_token (x ++ [c]) = true.
Proof. intros H. apply ends_token_app. exact H. Qed.

Lemma ends_token_digits (l : list ascii) :
  l <> [] -> Forall (fun c => is_digit c = true) l -> ends_token l = true.
Proof.
  intros Hne Hl. unfold ends_token. destruct (rev l) as [|c r] eqn:E.
  - apply (f_equal (@rev ascii)) in E. rewrite rev_involutive in E. contradiction.
  - rewrite Forall_forall in Hl. unfold token_end. rewrite (Hl c); [reflexivity|].
    apply in_rev. rewrite E. left. reflexivity.
Qed.

Lemma ends_token_nonempty (pre : list ascii) :
  ends_token pre = true -> exists c r, pre = c :: r.
Proof. destruct pre as [|c r]; [discriminate|eauto]. Qed.

Lemma span_digits_split (s ds rest : list ascii) :
  span_digits s = (ds, rest) ->
  s = ds ++ rest /\ Forall (fun c => is_digit c = true) ds.
Proof.
  revert ds rest. induction s as [|c r IH]; simpl; intros ds rest H.
  - injection H as <- <-. split; [reflexivity|constructor].
  - destruct (is_digit c) eqn:E.
    + destruct (span_digits r) as [ds' rest']. injection H as <- <-.
      destruct (IH _ _ eq_refl) as [-> Hds]. split; [reflexivity|].
      constructor; assumption.
    + injection H as <- <-. split; [reflexivity|constructor].
Qed.

Lemma starts_with_split (p s : list ascii) :
  starts_with p s = true -> s = p ++ skipn (List.length p) s.
Proof.
  revert s. induction p as [|a p IH]; intros s H; [reflexivity|].
  destruct s as [|b s]; [discriminate|]. simpl in H.
  apply Bool.andb_true_iff in H as [Hab H]. apply Ascii.eqb_eq in Hab. subst b.
  simpl. f_equal. exact (IH s H).
Qed.

Lemma starts_with_app (p x : list ascii) : starts_with p (p ++ x) = true.
Proof. induction p as [|a p IH]; simpl; [reflexivity|]. rewrite Ascii.eqb_refl. exact IH. Qed.

Lemma digits_local (b neg : bool) (s1 ds rest : list ascii) :
  match s1 with
  | c :: r =>
      if (c =? "0")%char then Some (b, [c], r)
      else if is_digit c
           then let (ds, rest) := span_digits r in Some (b, c :: ds, rest)
           else None
  | [] => None
  end = Some (neg, ds, rest) ->
  b = neg /\
  exists c p,
    s1 = (c :: p) ++ rest /\ ends_token (c :: p) = true /\ (c =? "-")%char = false /\
    forall rest', digit_stop rest' = true ->
      (if (c =? "0")%char then Some (b, [c], p ++ rest')
       else if is_digit c
            then let (ds, rest) := span_digits (p ++ rest') in Some (b, c :: ds, rest)
            else None) = Some (neg, ds, rest').
Proof.
  destruct s1 as [|c r]; [discriminate|].
  destruct (c =? "0")%char eqn:E0.
  - intros [= <- <- <-]. split; [reflexivity|]. apply Ascii.eqb_eq in E0. subst c.
    exists "0"%char, []. repeat split.
  - destruct (is_digit c) eqn:Ed; [|discriminate].
    destruct (span_digits r) as [ds' rest0] eqn:Es. intros [= <- <- <-].
    split; [reflexivity|].
    apply span_digits_split in Es as [-> Hds].
    exists c, ds'. split; [reflexivity|].
    split; [apply ends_token_digits; [discriminate|constructor; assumption]|].
    split; [exact (digit_not_minus c Ed)|].
    intros rest' Hstop. rewrite E0, Ed, (span_digits_stop _ _ Hds Hstop). reflexivity.
Qed.

Lemma match_integer_local (s : list ascii) (neg : bool) (ds rest : list ascii) :
  match_integer s = Some (neg, ds, rest) ->
  exists pre, s = pre ++ rest /\ ends_token pre = true /\
              forall rest', digit_stop rest' = true ->
                            match_integer (pre ++ rest') = Some (neg, ds, rest').
Proof.
  unfold match_integer. destruct s as [|c0 r0]; [discriminate|].
  destruct (c0 =? "-")%char eqn:Em.
  - cbn [tl]. intros H. apply Ascii.eqb_eq in Em. subst c0.
    apply digits_local in H as (<- & c & p & -> & Hend & Hc & Hloc).
    exists ("-"%char :: c :: p). split; [reflexivity|].
    split; [apply (ends_token_app ["-"%char]), Hend|].
    intros rest' Hstop. cbn [app tl]. change (("-" =? "-")%char) with true. cbv iota.
    exact (Hloc rest' Hstop).
  - intros H. apply (digits_local false neg (c0 :: r0)) in H as (<- & c & p & E & Hend & Hc & Hloc).
    exists (c :: p). split; [exact E|]. split; [exact Hend|].
    intros rest' Hstop. cbn [app]. rewrite Hc. exact (Hloc rest' Hstop).
Qed.

Lemma span_digits_head (c : ascii) (r ds rest : list ascii) :
  is_digit c = true -> span_digits (c :: r) = (ds, rest) ->
  exists ds', ds = c :: ds' /\ r = ds' ++ rest /\ Forall (fun c => is_digit c = true) (c :: ds').
Proof.
  intros Hc. cbn [span_digits]. rewrite Hc.
  destruct (span_digits r) as [ds' rest0] eqn:Es. intros [= <- <-].
  apply span_digits_split in Es as [-> Hds]. exists ds'. repeat split.
  constructor; assumption.
Qed.

Lemma exp_mark_not_digit (c : ascii) :
  ((c =? "e") || (c =? "E"))%char = true -> is_digit c = false /\ (c =? ".")%char = false.
Proof.
  intros H. apply Bool.orb_true_iff in H as [H|H]; apply Ascii.eqb_eq in H; subst c;
    split; reflexivity.
Qed.

Lemma exp_sign_not_digit (c : ascii) :
  ((c =? "+") || (c =? "-"))%char = true -> is_digit c = false.
Proof.
  intros H. apply Bool.orb_true_iff in H as [H|H]; apply Ascii.eqb_eq in H; subst c; reflexivity.
Qed.

(** The exponent of a literal is read from a prefix of the text. *)
Lemma scan_exp_local (s : list ascii) (x : Z) (rest : list ascii) :
  has_exp s = true -> scan_exp s = (x, rest) ->
  exists c p,
    s = (c :: p) ++ rest /\ ends_token (c :: p) = true /\
    is_digit c = false /\ (c =? ".")%char = false /\
    forall rest', digit_stop rest' = true ->
      has_exp ((c :: p) ++ rest') = true /\ scan_exp ((c :: p) ++ rest') = (x, rest').
Proof.
  unfold scan_exp. intros He. rewrite He. destruct s as [|e0 [|c r]]; try discriminate He.
  { cbn [has_exp] in He. rewrite Bool.andb_false_r in He. discriminate. }
  cbn [has_exp] in He. apply Bool.andb_true_iff in He as [He0 Hd].
  destruct (exp_mark_not_digit e0 He0) as [Hn0 Hp0]. cbn [tl].
  destruct (is_digit c) eqn:Ec.
  - destruct (span_digits (c :: r)) as [ds rest0] eqn:Es. intros [= <- <-].
    apply (span_digits_head c r ds rest0 Ec) in Es as (ds' & -> & -> & Hds).
    exists e0, (c :: ds'). split; [reflexivity|].
    split; [apply (ends_token_app [e0]), ends_token_digits; [discriminate|exact Hds]|].
    split; [exact Hn0|]. split; [exact Hp0|].
    intros rest' Hstop.
    assert (He' : has_exp ((e0 :: c :: ds') ++ rest') = true)
      by (cbn [has_exp app]; rewrite He0, Ec; reflexivity).
    split; [exact He'|]. rewrite He'. cbn [app tl]. rewrite Ec.
    change (c :: ds' ++ rest') with ((c :: ds') ++ rest').
    rewrite (span_digits_stop _ _ Hds Hstop). reflexivity.
  - cbn [orb] in Hd. apply Bool.andb_true_iff in Hd as [Hsign Hd].
    destruct r as [|d r]; [discriminate|].
    destruct (span_digits (d :: r)) as [ds rest0] eqn:Es. intros [= <- <-].
    apply (span_digits_head d r ds rest0 Hd) in Es as (ds' & -> & -> & Hds).
    exists e0, (c :: d :: ds'). split; [reflexivity|].
    split; [apply (ends_token_app [e0; c]), ends_token_digits; [discriminate|exact Hds]|].
    split; [exact Hn0|]. split; [exact Hp0|].
    intros rest' Hstop.
    assert (He' : has_exp ((e0 :: c :: d :: ds') ++ rest') = true)
      by (cbn [has_exp app]; rewrite He0, Ec, Hsign, Hd; reflexivity).
    split; [exact He'|]. rewrite He'. cbn [app tl]. rewrite Ec.
    change (d :: ds' ++ rest') with ((d :: ds') ++ rest').
    rewrite (span_digits_stop _ _ Hds Hstop). reflexivity.
Qed.

Lemma has_frac_head (c : ascii) (l : list ascii) :
  (c =? ".")%char = false -> has_frac (c :: l) = false.
Proof. intros H. destruct l; cbn [has_frac]; [reflexivity|]. rewrite H. reflexivity. Qed.

(** The fraction and the exponent of a literal are read from a prefix of
    the text. *)
Lemma float_tail_local (s fs rest1 : list ascii) (x : Z) (rest : list ascii) :
  has_frac s || has_exp s = true ->
  scan_frac s = (fs, rest1) -> scan_exp rest1 = (x, rest) ->
  exists c p,
    s = (c :: p) ++ rest /\ ends_token (c :: p) = true /\ is_digit c = false /\
    forall rest', number_stop rest' = true ->
      has_frac ((c :: p) ++ rest') || has_exp ((c :: p) ++ rest') = true /\
      exists r1, scan_frac ((c :: p) ++ rest') = (fs, r1) /\ scan_exp r1 = (x, rest').
Proof.
  intros H Es. unfold scan_frac in Es. destruct (has_frac s) eqn:Hf.
  - clear H. destruct s as [|c0 [|d r]]; try discriminate Hf.
    cbn [has_frac] in Hf. apply Bool.andb_true_iff in Hf as [Hdot Hd].
    apply Ascii.eqb_eq in Hdot. subst c0. cbn [tl] in Es.
    apply (span_digits_head d r fs rest1 Hd) in Es as (fs' & -> & -> & Hfs).
    destruct (has_exp rest1) eqn:He.
    + intros Se. destruct (scan_exp_local rest1 x rest He Se)
        as (c & p & -> & Hend & Hc & _ & Hloc).
      exists "."%char, ((d :: fs') ++ c :: p). split; [cbn [app]; rewrite <- app_assoc; reflexivity|].
      split; [apply (ends_token_app ("."%char :: d :: fs')), Hend|]. split; [reflexivity|].
      intros rest' Hstop. apply number_stop_digit_stop in Hstop.
      destruct (Hloc rest' Hstop) as [He' Se'].
      assert (Hstop' : digit_stop ((c :: p) ++ rest') = true) by (cbn [app digit_stop]; rewrite Hc; reflexivity).
      destruct (scan_frac_dot d fs' _ Hfs Hstop') as [Hf' Sf'].
      assert (Et : ("."%char :: (d :: fs') ++ c :: p) ++ rest'
                   = "."%char :: (d :: fs') ++ (c :: p) ++ rest')
        by (cbn [app]; rewrite <- app_assoc; reflexivity).
      rewrite Et, Hf'. split; [reflexivity|]. exists ((c :: p) ++ rest'). split; assumption.
    + unfold scan_exp. rewrite He. intros [= <- <-].
      exists "."%char, (d :: fs'). split; [reflexivity|].
      split; [apply (ends_token_app ["."%char]), ends_token_digits; [discriminate|exact Hfs]|].
      split; [reflexivity|].
      intros rest' Hstop. destruct (number_stop_scans rest' Hstop) as (_ & _ & _ & Se').
      apply number_stop_digit_stop in Hstop.
      destruct (scan_frac_dot d fs' _ Hfs Hstop) as [Hf' Sf'].
      change (("."%char :: d :: fs') ++ rest') with ("."%char :: (d :: fs') ++ rest').
      rewrite Hf'. split; [reflexivity|]. exists rest'. split; assumption.
  - cbn [orb] in H. injection Es as <- <-. intros Se.
    destruct (scan_exp_local s x rest H Se) as (c & p & -> & Hend & Hc & Hdot & Hloc).
    exists c, p. split; [reflexivity|]. split; [exact Hend|]. split; [exact Hc|].
    intros rest' Hstop. apply number_stop_digit_stop in Hstop.
    destruct (Hloc rest' Hstop) as [He' Se'].
    cbn [app]. rewrite (has_frac_head c _ Hdot). cbn [app] in He'. rewrite He'.
    split; [reflexivity|]. exists (c :: p ++ rest'). split; [|exact Se'].
    unfold scan_frac. rewrite (has_frac_head c _ Hdot). reflexivity.
Qed.

Lemma scan_number_local (s : list ascii) (v : pyval) (rest : list ascii) :
  scan_number s = Ok (v, rest) ->
  exists pre, s = pre ++ rest /\ ends_token pre = true /\
              forall rest', number_stop rest' = true ->
                            scan_number (pre ++ rest') = Ok (v, rest').
Proof.
  unfold scan_number.
  destruct (match_integer s) as [[[neg ds] rest0]|] eqn:E.
  - apply match_integer_local in E as (pre & -> & Hend & Hloc).
    destruct (has_frac rest0 || has_exp rest0) eqn:F.
    + destruct (scan_frac rest0) as [fs rest1] eqn:Sf.
      destruct (scan_exp rest1) as [x rest2] eqn:Se. intros [= <- <-].
      destruct (float_tail_local rest0 fs rest1 x rest2 F Sf Se)
        as (c & p & -> & Hend' & Hc & Htail).
      exists (pre ++ c :: p). split; [rewrite <- app_assoc; reflexivity|].
      split; [apply ends_token_app, Hend'|].
      intros rest' Hstop. destruct (Htail rest' Hstop) as (F' & r1 & Sf' & Se').
      rewrite <- app_assoc, Hloc by (cbn [app digit_stop]; rewrite Hc; reflexivity).
      rewrite F', Sf', Se'. reflexivity.
    + intros [= <- <-]. exists pre. split; [reflexivity|]. split; [exact Hend|].
      intros rest' Hstop.
      rewrite (Hloc rest' (number_stop_digit_stop _ Hstop)), (number_stop_no_float _ Hstop).
      reflexivity.
  - destruct (starts_with (chars "NaN") s) eqn:E1.
    { intros [= <- <-]. apply starts_with_split in E1.
      exists (chars "NaN"). split; [exact E1|]. split; reflexivity. }
    destruct (starts_with (chars "Infinity") s) eqn:E2.
    { intros [= <- <-]. apply starts_with_split in E2.
      exists (chars "Infinity"). split; [exact E2|]. split; reflexivity. }
    destruct (starts_with (chars "-Infinity") s) eqn:E3; [|discriminate].
    intros [= <- <-]. apply starts_with_split in E3.
    exists (chars "-Infinity"). split; [exact E3|]. split; reflexivity.
Qed.

Lemma parse_local (fuel : nat) :
  (forall s v rest, parse_value fuel s = Ok (v, rest) ->
     exists pre, s = pre ++ rest /\ ends_token pre = true /\
       forall rest', number_stop rest' = true ->
                     parse_value fuel (pre ++ rest') = Ok (v, rest')) /\
  (forall s vs rest, parse_elements fuel s = Ok (vs, rest) ->
     exists c p, s = c :: p ++ "]"%char :: rest /\
       forall rest', parse_elements fuel (c :: p ++ "]"%char :: rest') = Ok (vs, rest')) /\
  (forall s kvs rest, parse_members fuel s = Ok (kvs, rest) ->
     exists pre, s = pre ++ "}"%char :: rest /\
       forall rest', parse_members fuel (pre ++ "}"%char :: rest') = Ok (kvs, rest')).
Proof.
  induction fuel as [|fuel (IHv & IHe & IHm)]; [repeat split; discriminate|].
  split; [|split].
  - intros [|c r] v rest H; [discriminate|]. rewrite parse_value_eq in H.
    destruct (c =? DQUOTE)%char eqn:Eq.
    { destruct (scanstring r) as [[body rest0]|] eqn:Es; [|discriminate].
      injection H as <- <-.
      apply (scanstring_local _ _ _ _ (le_n _)) in Es as (pre & -> & Hloc).
      apply Ascii.eqb_eq in Eq. subst c.
      exists (DQUOTE :: pre ++ [DQUOTE]). split; [norm_app; reflexivity|].
      split; [apply (ends_token_snoc (DQUOTE :: pre)); reflexivity|].
      intros rest' _. norm_app. rewrite parse_value_string, Hloc. reflexivity. }
    destruct (c =? "{")%char eqn:Eo.
    { destruct (skip_ws r) as [|c1 r1] eqn:Ews; [discriminate|].
      apply skip_ws_found in Ews as (w & -> & Hw & Hc1).
      destruct (c1 =? "}")%char eqn:Ec.
      - injection H as <- <-.
        exists (c :: w ++ [c1]). split; [norm_app; reflexivity|]. split.
        + apply (ends_token_snoc (c :: w)). apply Ascii.eqb_eq in Ec. subst c1. reflexivity.
        + intros rest' _. norm_app.
          rewrite parse_value_eq, Eq, Eo, (skip_ws_pad w c1 _ Hw Hc1), Ec. reflexivity.
      - destruct (c1 =? DQUOTE)%char eqn:Ecq; [|discriminate].
        apply bind_ok in H as ([pairs rest0] & Hm & H). injection H as <- <-.
        apply IHm in Hm as (pre & -> & Hloc).
        exists (c :: w ++ c1 :: pre ++ ["}"%char]). split; [norm_app; reflexivity|]. split.
        + apply (ends_token_app (c :: w)), (ends_token_snoc (c1 :: pre)). reflexivity.
        + intros rest' _. norm_app.
          rewrite parse_value_eq, Eq, Eo, (skip_ws_pad w c1 _ Hw Hc1), Ec, Ecq, Hloc.
          reflexivity. }
    destruct (c =? "[")%char eqn:Ea.
    { destruct (skip_ws r) as [|c1 r1] eqn:Ews; [discriminate|].
      apply skip_ws_found in Ews as (w & -> & Hw & Hc1).
      destruct (c1 =? "]")%char eqn:Ec.
      - injection H as <- <-.
        exists (c :: w ++ [c1]). split; [norm_app; reflexivity|]. split.
        + apply (ends_token_snoc (c :: w)). apply Ascii.eqb_eq in Ec. subst c1. reflexivity.
        + intros rest' _. norm_app.
          rewrite parse_value_eq, Eq, Eo, Ea, (skip_ws_pad w c1 _ Hw Hc1), Ec. reflexivity.
      - apply bind_ok in H as ([items rest0] & He & H). injection H as <- <-.
        apply IHe in He as (c' & p & E & Hloc). injection E as <- ->.
        exists (c :: w ++ c1 :: p ++ ["]"%char]). split; [norm_app; reflexivity|]. split.
        + apply (ends_token_app (c :: w)), (ends_token_snoc (c1 :: p)). reflexivity.
        + intros rest' _. norm_app.
          rewrite parse_value_eq, Eq, Eo, Ea, (skip_ws_pad w c1 _ Hw Hc1), Ec, Hloc.
          reflexivity. }
    destruct (starts_with (chars "null") (c :: r)) eqn:En.
    { injection H as <- <-. apply starts_with_split in En.
      exists (chars "null"). split; [exact En|]. split; reflexivity. }
    destruct (starts_with (chars "true") (c :: r)) eqn:Et.
    { injection H as <- <-. apply starts_with_split in Et.
      exists (chars "true"). split; [exact Et|]. split; reflexivity. }
    destruct (starts_with (chars "false") (c :: r)) eqn:Ef.
    { injection H as <- <-. apply starts_with_split in Ef.
      exists (chars "false"). split; [exact Ef|]. split; reflexivity. }
    pose proof (scan_number_head _ _ _ _ H) as Hhead.
    apply scan_number_local in H as (pre & E & Hend & Hloc).
    exists pre. split; [exact E|]. split; [exact Hend|].
    intros rest' Hstop. apply ends_token_nonempty in Hend as (c0 & p0 & ->).
    injection E as <- _. cbn [app] in *.
    rewrite (parse_value_float _ _ _ Hhead). exact (Hloc rest' Hstop).
  - intros s vs rest H. rewrite parse_elements_step in H.
    apply bind_ok in H as ([v rest0] & Hv & H).
    apply IHv in Hv as (pre & -> & Hend & Hloc).
    apply ends_token_nonempty in Hend as (c0 & p0 & ->). cbn [app] in Hloc.
    destruct (skip_ws rest0) as [|c r] eqn:Ews; [discriminate|].
    apply skip_ws_found in Ews as (w & -> & Hw & Hc).
    destruct (c =? "]")%char eqn:Ec.
    + injection H as <- <-. apply Ascii.eqb_eq in Ec. subst c.
      exists c0, (p0 ++ w). split; [norm_app; reflexivity|].
      intros rest'. norm_app.
      rewrite parse_elements_step, (Hloc _ (number_stop_pad w "]" rest' Hw eq_refl)).
      cbn [bind]. rewrite (skip_ws_pad w "]" _ Hw eq_refl). reflexivity.
    + destruct (c =? ",")%char eqn:Ec2; [|discriminate].
      apply bind_ok in H as ([vs' rest1] & He & H). injection H as <- <-.
      apply IHe in He as (c1 & p1 & E1 & Hloc1).
      apply skip_ws_found in E1 as (w2 & -> & Hw2 & Hc1).
      apply Ascii.eqb_eq in Ec2. subst c.
      exists c0, (p0 ++ w ++ ","%char :: w2 ++ c1 :: p1). split; [norm_app; reflexivity|].
      intros rest'. norm_app.
      rewrite parse_elements_step, (Hloc _ (number_stop_pad w "," _ Hw eq_refl)).
      cbn [bind]. rewrite (skip_ws_pad w "," _ Hw eq_refl). cbv beta iota.
      rewrite (skip_ws_pad w2 c1 _ Hw2 Hc1), Hloc1. reflexivity.
  - intros s kvs rest H. rewrite parse_members_step in H.
    destruct (scanstring s) as [[key rest0]|] eqn:Es; [|discriminate].
    apply (scanstring_local _ _ _ _ (le_n _)) in Es as (pk & -> & Hlock).
    destruct (skip_ws rest0) as [|c r] eqn:Ews; [discriminate|].
    apply skip_ws_found in Ews as (w1 & -> & Hw1 & Hc).
    destruct (c =? ":")%char eqn:Ec; [|discriminate].
    apply bind_ok in H as ([v rest1] & Hv & H).
    apply IHv in Hv as (pv & Ev & Hend & Hlocv).
    apply ends_token_nonempty in Hend as (c0 & p0 & ->). cbn [app] in Ev, Hlocv.
    apply skip_ws_found in Ev as (w2 & -> & Hw2 & Hc0).
    destruct (skip_ws rest1) as [|c1 r1] eqn:Ews1; [discriminate|].
    apply skip_ws_found in Ews1 as (w3 & -> & Hw3 & Hc1).
    apply Ascii.eqb_eq in Ec. subst c.
    destruct (c1 =? "}")%char eqn:Ec1.
    + injection H as <- <-. apply Ascii.eqb_eq in Ec1. subst c1.
      exists (pk ++ DQUOTE :: w1 ++ ":"%char :: w2 ++ c0 :: p0 ++ w3).
      split; [norm_app; reflexivity|].
      intros rest'. norm_app.
      rewrite parse_members_step, Hlock, (skip_ws_pad w1 ":" _ Hw1 eq_refl).
      cbv beta iota. rewrite (skip_ws_pad w2 c0 _ Hw2 Hc0).
      rewrite (Hlocv _ (number_stop_pad w3 "}" rest' Hw3 eq_refl)). cbn [bind].
      rewrite (skip_ws_pad w3 "}" _ Hw3 eq_refl). reflexivity.
    + destruct (c1 =? ",")%char eqn:Ec2; [|discriminate].
      destruct (skip_ws r1) as [|c2 r2] eqn:Ews2; [discriminate|].
      apply skip_ws_found in Ews2 as (w4 & -> & Hw4 & Hc2).
      destruct (c2 =? DQUOTE)%char eqn:Eq2; [|discriminate].
      apply bind_ok in H as ([kvs' rest2] & Hm & H). injection H as <- <-.
      apply IHm in Hm as (pm & -> & Hlocm).
      apply Ascii.eqb_eq in Ec2. subst c1.
      exists (pk ++ DQUOTE :: w1 ++ ":"%char :: w2 ++ c0 :: p0 ++ w3
                 ++ ","%char :: w4 ++ c2 :: pm).
      split; [norm_app; reflexivity|].
      intros rest'. norm_app.
      rewrite parse_members_step, Hlock, (skip_ws_pad w1 ":" _ Hw1 eq_refl).
      cbv beta iota. rewrite (skip_ws_pad w2 c0 _ Hw2 Hc0).
      rewrite (Hlocv _ (number_stop_pad w3 "," _ Hw3 eq_refl)). cbn [bind].
      rewrite (skip_ws_pad w3 "," _ Hw3 eq_refl). cbv beta iota.
      rewrite (skip_ws_pad w4 c2 _ Hw4 Hc2). cbv beta iota.
      rewrite Eq2, Hlocm. reflexivity.
Qed.

(** ** [strip] on a text [json.loads] accepts *)

Lemma is_ws_space (a : ascii) (r : list ascii) :
  is_ws a = true -> space_width (a :: r) = 1%nat /\ space_width_back (a :: r) = 1%nat.
Proof. each_char a; intros H; try discriminate H; split; reflexivity. Qed.

Lemma value_head_no_space (c : ascii) (r : list ascii) :
  value_head c = true ->
  space_width (c :: r) = 0%nat /\ (("`" =? c)%char = false).
Proof.
  each_char c; intros H; try discriminate H;
    (split; [destruct r as [|b [|d r']]; reflexivity|reflexivity]).
Qed.

Lemma space_back_ascii (c : ascii) (r : list ascii) :
  (N_of_ascii c <? 128)%N = true -> space1 c = false ->
  space_width_back (c :: r) = 0%nat.
Proof.
  intros Hlt H1. apply N.ltb_lt in Hlt. unfold space_width_back. rewrite H1.
  assert (Hne : forall n, (128 <= n)%N -> (N_of_ascii c =? n)%N = false)
    by (intros n Hn; apply N.eqb_neq; lia).
  assert (Hle : (128 <=? N_of_ascii c)%N = false) by (apply N.leb_gt; lia).
  destruct r as [|b [|a r']]; [reflexivity| |];
    unfold space2, space3; cbv zeta;
    rewrite ?Hle, ?(Hne 133%N), ?(Hne 160%N), ?(Hne 128%N), ?(Hne 168%N), ?(Hne 169%N),
      ?(Hne 175%N), ?(Hne 159%N) by lia;
    cbn [andb orb]; rewrite ?Bool.andb_false_r; reflexivity.
Qed.

Lemma token_end_no_space (c : ascii) (r : list ascii) :
  token_end c = true -> space_width_back (c :: r) = 0%nat.
Proof.
  intros H. apply space_back_ascii; revert H; clear;
    each_char c; intros H; try discriminate H; reflexivity.
Qed.

Lemma drop_spaces_pad (width : list ascii -> nat) (w : list ascii) (c : ascii)
    (x : list ascii) :
  (forall a r, is_ws a = true -> width (a :: r) = 1%nat) ->
  forallb is_ws w = true -> width (c :: x) = 0%nat ->
  drop_spaces width 0 (w ++ c :: x) = c :: x.
Proof.
  intros Hws Hw Hc. induction w as [|a w IH]; cbn [app drop_spaces].
  - rewrite Hc. reflexivity.
  - simpl in Hw. apply Bool.andb_true_iff in Hw as [Ha Hw].
    rewrite (Hws a _ Ha). exact (IH Hw).
Qed.

Lemma forallb_rev {A : Type} (f : A -> bool) (l : list A) :
  forallb f l = true -> forallb f (rev l) = true.
Proof.
  rewrite !forallb_forall. intros H x Hx. apply H, in_rev, Hx.
Qed.

Lemma strip_padded (w1 w2 : list ascii) (c0 : ascii) (p : list ascii) :
  forallb is_ws w1 = true -> forallb is_ws w2 = true ->
  value_head c0 = true -> ends_token (c0 :: p) = true ->
  strip (w1 ++ (c0 :: p) ++ w2) = c0 :: p.
Proof.
  intros H1 H2 Hc Hend. unfold strip. cbn [app].
  rewrite (drop_spaces_pad space_width w1 c0 _
             (fun a r Ha => proj1 (is_ws_space a r Ha)) H1
             (proj1 (value_head_no_space c0 _ Hc))).
  change (c0 :: p ++ w2) with ((c0 :: p) ++ w2). rewrite rev_app_distr.
  unfold ends_token in Hend. destruct (rev (c0 :: p)) as [|c r] eqn:E; [discriminate|].
  rewrite (drop_spaces_pad space_width_back (rev w2) c r
             (fun a r Ha => proj2 (is_ws_space a r Ha)) (forallb_rev _ _ H2)
             (token_end_no_space c r Hend)).
  rewrite <- E. apply rev_involutive.
Qed.

Lemma starts_with_head (a : ascii) (p : list ascii) (c : ascii) (r : list ascii) :
  starts_with (a :: p) (c :: r) = true -> c = a.
Proof.
  cbn [starts_with]. intros H. apply Bool.andb_true_iff in H as [H _].
  apply Ascii.eqb_eq in H. symmetry. exact H.
Qed.

Lemma parse_value_head (fuel : nat) (c : ascii) (r : list ascii) (v : pyval)
    (rest : list ascii) :
  parse_value fuel (c :: r) = Ok (v, rest) -> value_head c = true.
Proof.
  destruct fuel as [|fuel]; [discriminate|]. rewrite parse_value_eq.
  destruct (c =? DQUOTE)%char eqn:Eq.
  { apply Ascii.eqb_eq in Eq. subst c. reflexivity. }
  destruct (c =? "{")%char eqn:Eo.
  { apply Ascii.eqb_eq in Eo. subst c. reflexivity. }
  destruct (c =? "[")%char eqn:Ea.
  { apply Ascii.eqb_eq in Ea. subst c. reflexivity. }
  destruct (starts_with (chars "null") (c :: r)) eqn:En.
  { apply (starts_with_head "n" (chars "ull")) in En. subst c. reflexivity. }
  destruct (starts_with (chars "true") (c :: r)) eqn:Et.
  { apply (starts_with_head "t" (chars "rue")) in Et. subst c. reflexivity. }
  destruct (starts_with (chars "false") (c :: r)) eqn:Ef.
  { apply (starts_with_head "f" (chars "alse")) in Ef. subst c. reflexivity. }
  intros H. apply scan_number_head in H. unfold value_head.
  destruct (is_digit c); [reflexivity|]. destruct (c =? "-")%char; [reflexivity|].
  cbn [orb] in H |- *.
  apply Bool.orb_true_iff in H as [H|H]; rewrite H, ?Bool.orb_true_r; reflexivity.
Qed.

Lemma skip_ws_all (s : list ascii) : skip_ws s = [] -> forallb is_ws s = true.
Proof.
  intros H. destruct (skip_ws_split s) as (w & Hs & Hw).
  rewrite H, app_nil_r in Hs. subst w. exact Hw.
Qed.

(** A text [json.loads] accepts is a value between blanks; [strip] leaves
    the value, which [json.loads] reads to the same result. *)
Lemma json_loads_shape (s : string) (v : pyval) :
  json_loads s = Ok v ->
  exists c0 p,
    strip (chars s) = c0 :: p /\ value_head c0 = true /\
    json_loads (string_of_list_ascii (c0 :: p)) = Ok v.
Proof.
  unfold json_loads. intros H.
  apply bind_ok in H as ([v' rest] & Hv & H).
  destruct (skip_ws rest) eqn:Er; [|discriminate]. injection H as ->.
  apply skip_ws_all in Er.
  destruct (skip_ws_split (chars s)) as (w1 & Hs & Hw1).
  destruct (proj1 (parse_local _) _ _ _ Hv) as (pre & Epre & Hend & Hloc).
  pose proof Hend as Hend'. apply ends_token_nonempty in Hend' as (c0 & p & ->).
  rewrite Epre in Hv, Hs. cbn [app] in Hv.
  pose proof (parse_value_head _ _ _ _ _ Hv) as Hhead.
  exists c0, p. split; [rewrite Hs; apply strip_padded; assumption|].
  split; [exact Hhead|].
  specialize (Hloc [] eq_refl). rewrite app_nil_r in Hloc.
  assert (Hlen : (List.length (c0 :: p) <= List.length (chars s))%nat).
  { rewrite Hs, !length_app. lia. }
  replace (chars (string_of_list_ascii (c0 :: p))) with (c0 :: p)
    by (unfold chars; rewrite list_ascii_of_string_of_list_ascii; reflexivity).
  rewrite (skip_ws_head _ _ Hhead).
  rewrite <- (parse_value_fuel_le (2 * List.length (c0 :: p) + 2)
                (2 * List.length (chars s) + 2) (c0 :: p)).
  - rewrite Hloc. reflexivity.
  - lia.
  - apply (proj1 (parse_no_fuel _)). lia.
Qed.

(** ** [str_replace] around a Markdown fence *)

Lemma replace_from_skip (old new pre x : list ascii) :
  replace_from old new (List.length pre) (pre ++ x) = replace_from old new 0 x.
Proof.
  induction pre as [|a pre IH]; [reflexivity|]. cbn [List.length app replace_from].
  exact IH.
Qed.

Lemma str_replace_hit (c : ascii) (old new x : list ascii) :
  str_replace (c :: old) new ((c :: old) ++ x) = new ++ str_replace (c :: old) new x.
Proof.
  unfold str_replace. cbn [app replace_from].
  change (starts_with (c :: old) (c :: old ++ x))
    with (starts_with (c :: old) ((c :: old) ++ x)).
  rewrite starts_with_app.
  replace (List.length (c :: old) - 1)%nat with (List.length old)
    by (cbn [List.length]; lia).
  rewrite replace_from_skip. reflexivity.
Qed.

Lemma str_replace_miss (old new : list ascii) (c : ascii) (r : list ascii) :
  starts_with old (c :: r) = false ->
  str_replace old new (c :: r) = c :: str_replace old new r.
Proof. unfold str_replace. intros H. cbn [replace_from]. rewrite H. reflexivity. Qed.

Lemma str_replace_plain (old new body x : list ascii) :
  no_backtick body = true ->
  str_replace ("`"%char :: old) new (body ++ x)
  = body ++ str_replace ("`"%char :: old) new x.
Proof.
  unfold str_replace, no_backtick. intros H.
  induction body as [|a body IH]; [reflexivity|]. cbn [forallb] in H.
  apply Bool.andb_true_iff in H as [Ha H]. apply Bool.negb_true_iff in Ha.
  cbn [app replace_from starts_with]. rewrite Ascii.eqb_sym, Ha. cbn [andb].
  rewrite (IH H). reflexivity.
Qed.

Lemma starts_with_json_fence (body : list ascii) :
  no_backtick body = true -> starts_with (chars "json") body = false ->
  starts_with (chars "json") (body ++ chars "```") = false.
Proof.
  unfold no_backtick.
  destruct body as [|a [|b [|c [|d body]]]]; cbn [forallb app]; intros Hn H.
  - reflexivity.
  - change (chars "json") with ("j"%char :: chars "son"). cbn [starts_with].
    destruct ("j" =? a)%char; reflexivity.
  - change (chars "json") with ("j"%char :: "s"%char :: chars "on"). cbn [starts_with].
    destruct ("j" =? a)%char; [|reflexivity]. destruct ("s" =? b)%char; reflexivity.
  - change (chars "json") with ("j"%char :: "s"%char :: "o"%char :: chars "n").
    cbn [starts_with].
    destruct ("j" =? a)%char; [|reflexivity]. destruct ("s" =? b)%char; [|reflexivity].
    destruct ("o" =? c)%char; reflexivity.
  - exact H.
Qed.

(** What the two [replace] calls and the second [strip] make of a fenced
    text whose body holds no backtick. *)
Lemma unfence_tagged (body : list ascii) :
  no_backtick body = true ->
  str_replace (chars "```") []
    (str_replace (chars "```json") [] (chars "```json" ++ body ++ chars "```"))
  = body.
Proof.
  intros Hn.
  change (chars "```json") with ("`"%char :: chars "``json") at 1 2.
  rewrite str_replace_hit. cbn [app].
  rewrite (str_replace_plain _ _ _ _ Hn).
  change (str_replace ("`"%char :: chars "``json") [] (chars "```")) with (chars "```").
  change (chars "```") with ("`"%char :: chars "``") at 1.
  rewrite (str_replace_plain _ _ _ _ Hn).
  change (str_replace ("`"%char :: chars "``") [] (chars "```")) with (@nil ascii).
  apply app_nil_r.
Qed.

Lemma unfence_plain (body : list ascii) :
  no_backtick body = true -> starts_with (chars "json") body = false ->
  str_replace (chars "```") []
    (str_replace (chars "```json") [] (chars "```" ++ body ++ chars "```"))
  = body.
Proof.
  intros Hn Hj.
  assert (E : str_replace (chars "```json") [] (chars "```" ++ body ++ chars "```")
              = chars "```" ++ body ++ chars "```").
  { destruct body as [|a body]; [reflexivity|].
    pose proof (starts_with_json_fence _ Hn Hj) as Hs.
    pose proof Hn as Hn'. unfold no_backtick in Hn'. cbn [forallb] in Hn'.
    apply Bool.andb_true_iff in Hn' as [Ha _]. apply Bool.negb_true_iff in Ha.
    rewrite Ascii.eqb_sym in Ha.
    change (chars "```" ++ (a :: body) ++ chars "```")
      with ("`"%char :: "`"%char :: "`"%char :: a :: body ++ chars "```").
    assert (S1 : starts_with (chars "```json")
                   ("`"%char :: "`"%char :: "`"%char :: a :: body ++ chars "```") = false)
      by exact Hs.
    assert (S2 : starts_with (chars "```json")
                   ("`"%char :: "`"%char :: a :: body ++ chars "```") = false).
    { change (chars "```json") with ("`"%char :: "`"%char :: "`"%char :: chars "json").
      cbn [starts_with]. rewrite Ha, !Bool.andb_false_r. reflexivity. }
    assert (S3 : starts_with (chars "```json")
                   ("`"%char :: a :: body ++ chars "```") = false).
    { change (chars "```json") with ("`"%char :: "`"%char :: chars "`json").
      cbn [starts_with]. rewrite Ha, !Bool.andb_false_r. reflexivity. }
    rewrite (str_replace_miss _ _ _ _ S1), (str_replace_miss _ _ _ _ S2),
      (str_replace_miss _ _ _ _ S3).
    change (a :: body ++ chars "```") with ((a :: body) ++ chars "```").
    change (chars "```json") with ("`"%char :: chars "``json").
    rewrite (str_replace_plain _ _ _ _ Hn). reflexivity. }
  rewrite E.
  change (chars "```") with ("`"%char :: chars "``") at 1 2.
  rewrite str_replace_hit. cbn [app].
  rewrite (str_replace_plain _ _ _ _ Hn).
  change (str_replace ("`"%char :: chars "``") [] (chars "```")) with (@nil ascii).
  apply app_nil_r.
Qed.

(** ** [parse_json_response] *)

(** [strip] removes the whitespace of [str.isspace], here a space, a line
    feed, U+3000, U+200A, U+00A0, U+2028 and U+001F, and nothing else:
    U+200B stays. *)
Example strip_unicode_spaces :
  strip (text_of_bytes [32; 10; 227; 128; 128; 65; 32; 66; 226; 128; 138; 194; 160;
                        226; 128; 168; 31]%N)
  = chars "A B".
Proof. reflexivity. Qed.

Example strip_keeps_zero_width_space :
  strip (text_of_bytes [226; 128; 139; 65; 226; 128; 139]%N)
  = text_of_bytes [226; 128; 139; 65; 226; 128; 139]%N.
Proof. reflexivity. Qed.

Example replace_leftmost_first :
  str_replace (chars "```") [] (chars "a````b``````c``") = chars "a`bc``".
Proof. reflexivity. Qed.

(** Only the tag [json] in lower case is removed with the fence. *)
Example parse_other_tag :
  parse_json_response
    (string_of_list_ascii (chars "```JSON" ++ fenced_body ++ chars "```"))
  = Ok PNone.
Proof. reflexivity. Qed.

Example parse_float_literal :
  parse_json_response "[1.5, 2e-3]"
  = Ok (PList [PFloat (FFinite false 6755399441055744 (-52));
               PFloat (FFinite false 4611686018427388 (-61))]).
Proof. reflexivity. Qed.

(** Between fences, three backticks inside a JSON string are removed with
    the fences. *)
Example parse_backticks_in_string :
  let body := "["%char :: DQUOTE :: chars "```" ++ [DQUOTE; "]"%char] in
  json_loads (string_of_list_ascii body) = Ok (PList [PStr "```"]) /\
  parse_json_response (string_of_list_ascii (chars "```json" ++ body ++ chars "```"))
  = Ok (PList [PStr ""]).
Proof. split; reflexivity. Qed.

(** X17. [parse_json_response] accepts every text [json.loads] accepts and
    returns the same value: stripping the text and looking for a Markdown
    fence loses nothing that was JSON already. *)
Theorem parse_json_response_accepts_json (text : string) (v : pyval) :
  json_loads text = Ok v -> parse_json_response text = Ok v.
Proof.
  intros H. apply json_loads_shape in H as (c0 & p & Hs & Hhead & Hv).
  unfold parse_json_response, unfence. rewrite Hs.
  change (chars "```") with ("`"%char :: chars "``") at 1. cbn [starts_with].
  rewrite (proj2 (value_head_no_space c0 p Hhead)). cbn [andb].
  rewrite Hv. reflexivity.
Qed.

Lemma parse_json_response_accepts_json_witness :
  json_loads " [1, [2, null], {}] " = Ok (PList [PInt 1; PList [PInt 2; PNone]; PDict []]) /\
  parse_json_response " [1, [2, null], {}] "
  = Ok (PList [PInt 1; PList [PInt 2; PNone]; PDict []]).
Proof.
  split; [reflexivity|].
  apply (parse_json_response_accepts_json " [1, [2, null], {}] "). reflexivity.
Defined.

(** X18. A reply whose stripped text is a JSON text between Markdown fences
    (opened by three backticks, with or without the tag [json], and closed
    by three backticks) is read as the JSON text between the fences,
    provided that text holds no backtick. *)
Theorem parse_json_response_accepts_fenced (text : string) (tagged : bool)
    (body : list ascii) (v : pyval) :
  strip (chars text)
  = chars (if tagged then "```json" else "```") ++ body ++ chars "```" ->
  (tagged = false -> starts_with (chars "json") body = false) ->
  no_backtick body = true ->
  json_loads (string_of_list_ascii body) = Ok v ->
  parse_json_response text = Ok v.
Proof.
  intros Hs Htag Hn Hv.
  apply json_loads_shape in Hv as (c0 & p & Hb & _ & Hv).
  replace (chars (string_of_list_ascii body)) with body in Hb
    by (unfold chars; rewrite list_ascii_of_string_of_list_ascii; reflexivity).
  unfold parse_json_response, unfence. rewrite Hs.
  assert (Hf : starts_with (chars "```")
                 (chars (if tagged then "```json" else "```") ++ body ++ chars "```")
               = true).
  { destruct tagged; [|apply starts_with_app].
    change (chars "```json") with (chars "```" ++ chars "json").
    rewrite <- app_assoc. apply starts_with_app. }
  rewrite Hf. destruct tagged.
  - rewrite (unfence_tagged _ Hn), Hb, Hv. reflexivity.
  - rewrite (unfence_plain _ Hn (Htag eq_refl)), Hb, Hv. reflexivity.
Qed.

Lemma parse_json_response_accepts_fenced_witness :
  strip (chars fenced_reply)
  = chars (if true then "```json" else "```") ++ fenced_body ++ chars "```" /\
  parse_json_response fenced_reply
  = Ok (PList [PInt 1; PList [PInt 2; PNone]; PDict []]).
Proof.
  split; [reflexivity|].
  apply (parse_json_response_accepts_fenced fenced_reply true fenced_body);
    [reflexivity|discriminate|reflexivity|reflexivity].
Defined.

(** X19. [parse_json_response] raises for no text: it returns [None] or a
    value JSON holds natively, floats included. *)
Theorem parse_json_response_total (text : string) :
  exists v, parse_json_response text = Ok v /\ json_native v = true.
Proof.
  unfold parse_json_response.
  destruct (json_loads (string_of_list_ascii (unfence (chars text)))) as [v|e] eqn:E.
  - exists v. split; [reflexivity|exact (json_loads_native _ _ E)].
  - destruct e; try (exists PNone; split; reflexivity).
    exfalso. exact (json_loads_no_fuel _ E).
Qed.

(** ** The session state *)

Example init_on_empty_session : init_session_state (fun v => v) [] = defaults.
Proof. reflexivity. Qed.

Example init_keeps_step :
  session_get (init_session_state (fun v => v) [("workflow_step", PStr "홍보")])
    "workflow_step" = Some (PStr "홍보").
Proof. reflexivity. Qed.

Section SessionFacts.
Context {V : Type} (py : pyval -> V).

Lemma session_get_set (st : session V) (k key : string) (v : V) :
  session_get (session_set st k v) key
  = if (k =? key)%string then Some v else session_get st key.
Proof.
  unfold session_get. induction st as [|[k' x] st IH]; simpl.
  - destruct (k =? key)%string; reflexivity.
  - destruct (String.eqb_spec k' k) as [->|Hne]; simpl.
    + destruct (k =? key)%string; reflexivity.
    + destruct (String.eqb_spec k' key) as [->|Hne']; simpl.
      * destruct (String.eqb_spec k key) as [->|_]; [contradiction|reflexivity].
      * exact IH.
Qed.

Lemma session_has_get (st : session V) (key : string) :
  session_has st key = match session_get st key with Some _ => true | None => false end.
Proof.
  unfold session_has, session_get. induction st as [|[k x] st IH]; simpl; [reflexivity|].
  destruct (k =? key)%string; [reflexivity|exact IH].
Qed.

Lemma session_get_set_default (st : session V) (kv : string * pyval) (key : string) :
  session_get (set_default py st kv) key
  = match session_get st key with
    | Some v => Some v
    | None => if (fst kv =? key)%string then Some (py (snd kv)) else None
    end.
Proof.
  unfold set_default. rewrite session_has_get.
  destruct (session_get st (fst kv)) as [v|] eqn:E.
  - destruct (session_get st key) as [v'|] eqn:E'; [reflexivity|].
    destruct (String.eqb_spec (fst kv) key) as [Heq|_]; [|reflexivity].
    rewrite Heq in E. congruence.
  - rewrite session_get_set.
    destruct (String.eqb_spec (fst kv) key) as [Heq|_].
    + rewrite <- Heq, E. reflexivity.
    + destruct (session_get st key); reflexivity.
Qed.

Lemma session_get_fold (ds : list (string * pyval)) (st : session V) (key : string) :
  session_get (fold_left (set_default py) ds st) key
  = match session_get st key with
    | Some v => Some v
    | None => option_map py (session_get ds key)
    end.
Proof.
  revert st. induction ds as [|kv ds IH]; intros st; cbn [fold_left].
  - destruct (session_get st key); reflexivity.
  - rewrite IH, session_get_set_default.
    destruct (session_get st key) as [v|]; [reflexivity|].
    unfold session_get at 2. cbn [find].
    destruct (fst kv =? key)%string; reflexivity.
Qed.

Lemma fold_set_default_present (ds : list (string * pyval)) (st : session V) :
  Forall (fun kv => session_has st (fst kv) = true) ds ->
  fold_left (set_default py) ds st = st.
Proof.
  induction 1 as [|kv ds Hkv _ IH]; cbn [fold_left]; [reflexivity|].
  unfold set_default at 2. rewrite Hkv. exact IH.
Qed.

(** X20. [init_session_state] changes no value the session already holds
    and gives every other name of [defaults] its default; a name that is
    neither in the session nor in [defaults] stays absent.  Calling it a
    second time changes nothing. *)
Theorem init_session_state_fills_missing (st : session V) :
  (forall key,
     session_get (init_session_state py st) key
     = match session_get st key with
       | Some v => Some v
       | None => option_map py (session_get defaults key)
       end) /\
  init_session_state py (init_session_state py st) = init_session_state py st.
Proof.
  split; [intros key; apply session_get_fold|].
  unfold init_session_state at 1. apply fold_set_default_present.
  rewrite Forall_forall. intros kv Hin. rewrite session_has_get.
  unfold init_session_state. rewrite session_get_fold.
  destruct (session_get st (fst kv)); [reflexivity|].
  assert (H : session_get defaults (fst kv) <> None).
  { clear -Hin. cbn [defaults In] in Hin.
    repeat (destruct Hin as [<-|Hin]; [discriminate|]). contradiction. }
  destruct (session_get defaults (fst kv)); [reflexivity|contradiction].
Qed.

(** X21. The handler of the button that starts a new policy puts every
    name of [defaults] back to the value [init_session_state] gives it on
    an empty session, and touches no other name. *)
Theorem start_new_policy_restores_defaults (st : session V) (key : string) :
  session_get (start_new_policy py st) key
  = match session_get defaults key with
    | Some d => Some (py d)
    | None => session_get st key
    end.
Proof.
  unfold start_new_policy. cbn [fold_left]. rewrite !session_get_set.
  repeat match goal with
         | |- context [(?k =? key)%string] =>
             destruct (String.eqb_spec k key) as [<-|?]; [reflexivity|]
         end.
  assert (E : session_get defaults key = None).
  { unfold session_get, defaults. cbn [find fst].
    repeat match goal with
           | |- context [(?k =? key)%string] =>
               destruct (String.eqb_spec k key) as [?|_]; [contradiction|]
           end.
    reflexivity. }
  rewrite E. reflexivity.
Qed.
End SessionFacts.
